(** * Annotation tool: citation matching, highlighting and persistence

    A shallow embedding of the core of the annotation application
    ([claude4.0sonnet_v03.py]): the citation matcher, the highlight
    renderer, the corpus operations on the session state and the JSON,
    document and spreadsheet import/export paths. *)

From Stdlib Require Import NArith ZArith Ascii String Lia.
From stdpp Require Import base tactics option list sorting.

Local Open Scope N_scope.
#[local] Set Warnings "-register-all".

(** ** Python strings

    A Python [str] is a sequence of Unicode code points; [len], slicing,
    [in], [replace] and [sorted(key=len)] all count code points, so a
    string is a list of code points and not a list of bytes. *)

Abbreviation str := (list N).

(** An ASCII literal as a [str] (every character below U+0080). *)
Definition lit (s : string) : str :=
  List.map N_of_ascii (list_ascii_of_string s).

(** Truth value of a string: [if s:] holds for the non-empty ones. *)
Definition truthy (s : str) : bool :=
  match s with [] => false | _ :: _ => true end.

(** [s.startswith(p)]. *)
Fixpoint startswith (s p : str) : bool :=
  match p, s with
  | [], _ => true
  | _ :: _, [] => false
  | x :: p', y :: s' => (x =? y) && startswith s' p'
  end.

(** [p in s]: [p] is a contiguous substring of [s]. *)
Fixpoint contains (p s : str) : bool :=
  startswith s p ||
  match s with
  | [] => false
  | _ :: s' => contains p s'
  end.

(** [s.replace(old, new)] for a non-empty [old]: scan from the left; at a
    position where [old] starts, emit [new] and jump over [old], else copy
    one character.  [skip] counts the characters of a matched [old] that
    are still to be jumped over. *)
Fixpoint replace_from (old new : str) (skip : nat) (s : str) : str :=
  match s with
  | [] => []
  | c :: s' =>
      match skip with
      | S k => replace_from old new k s'
      | O =>
          if startswith s old
          then new ++ replace_from old new (Nat.pred (length old)) s'
          else c :: replace_from old new O s'
      end
  end.

(** [s.replace(old, new)]; with an empty [old], Python puts [new] before
    every character and at the end. *)
Definition str_replace (s old new : str) : str :=
  match old with
  | [] => new ++ flat_map (fun c => c :: new) s
  | _ :: _ => replace_from old new O s
  end.

(** [s.replace(old, new, 1)]: only the leftmost occurrence. *)
Fixpoint str_replace_first (s old new : str) : str :=
  if startswith s old then new ++ drop (length old) s
  else match s with
       | [] => []
       | c :: s' => c :: str_replace_first s' old new
       end.

(** [s.split(sep)] for a non-empty [sep], with the same scan as
    [replace_from]. *)
Fixpoint split_from (sep : str) (skip : nat) (s : str) : list str :=
  match s with
  | [] => [[]]
  | c :: s' =>
      match skip with
      | S k => split_from sep k s'
      | O =>
          if startswith s sep
          then [] :: split_from sep (Nat.pred (length sep)) s'
          else match split_from sep O s' with
               | [] => [[c]]
               | piece :: pieces => (c :: piece) :: pieces
               end
      end
  end.

Definition str_split (s sep : str) : list str := split_from sep O s.

(** [sep.join(pieces)]. *)
Fixpoint str_join (sep : str) (pieces : list str) : str :=
  match pieces with
  | [] => []
  | [p] => p
  | p :: rest => p ++ sep ++ str_join sep rest
  end.

(** [s.count(sub)] for a non-empty [sub]: non-overlapping occurrences. *)
Fixpoint count_from (sub : str) (skip : nat) (s : str) : nat :=
  match s with
  | [] => O
  | _ :: s' =>
      match skip with
      | S k => count_from sub k s'
      | O =>
          if startswith s sub
          then S (count_from sub (Nat.pred (length sub)) s')
          else count_from sub O s'
      end
  end.

Definition str_count (s sub : str) : nat := count_from sub O s.

(** [s.strip()], given what counts as white space: drop it at both
    ends. *)
Fixpoint lstrip (space : N -> bool) (s : str) : str :=
  match s with
  | [] => []
  | c :: s' => if space c then lstrip space s' else s
  end.

Definition strip_with (space : N -> bool) (s : str) : str :=
  rev (lstrip space (rev (lstrip space s))).

(** ** The Unicode tables Python consults

    [str.lower], [str.upper], [str.isspace] and the digit values used by
    [int()] and by [\d] come from the interpreter's Unicode database.  The
    program only calls them; they are an interface here, and the results
    below hold for every database. *)

Class Unicode := {
  str_lower : str -> str;
  str_upper : str -> str;
  isspace : N -> bool;
  decimal_value : N -> option N
}.

(** What the results below use of a database: case mapping never creates
    or erases a whole string, and the ASCII digits and the minus sign are
    what they are. *)
Record UnicodeLaws (U : Unicode) : Prop := {
  lower_nil_iff : forall s, str_lower s = [] <-> s = [];
  upper_nil_iff : forall s, str_upper s = [] <-> s = [];
  decimal_ascii : forall d, d < 10 -> decimal_value (48 + d) = Some d;
  isspace_digit : forall d, d < 10 -> isspace (48 + d) = false;
  isspace_minus : isspace 45 = false
}.

(** *** The Latin-1 part of the database

    The code points U+0000..U+00FF as CPython maps them; the two code
    points above U+00FF that [upper] produces from Latin-1 letters are
    mapped back by [lower] as CPython does.  Other code points are left
    alone by this instance. *)

Definition latin1_lower_cp (c : N) : N :=
  if (65 <=? c) && (c <=? 90) then c + 32
  else if (192 <=? c) && (c <=? 222) && negb (c =? 215) then c + 32
  else if c =? 376 then 255
  else if c =? 924 then 956
  else c.

Definition latin1_upper_cp (c : N) : str :=
  if (97 <=? c) && (c <=? 122) then [c - 32]
  else if (224 <=? c) && (c <=? 254) && negb (c =? 247) then [c - 32]
  else if c =? 223 then [83; 83]
  else if c =? 255 then [376]
  else if c =? 181 then [924]
  else [c].

Definition latin1_isspace (c : N) : bool :=
  ((9 <=? c) && (c <=? 13)) || ((28 <=? c) && (c <=? 32))
  || (c =? 133) || (c =? 160).

Definition latin1_decimal (c : N) : option N :=
  if (48 <=? c) && (c <=? 57) then Some (c - 48) else None.

#[export] Instance latin1 : Unicode := {|
  str_lower := List.map latin1_lower_cp;
  str_upper := flat_map latin1_upper_cp;
  isspace := latin1_isspace;
  decimal_value := latin1_decimal
|}.

(** [s.strip()] *)
Definition strip {U : Unicode} (s : str) : str := strip_with isspace s.

(** ** Citation matcher *)

(** [check_citation_in_text(citation, text)] *)
Definition check_citation_in_text {U : Unicode} (citation text : str) : bool :=
  if negb (truthy citation) || negb (truthy text) then false
  else contains (str_lower citation) (str_lower text).

(** ** Highlight renderer *)

(** [len] as the sort key. *)
Definition len (s : str) : N := N.of_nat (length s).

(** [sorted(citations, key=len, reverse=True)]: descending length; the
    sort is stable, citations of equal length keep their order. *)
Fixpoint insert_by_len (c : str) (sorted : list str) : list str :=
  match sorted with
  | [] => [c]
  | d :: rest =>
      if len d <=? len c then c :: sorted
      else d :: insert_by_len c rest
  end.

Definition sorted_by_len_desc (citations : list str) : list str :=
  foldr insert_by_len [] citations.

(** The double quote, which the marker's style attribute needs. *)
Definition dquote : str := [34].

(** The opening tag of the inline marker. *)
Definition mark_open : str :=
  lit "<mark style=" ++ dquote
  ++ lit "background-color: #b9f6ca; padding: 2px 4px; border-radius: 3px;"
  ++ dquote ++ lit ">".

Definition mark_close : str := lit "</mark>".

(** The f-string that wraps a citation. *)
Definition mark (citation : str) : str :=
  mark_open ++ citation ++ mark_close.

(** One turn of the loop of [highlight_citations]. *)
Definition highlight_step (highlighted citation : str) : str :=
  if truthy citation && contains citation highlighted
  then str_replace highlighted citation (mark citation)
  else highlighted.

Definition highlight_citations (text : str) (citations : list str) : str :=
  fold_left highlight_step (sorted_by_len_desc citations) text.

(** The example strings of the specification. *)
Definition foo : str := lit "foo".
Definition foo_foo_foo : str := lit "foo foo foo".
Definition Details : str := lit "Details".
(** "ergänzende Details"; U+00E4 is the a-umlaut. *)
Definition ergaenzende_Details : str :=
  lit "erg" ++ [228] ++ lit "nzende Details".
(** U+00DF, the sharp s. *)
Definition sharp_s : str := [223].

(** ** Python values

    The objects that travel through JSON and through table cells.  A
    float is kept as the text of its [repr]; no arithmetic is done on
    floats anywhere in the program. *)

Inductive key :=
| KInt (z : Z)
| KStr (s : str).

Inductive value :=
| VNone
| VBool (b : bool)
| VInt (z : Z)
| VFloat (repr : str)
| VStr (s : str)
| VList (items : list value)
| VDict (items : list (key * value)).

#[export] Instance key_eq_dec : EqDecision key.
Proof. solve_decision. Defined.

(** [float('nan')], what pandas puts in a cell that has no value. *)
Definition NaN : value := VFloat (lit "nan").

(** The exceptions the modelled code can raise. *)
Inductive exn :=
| KeyError
| IndexError
| AttributeError
| TypeError
| ValueError.

(** Outcome of a call: a value, an exception, or [Unmodelled] where the
    library behaviour that decides the outcome is not part of this
    development (pandas on shapes other than a list of records, a passage
    container that is not a list). *)
Inductive result (A : Type) :=
| Ok (a : A)
| Raise (e : exn)
| Unmodelled.
Arguments Ok {A} a.
Arguments Raise {A} e.
Arguments Unmodelled {A}.

(** *** Dictionaries

    A Python [dict] keeps its keys in insertion order and holds each key
    once: assigning to a present key changes the value in place. *)
Section Dict.
Context {V : Type}.

Fixpoint dict_get (d : list (key * V)) (k : key) : option V :=
  match d with
  | [] => None
  | (k', v) :: d' => if decide (k' = k) then Some v else dict_get d' k
  end.

(** [k in d] *)
Definition dict_mem (d : list (key * V)) (k : key) : bool :=
  match dict_get d k with Some _ => true | None => false end.

(** [d[k] = v] *)
Fixpoint dict_set (d : list (key * V)) (k : key) (v : V) : list (key * V) :=
  match d with
  | [] => [(k, v)]
  | (k', v') :: d' =>
      if decide (k' = k) then (k', v) :: d'
      else (k', v') :: dict_set d' k v
  end.

(** [del d[k]], for a key known to be present. *)
Fixpoint dict_del (d : list (key * V)) (k : key) : list (key * V) :=
  match d with
  | [] => []
  | (k', v') :: d' =>
      if decide (k' = k) then d' else (k', v') :: dict_del d' k
  end.

(** [dict(pairs)]: later pairs win, keys stay where they first came. *)
Definition dict_of (pairs : list (key * V)) : list (key * V) :=
  fold_left (fun d kv => dict_set d kv.1 kv.2) pairs [].
End Dict.

(** [l.pop(i)]: a negative [i] counts from the end. *)
Definition list_pop {A} (l : list A) (i : Z) : result (list A) :=
  let n := Z.of_nat (length l) in
  let j := if (i <? 0)%Z then (i + n)%Z else i in
  if ((0 <=? j) && (j <? n))%Z then Ok (delete (Z.to_nat j) l)
  else Raise IndexError.

(** ** Tables

    A pandas [DataFrame] as the program uses it: column labels and rows of
    cells.  Every table the program builds carries the default
    [RangeIndex] (constructor, [concat(ignore_index=True)],
    [reset_index(drop=True)]), so row labels are the positions
    [0 .. len-1]. *)
Record DataFrame := {
  columns : list key;
  rows : list (list value)
}.

Definition Citation : key := KStr (lit "Citation").
Definition Metadata : key := KStr (lit "Metadata").
Definition Annotation_Text : key := KStr (lit "Annotation_Text").
Definition Found_in_Text : key := KStr (lit "Found in Text").
Definition Text : key := KStr (lit "Text").

Definition core_columns : list key := [Citation; Metadata; Annotation_Text].

(** [pd.DataFrame({'Citation': [''], 'Metadata': [''],
    'Annotation_Text': ['']})], the table with one blank annotation. *)
Definition blank_frame : DataFrame :=
  {| columns := core_columns; rows := [[VStr []; VStr []; VStr []]] |}.

(** [pd.DataFrame()] *)
Definition empty_frame : DataFrame := {| columns := []; rows := [] |}.

(** [len(df)] *)
Definition df_len (df : DataFrame) : Z := Z.of_nat (length (rows df)).

(** [df.drop(index=label).reset_index(drop=True)]: dropping a label that
    is not in the index raises [KeyError]. *)
Definition df_drop (df : DataFrame) (label : Z) : result DataFrame :=
  if ((0 <=? label) && (label <? df_len df))%Z
  then Ok {| columns := columns df;
             rows := delete (Z.to_nat label) (rows df) |}
  else Raise KeyError.

(** Position of a column label. *)
Fixpoint column_index (cols : list key) (c : key) : option nat :=
  match cols with
  | [] => None
  | c' :: cols' =>
      if decide (c' = c) then Some O
      else S <$> column_index cols' c
  end.

(** [c in df.columns] *)
Definition has_column (df : DataFrame) (c : key) : bool :=
  match column_index (columns df) c with Some _ => true | None => false end.

(** The cell of a row under a column label ([NaN] where there is none). *)
Definition cell (cols : list key) (row : list value) (c : key) : value :=
  match column_index cols c with
  | Some i => default NaN (row !! i)
  | None => NaN
  end.

(** [df[cols]] where all of [cols] are present. *)
Definition df_project (df : DataFrame) (cols : list key) : DataFrame :=
  {| columns := cols;
     rows := (fun row => (cell (columns df) row) <$> cols) <$> rows df |}.

(** [df[cols]]: a missing label raises [KeyError]. *)
Definition df_select (df : DataFrame) (cols : list key) : result DataFrame :=
  if forallb (has_column df) cols then Ok (df_project df cols)
  else Raise KeyError.

(** [df[c]] as the list of its cells. *)
Definition df_column (df : DataFrame) (c : key) : list value :=
  (fun row => cell (columns df) row c) <$> rows df.

(** [df.to_dict('records')]: one [dict(zip(columns, row))] per row. *)
Definition record_of (cols : list key) (row : list value) : value :=
  VDict (dict_of (zip cols row)).

Definition to_dict_records (df : DataFrame) : value :=
  VList (record_of (columns df) <$> rows df).

(** Column labels of a list of records: the keys in first-seen order. *)
Definition add_label (cols : list key) (c : key) : list key :=
  if bool_decide (c ∈ cols) then cols else cols ++ [c].

Definition record_labels (records : list (list (key * value))) : list key :=
  fold_left (fun cols rec => fold_left add_label (rec.*1) cols) records [].

(** The table of a list of records. *)
Definition frame_of_records (records : list (list (key * value))) : DataFrame :=
  let cols := record_labels records in
  {| columns := cols;
     rows := (fun rec => (fun c => default NaN (dict_get rec c)) <$> cols)
               <$> records |}.

(** The records of a list whose items are all dicts. *)
Fixpoint as_records (items : list value) : option (list (list (key * value))) :=
  match items with
  | [] => Some []
  | VDict rec :: items' => (rec ::.) <$> as_records items'
  | _ :: _ => None
  end.

(** [pd.DataFrame(data)] for the shapes modelled: nothing, a list of
    records, or a scalar (which pandas refuses). *)
Definition pd_DataFrame (data : value) : result DataFrame :=
  match data with
  | VNone => Ok empty_frame
  | VList items =>
      match as_records items with
      | Some records => Ok (frame_of_records records)
      | None => Unmodelled
      end
  | VBool _ | VInt _ | VFloat _ | VStr _ => Raise ValueError
  | VDict _ => Unmodelled
  end.

(** The annotations of a table as (citation, metadata, annotation text). *)
Definition annotation_tuples (df : DataFrame) : list (value * value * value) :=
  (fun row => (cell (columns df) row Citation,
               cell (columns df) row Metadata,
               cell (columns df) row Annotation_Text)) <$> rows df.

(** ** Session state

    [st.session_state.text_passages] and [st.session_state.annotations],
    and the messages handed to [st.error]. *)
Record State := {
  text_passages : list value;
  annotations : list (key * DataFrame);
  errors : list str
}.

Definition set_text_passages (ps : list value) (st : State) : State :=
  {| text_passages := ps; annotations := annotations st; errors := errors st |}.

Definition set_annotations (an : list (key * DataFrame)) (st : State) : State :=
  {| text_passages := text_passages st; annotations := an; errors := errors st |}.

Definition st_error (msg : str) (st : State) : State :=
  {| text_passages := text_passages st; annotations := annotations st;
     errors := errors st ++ [msg] |}.

(** Statements that read and write the session state and may raise. *)
Definition py (A : Type) : Type := State -> result A * State.

Definition ret {A} (a : A) : py A := fun st => (Ok a, st).

Definition bind {A B} (m : py A) (k : A -> py B) : py B :=
  fun st =>
    match m st with
    | (Ok a, st') => k a st'
    | (Raise e, st') => (Raise e, st')
    | (Unmodelled, st') => (Unmodelled, st')
    end.

Definition lift {A} (r : result A) : py A := fun st => (r, st).
Definition get_state : py State := fun st => (Ok st, st).
Definition modify (f : State -> State) : py unit := fun st => (Ok tt, f st).

Notation "x <~ m ;; k" := (bind m (fun x => k))
  (at level 100, m at next level, right associativity).
Notation "m ;;; k" := (bind m (fun _ => k))
  (at level 100, right associativity).

(** A [for] loop over a list. *)
Fixpoint for_each {A} (l : list A) (body : A -> py unit) : py unit :=
  match l with
  | [] => ret tt
  | x :: l' => body x ;;; for_each l' body
  end.

(** ** Corpus operations *)

(** [remove_annotation_row(passage_index, row_index)] *)
Definition remove_annotation_row (passage_index : key) (row_index : Z) : py unit :=
  st <~ get_state ;;
  match dict_get (annotations st) passage_index with
  | None => lift (Raise KeyError)
  | Some df =>
      if (row_index <? df_len df)%Z then
        df' <~ lift (df_drop df row_index) ;;
        modify (fun st => set_annotations
                            (dict_set (annotations st) passage_index df') st)
      else ret tt
  end.

(** The body of the re-indexing loop of [remove_text_passage]: position
    [i] takes the table that was at [i], or at [i + 1] from the removed
    position on, or a blank table if there was none. *)
Definition reindex_step (index : Z) (old : list (key * DataFrame))
    (new_annotations : list (key * DataFrame)) (i : Z) : list (key * DataFrame) :=
  let old_index := if (i <? index)%Z then i else (i + 1)%Z in
  match dict_get old (KInt old_index) with
  | Some df => dict_set new_annotations (KInt i) df
  | None => dict_set new_annotations (KInt i) blank_frame
  end.

(** [remove_text_passage(index)] *)
Definition remove_text_passage (index : Z) : py unit :=
  st <~ get_state ;;
  if (1 <? length (text_passages st))%nat then
    ps <~ lift (list_pop (text_passages st) index) ;;
    modify (set_text_passages ps) ;;;
    (if dict_mem (annotations st) (KInt index)
     then modify (fun st => set_annotations (dict_del (annotations st) (KInt index)) st)
     else ret tt) ;;;
    st <~ get_state ;;
    modify (set_annotations
              (fold_left (reindex_step index (annotations st))
                         (seqZ 0 (Z.of_nat (length (text_passages st)))) []))
  else ret tt.

(** ** Integers as text *)

(** The decimal digits of [n], most significant first, in front of [acc];
    [fuel] bounds the number of digits. *)
Fixpoint digits_from (fuel : nat) (n : N) (acc : str) : str :=
  match fuel with
  | O => acc
  | S fuel' =>
      let acc' := (48 + n mod 10) :: acc in
      if n <? 10 then acc' else digits_from fuel' (n / 10) acc'
  end.

Definition str_of_N (n : N) : str := digits_from (S (N.size_nat n)) n [].

(** [str(z)] for an [int]. *)
Definition str_of_Z (z : Z) : str :=
  match z with
  | Z0 => str_of_N 0
  | Zpos p => str_of_N (Npos p)
  | Zneg p => 45 :: str_of_N (Npos p)
  end.

Section Integers.
Context {U : Unicode}.

(** The digits of an [int()] argument: decimal digits of any script,
    single underscores allowed between digits only. *)
Fixpoint int_digits (acc : N) (after_digit : bool) (s : str) : option N :=
  match s with
  | [] => if after_digit then Some acc else None
  | c :: s' =>
      if c =? 95 then
        if after_digit then int_digits acc false s' else None
      else
        match decimal_value c with
        | Some d => int_digits (10 * acc + d) true s'
        | None => None
        end
  end.

(** [int(s)] for a string; [None] stands for [ValueError]. *)
Definition py_int (s : str) : option Z :=
  match strip s with
  | [] => None
  | c :: ds =>
      if c =? 45 then (fun n => (- Z.of_N n)%Z) <$> int_digits 0 false ds
      else if c =? 43 then Z.of_N <$> int_digits 0 false ds
      else Z.of_N <$> int_digits 0 false (c :: ds)
  end.

(** [try: idx_int = int(idx) except Exception: idx_int = idx] *)
Definition int_of_key (idx : key) : key :=
  match idx with
  | KInt z => KInt z
  | KStr s => match py_int s with Some z => KInt z | None => KStr s end
  end.
End Integers.

(** ** JSON

    [json.dumps(data, ensure_ascii=False, indent=2)] and [json.loads] are
    library calls: an interface.  [json_loads] answers [inl msg] when the
    library raises [JSONDecodeError] with message [msg]. *)
Class Json := {
  json_dumps : value -> str;
  json_loads : str -> str + value
}.

(** A key as [json.dumps] writes it. *)
Definition key_text (k : key) : str :=
  match k with
  | KInt z => str_of_Z z
  | KStr s => s
  end.

(** The object [json.loads] builds from the document [json.dumps] writes
    for [v]: every dict key has become its text. *)
Fixpoint json_image (v : value) : value :=
  match v with
  | VList items => VList (json_image <$> items)
  | VDict items =>
      VDict (dict_of ((fun '(k, x) => (KStr (key_text k), json_image x)) <$> items))
  | _ => v
  end.

(** Values made of strings, lists and dicts only. *)
Fixpoint textual (v : value) : bool :=
  match v with
  | VStr _ => true
  | VList items => forallb textual items
  | VDict items => forallb (fun '(_, x) => textual x) items
  | _ => false
  end.

(** The one law of the library that the round trip uses. *)
Definition JsonLaws (J : Json) : Prop :=
  forall v, textual v = true -> json_loads (json_dumps v) = inr (json_image v).

(** The table a passage's annotations are exported from: only the core
    columns when all three are there. *)
Definition export_frame (annotations_df : DataFrame) : DataFrame :=
  if forallb (has_column annotations_df) core_columns
  then df_project annotations_df core_columns
  else annotations_df.

(** [export_data()] *)
Definition export_data (st : State) : value :=
  VDict [ (KStr (lit "text_passages"), VList (text_passages st));
          (KStr (lit "annotations"),
           VDict (fold_left
                    (fun d '(passage_index, annotations_df) =>
                       dict_set d passage_index
                         (to_dict_records (export_frame annotations_df)))
                    (annotations st) [])) ].

Section JsonIO.
Context {U : Unicode} {J : Json}.

(** [save_data()] *)
Definition save_data (st : State) : str := json_dumps (export_data st).

(** The body of the loop of [load_data]. *)
Definition load_item (item : key * value) : py unit :=
  let '(idx, records) := item in
  let idx_int := int_of_key idx in
  df <~ lift (pd_DataFrame records) ;;
  modify (fun st => set_annotations (dict_set (annotations st) idx_int df) st).

(** [load_data(json_str)].  [data.get] and [.items()] exist on dicts
    only. *)
Definition load_data (json_str : str) : py bool :=
  match json_loads json_str with
  | inl e =>
      modify (st_error (lit "Fehler beim Laden der JSON-Datei: " ++ e)) ;;;
      ret false
  | inr (VDict data) =>
      match default (VList []) (dict_get data (KStr (lit "text_passages"))) with
      | VList passages =>
          modify (set_text_passages passages) ;;;
          modify (set_annotations []) ;;;
          match default (VDict []) (dict_get data (KStr (lit "annotations"))) with
          | VDict items => for_each items load_item ;;; ret true
          | _ => lift (Raise AttributeError)
          end
      | _ => lift Unmodelled
      end
  | inr _ => lift (Raise AttributeError)
  end.
End JsonIO.

(** ** Document import *)

(** A paragraph of a document: its text and the name of its style. *)
Record Paragraph := {
  para_text : str;
  style_name : str
}.

(** An annotation record [{'Citation': c, 'Metadata': m,
    'Annotation_Text': a}]. *)
Definition annotation_record (c m a : str) : list (key * value) :=
  [(Citation, VStr c); (Metadata, VStr m); (Annotation_Text, VStr a)].

(** [records[-1][field] = v] *)
Fixpoint set_last (records : list (list (key * value))) (field : key) (v : value)
  : list (list (key * value)) :=
  match records with
  | [] => []
  | [rec] => [dict_set rec field v]
  | rec :: rest => rec :: set_last rest field v
  end.

(** [pd.DataFrame({'Citation': [''], 'Metadata': [m],
    'Annotation_Text': ['']})] *)
Definition metadata_frame (m : str) : DataFrame :=
  {| columns := core_columns; rows := [[VStr []; VStr m; VStr []]] |}.

(** The variables of the first loop of [import_word]. *)
Record WordScan := {
  ws_passages : list str;
  ws_annotations : list (key * DataFrame);
  ws_current_passage : option str;
  ws_current_annots : list (list (key * value))
}.

(** The table stored for a passage whose annotation paragraphs have been
    collected. *)
Definition collected_frame (current_annots : list (list (key * value))) : DataFrame :=
  match current_annots with
  | [] => blank_frame
  | _ :: _ => frame_of_records current_annots
  end.

(** [annotations[len(passages)-1] = ...] *)
Definition store_collected (passages : list str) (annotations : list (key * DataFrame))
    (current_annots : list (list (key * value))) : list (key * DataFrame) :=
  dict_set annotations (KInt (Z.of_nat (length passages) - 1)) (collected_frame current_annots).

Section WordImport.
Context {U : Unicode}.

(** The digits at the head of a string, and what follows them. *)
Fixpoint span_digits (s : str) : str * str :=
  match s with
  | [] => ([], [])
  | c :: s' =>
      match decimal_value c with
      | Some _ => let '(ds, rest) := span_digits s' in (c :: ds, rest)
      | None => ([], s)
      end
  end.

(** The group of a match of [\[(\d+)\]] whose bracket has just been
    read. *)
Definition note_at (s : str) : option str :=
  let '(ds, rest) := span_digits s in
  if truthy ds && startswith rest [93] then Some ds else None.

(** [re.findall(r'\[(\d+)\]', s)].  A match holds one opening bracket,
    at its start, so no match starts inside another one and trying
    every position finds the non-overlapping matches. *)
Fixpoint findall_notes (s : str) : list str :=
  match s with
  | [] => []
  | c :: s' =>
      (if c =? 91
       then match note_at s' with Some ds => [ds] | None => [] end
       else [])
      ++ findall_notes s'
  end.

(** One turn of the first loop of [import_word]. *)
Definition word_step (ws : WordScan) (para : Paragraph) : WordScan :=
  let text := strip (para_text para) in
  if negb (truthy text) then ws
  else if negb (startswith (style_name para) (lit "List")) then
    {| ws_passages := ws_passages ws ++ [text];
       ws_annotations :=
         match ws_current_passage ws with
         | Some _ => store_collected (ws_passages ws) (ws_annotations ws)
                       (ws_current_annots ws)
         | None => ws_annotations ws
         end;
       ws_current_passage := Some text;
       ws_current_annots :=
         match ws_current_passage ws with
         | Some _ => []
         | None => ws_current_annots ws
         end |}
  else
    {| ws_passages := ws_passages ws;
       ws_annotations := ws_annotations ws;
       ws_current_passage := ws_current_passage ws;
       ws_current_annots :=
         if startswith text (lit "Citation:") then
           ws_current_annots ws ++
             [annotation_record (strip (drop 9%nat text)) [] []]
         else if startswith text (lit "Metadata:") then
           set_last (ws_current_annots ws) Metadata
             (VStr (strip (drop 9%nat text)))
         else if startswith text (lit "Annotation:") then
           set_last (ws_current_annots ws) Annotation_Text
             (VStr (strip (drop 11%nat text)))
         else ws_current_annots ws |}.

(** The footnote texts the fallback collects. *)
Definition footnote_metadata (doc : list Paragraph) : list str :=
  flat_map (fun para =>
    if truthy (strip (para_text para)) then
      flat_map (fun note =>
        flat_map (fun p =>
          if startswith (strip (para_text p)) (note ++ lit " ")
          then [strip (para_text p)] else [])
          doc)
        (findall_notes (para_text para))
    else [])
    doc.

(** [import_word(file)], on the paragraphs of the document. *)
Definition import_word (doc : list Paragraph) : list str * list (key * DataFrame) :=
  let ws := fold_left word_step doc
              {| ws_passages := []; ws_annotations := [];
                 ws_current_passage := None; ws_current_annots := [] |} in
  let passages := ws_passages ws in
  let annotations :=
    match ws_current_passage ws with
    | Some _ => store_collected passages (ws_annotations ws) (ws_current_annots ws)
    | None => ws_annotations ws
    end in
  match annotations with
  | [] =>
      let metadata :=
        match footnote_metadata doc with
        | [] => (fun _ => []) <$> passages
        | found => found
        end in
      (passages,
       fold_left (fun an i =>
                    dict_set an (KInt (Z.of_nat i))
                      (metadata_frame (default [] (metadata !! i))))
                 (seq 0 (length passages)) [])
  | _ :: _ => (passages, annotations)
  end.
End WordImport.

(** ** Spreadsheet import *)

(** Python's order on strings: code point by code point. *)
Fixpoint str_ltb (a b : str) : bool :=
  match a, b with
  | _, [] => false
  | [], _ :: _ => true
  | x :: a', y :: b' => (x <? y) || ((x =? y) && str_ltb a' b')
  end.

(** Insert a group key into the sorted list of the distinct keys. *)
Fixpoint insert_group_key (k : str) (ks : list str) : list str :=
  match ks with
  | [] => [k]
  | k' :: rest =>
      if str_ltb k k' then k :: ks
      else if str_ltb k' k then k' :: insert_group_key k rest
      else ks
  end.

(** A group key of [groupby]: a text, a missing value (dropped), or
    something else (not modelled). *)
Inductive group_key :=
| GText (s : str)
| GMissing
| GOther.

Definition group_key_of (v : value) : group_key :=
  match v with
  | VStr s => GText s
  | VNone => GMissing
  | VFloat r => if decide (r = lit "nan") then GMissing else GOther
  | _ => GOther
  end.

(** The distinct text keys, ascending: [groupby] sorts its groups
    ([sort=True]) and drops missing keys ([dropna=True]). *)
Fixpoint sorted_group_keys (cells : list value) : result (list str) :=
  match cells with
  | [] => Ok []
  | v :: cells' =>
      match sorted_group_keys cells', group_key_of v with
      | Ok ks, GText s => Ok (insert_group_key s ks)
      | Ok ks, GMissing => Ok ks
      | Ok _, GOther => Unmodelled
      | r, _ => r
      end
  end.

(** Does a cell hold the group key [k]? *)
Definition in_group (k : str) (v : value) : bool :=
  match group_key_of v with
  | GText s => bool_decide (s = k)
  | _ => false
  end.

(** The rows of a group, in the order of the sheet. *)
Definition group_rows (df : DataFrame) (k : str) : list (list value) :=
  List.filter (fun row => in_group k (cell (columns df) row Text)) (rows df).

(** [df.groupby('Text')] as the list of [(key, group)]. *)
Definition groupby_Text (df : DataFrame) : result (list (str * DataFrame)) :=
  match sorted_group_keys (df_column df Text) with
  | Ok ks => Ok ((fun k => (k, {| columns := columns df; rows := group_rows df k |})) <$> ks)
  | Raise e => Raise e
  | Unmodelled => Unmodelled
  end.

(** [row.get(c, '')] *)
Definition row_get (df : DataFrame) (row : list value) (c : key) : value :=
  if has_column df c then cell (columns df) row c else VStr [].

(** The variables of the loops of [import_excel]. *)
Definition excel_acc : Type := list value * list (key * DataFrame).

Definition excel_group_step (acc : result excel_acc) (item : nat * (str * DataFrame))
  : result excel_acc :=
  match acc with
  | Ok (passages, annotations) =>
      let '(i, (text, group)) := item in
      match df_select group core_columns with
      | Ok sel => Ok (passages ++ [VStr text],
                      dict_set annotations (KInt (Z.of_nat i)) sel)
      | Raise e => Raise e
      | Unmodelled => Unmodelled
      end
  | _ => acc
  end.

Definition excel_row_step (df : DataFrame) (acc : excel_acc) (item : nat * list value)
  : excel_acc :=
  let '(passages, annotations) := acc in
  let '(i, row) := item in
  (passages ++ [VStr []],
   dict_set annotations (KInt (Z.of_nat i))
     {| columns := core_columns;
        rows := [[row_get df row Citation; row_get df row Metadata;
                  row_get df row Annotation_Text]] |}).

(** [import_excel(file)], on the sheet that [pd.read_excel] returns. *)
Definition import_excel (df : DataFrame) : result excel_acc :=
  if has_column df Text then
    match groupby_Text df with
    | Ok grouped => fold_left excel_group_step (imap pair grouped) (Ok ([], []))
    | Raise e => Raise e
    | Unmodelled => Unmodelled
    end
  else
    Ok (fold_left (excel_row_step df) (imap pair (rows df)) ([], [])).

(** ** A reference JSON codec

    An implementation of the [Json] interface: the printer writes what
    [json.dumps(data, ensure_ascii=False, indent=2)] writes for strings,
    lists and dicts; the reader is a lexer (an automaton over the
    characters) followed by a recursive-descent parser.  It shows that the
    law of the interface can be met, and it reads the documents used as
    examples below. *)
Module RefJson.

(** *** Printer *)

Definition hex_digit (d : N) : N := if d <? 10 then 48 + d else 87 + d.

(** The escape of one character: quote, backslash and the control
    characters; everything else stands for itself. *)
Definition escape_char (c : N) : str :=
  if c =? 34 then [92; 34]
  else if c =? 92 then [92; 92]
  else if c =? 10 then [92; 110]
  else if c =? 13 then [92; 114]
  else if c =? 9 then [92; 116]
  else if c =? 8 then [92; 98]
  else if c =? 12 then [92; 102]
  else if c <? 32 then [92; 117; 48; 48; hex_digit (c / 16); hex_digit (c mod 16)]
  else [c].

Definition encode_string (s : str) : str :=
  34 :: flat_map escape_char s ++ [34].

(** A line break and the indentation of a nesting level. *)
Definition newline_indent (level : nat) : str :=
  10 :: replicate (2 * level) 32.

Definition float_text (repr : str) : str :=
  if decide (repr = lit "nan") then lit "NaN"
  else if decide (repr = lit "inf") then lit "Infinity"
  else if decide (repr = lit "-inf") then lit "-Infinity"
  else repr.

Fixpoint dumps_at (level : nat) (v : value) : str :=
  match v with
  | VNone => lit "null"
  | VBool true => lit "true"
  | VBool false => lit "false"
  | VInt z => str_of_Z z
  | VFloat repr => float_text repr
  | VStr s => encode_string s
  | VList [] => lit "[]"
  | VList (x :: xs) =>
      lit "[" ++ newline_indent (S level) ++ dumps_at (S level) x
      ++ flat_map (fun y => lit "," ++ newline_indent (S level)
                              ++ dumps_at (S level) y) xs
      ++ newline_indent level ++ lit "]"
  | VDict [] => lit "{}"
  | VDict ((k, x) :: members) =>
      lit "{" ++ newline_indent (S level)
      ++ encode_string (key_text k) ++ lit ": " ++ dumps_at (S level) x
      ++ flat_map (fun '(k', y) =>
                     lit "," ++ newline_indent (S level)
                     ++ encode_string (key_text k') ++ lit ": "
                     ++ dumps_at (S level) y) members
      ++ newline_indent level ++ lit "}"
  end.

Definition dumps (v : value) : str := dumps_at 0 v.

(** *** Lexer *)

Inductive token :=
| TLBrace | TRBrace | TLBracket | TRBracket | TComma | TColon
| TStr (s : str)
| TAtom (v : value).

(** Where the lexer is: between tokens, inside a string (the characters
    read so far, last first), inside an escape, inside the four hex
    digits of a [\u] escape (with a high surrogate that may be waiting
    for its partner), just after a high surrogate, or inside a number or
    a literal name. *)
Inductive mode :=
| Between
| InString (acc : str)
| InEscape (acc : str)
| InHex (acc : str) (pending : option N) (remaining : nat) (code : N)
| AfterHigh (acc : str) (high : N)
| AfterHighEscape (acc : str) (high : N)
| InWord (acc : str).

Definition is_ws (c : N) : bool :=
  (c =? 32) || (c =? 9) || (c =? 10) || (c =? 13).

Definition is_ascii_digit (c : N) : bool := (48 <=? c) && (c <=? 57).

Definition is_word_char (c : N) : bool :=
  is_ascii_digit c || ((65 <=? c) && (c <=? 90)) || ((97 <=? c) && (c <=? 122))
  || (c =? 43) || (c =? 45) || (c =? 46).

Definition hex_value (c : N) : option N :=
  if is_ascii_digit c then Some (c - 48)
  else if (97 <=? c) && (c <=? 102) then Some (c - 87)
  else if (65 <=? c) && (c <=? 70) then Some (c - 55)
  else None.

Definition simple_escape (c : N) : option N :=
  if c =? 34 then Some 34
  else if c =? 92 then Some 92
  else if c =? 47 then Some 47
  else if c =? 98 then Some 8
  else if c =? 102 then Some 12
  else if c =? 110 then Some 10
  else if c =? 114 then Some 13
  else if c =? 116 then Some 9
  else None.

Definition is_high (code : N) : bool := (55296 <=? code) && (code <=? 56319).
Definition is_low (code : N) : bool := (56320 <=? code) && (code <=? 57343).

(** The digits of a number, most significant first. *)
Fixpoint digits_value (acc : N) (ds : str) : N :=
  match ds with
  | [] => acc
  | d :: ds' => digits_value (10 * acc + (d - 48)) ds'
  end.

Fixpoint span_ascii_digits (s : str) : str * str :=
  match s with
  | [] => ([], [])
  | c :: s' =>
      if is_ascii_digit c
      then let '(ds, rest) := span_ascii_digits s' in (c :: ds, rest)
      else ([], s)
  end.

(** An exponent part, or nothing. *)
Definition exponent_ok (s : str) : bool :=
  match s with
  | [] => true
  | e :: s' =>
      let ds := match s' with
                | sign :: ds' => if (sign =? 43) || (sign =? 45) then ds' else s'
                | [] => []
                end in
      ((e =? 101) || (e =? 69)) && truthy ds && forallb is_ascii_digit ds
  end.

(** A fraction part followed by an optional exponent, or an exponent. *)
Definition fraction_exponent_ok (s : str) : bool :=
  match s with
  | [] => true
  | c :: s' =>
      if c =? 46 then
        let '(ds, rest) := span_ascii_digits s' in
        truthy ds && exponent_ok rest
      else exponent_ok s
  end.

(** A number: an [int] when it has neither fraction nor exponent. *)
Definition number (word : str) : option value :=
  let '(negative, body) :=
    match word with
    | [] => (false, word)
    | c :: body => if c =? 45 then (true, body) else (false, word)
    end in
  match span_ascii_digits body with
  | ([], _) => None
  | (d :: ds, rest) =>
      if (d =? 48) && truthy ds then None
      else
        match rest with
        | [] =>
            let n := Z.of_N (digits_value 0 (d :: ds)) in
            Some (VInt (if negative then (- n)%Z else n))
        | _ :: _ => if fraction_exponent_ok rest then Some (VFloat word) else None
        end
  end.

(** What a number or a literal name denotes. *)
Definition classify (word : str) : option value :=
  if decide (word = lit "null") then Some VNone
  else if decide (word = lit "true") then Some (VBool true)
  else if decide (word = lit "false") then Some (VBool false)
  else if decide (word = lit "NaN") then Some (VFloat (lit "nan"))
  else if decide (word = lit "Infinity") then Some (VFloat (lit "inf"))
  else if decide (word = lit "-Infinity") then Some (VFloat (lit "-inf"))
  else number word.

Definition lexer : Type := list token * mode.

Definition step_between (toks : list token) (c : N) : option lexer :=
  if is_ws c then Some (toks, Between)
  else if c =? 123 then Some (TLBrace :: toks, Between)
  else if c =? 125 then Some (TRBrace :: toks, Between)
  else if c =? 91 then Some (TLBracket :: toks, Between)
  else if c =? 93 then Some (TRBracket :: toks, Between)
  else if c =? 44 then Some (TComma :: toks, Between)
  else if c =? 58 then Some (TColon :: toks, Between)
  else if c =? 34 then Some (toks, InString [])
  else if is_word_char c then Some (toks, InWord [c])
  else None.

Definition step_string (toks : list token) (acc : str) (c : N) : option lexer :=
  if c =? 34 then Some (TStr (rev acc) :: toks, Between)
  else if c =? 92 then Some (toks, InEscape acc)
  else if c <? 32 then None
  else Some (toks, InString (c :: acc)).

Definition step_escape (toks : list token) (acc : str) (c : N) : option lexer :=
  match simple_escape c with
  | Some e => Some (toks, InString (e :: acc))
  | None => if c =? 117 then Some (toks, InHex acc None 4 0) else None
  end.

Definition after_code (acc : str) (code : N) : mode :=
  if is_high code then AfterHigh acc code else InString (code :: acc).

(** A [\u] escape has been read: pair it with a waiting high surrogate
    if it is a low one. *)
Definition finish_code (acc : str) (pending : option N) (code : N) : mode :=
  match pending with
  | Some high =>
      if is_low code
      then InString ((65536 + (high - 55296) * 1024 + (code - 56320)) :: acc)
      else after_code (high :: acc) code
  | None => after_code acc code
  end.

Definition step_hex (toks : list token) (acc : str) (pending : option N)
    (remaining : nat) (code : N) (c : N) : option lexer :=
  match hex_value c with
  | None => None
  | Some d =>
      match remaining with
      | S (S r) => Some (toks, InHex acc pending (S r) (16 * code + d))
      | _ => Some (toks, finish_code acc pending (16 * code + d))
      end
  end.

Definition step_word (toks : list token) (acc : str) (c : N) : option lexer :=
  if is_word_char c then Some (toks, InWord (c :: acc))
  else match classify (rev acc) with
       | Some v => step_between (TAtom v :: toks) c
       | None => None
       end.

Definition step (lx : lexer) (c : N) : option lexer :=
  let '(toks, m) := lx in
  match m with
  | Between => step_between toks c
  | InString acc => step_string toks acc c
  | InEscape acc => step_escape toks acc c
  | InHex acc pending remaining code => step_hex toks acc pending remaining code c
  | AfterHigh acc high =>
      if c =? 92 then Some (toks, AfterHighEscape acc high)
      else step_string toks (high :: acc) c
  | AfterHighEscape acc high =>
      if c =? 117 then Some (toks, InHex acc (Some high) 4 0)
      else step_escape toks (high :: acc) c
  | InWord acc => step_word toks acc c
  end.

(** At the end of the input. *)
Definition finish (lx : lexer) : option (list token) :=
  let '(toks, m) := lx in
  match m with
  | Between => Some (rev toks)
  | InWord acc =>
      match classify (rev acc) with
      | Some v => Some (rev (TAtom v :: toks))
      | None => None
      end
  | _ => None
  end.

(** The lexer after the characters of [s]. *)
Fixpoint steps (lx : lexer) (s : str) : option lexer :=
  match s with
  | [] => Some lx
  | c :: s' =>
      match step lx c with
      | Some lx' => steps lx' s'
      | None => None
      end
  end.

Definition lex (s : str) : option (list token) :=
  match steps ([], Between) s with
  | Some lx => finish lx
  | None => None
  end.

(** *** Parser

    [fuel] bounds the number of calls; every call that recurs has read a
    token, so one more than the number of tokens is enough. *)
Fixpoint parse_value (fuel : nat) (ts : list token) : option (value * list token) :=
  match fuel with
  | O => None
  | S fuel' =>
      match ts with
      | TStr s :: rest => Some (VStr s, rest)
      | TAtom v :: rest => Some (v, rest)
      | TLBracket :: TRBracket :: rest => Some (VList [], rest)
      | TLBracket :: rest =>
          match parse_value fuel' rest with
          | Some (x, rest') => parse_elements fuel' [x] rest'
          | None => None
          end
      | TLBrace :: TRBrace :: rest => Some (VDict [], rest)
      | TLBrace :: TStr k :: TColon :: rest =>
          match parse_value fuel' rest with
          | Some (x, rest') => parse_members fuel' [(KStr k, x)] rest'
          | None => None
          end
      | _ => None
      end
  end
with parse_elements (fuel : nat) (acc : list value) (ts : list token)
  : option (value * list token) :=
  match fuel with
  | O => None
  | S fuel' =>
      match ts with
      | TRBracket :: rest => Some (VList (rev acc), rest)
      | TComma :: rest =>
          match parse_value fuel' rest with
          | Some (x, rest') => parse_elements fuel' (x :: acc) rest'
          | None => None
          end
      | _ => None
      end
  end
with parse_members (fuel : nat) (acc : list (key * value)) (ts : list token)
  : option (value * list token) :=
  match fuel with
  | O => None
  | S fuel' =>
      match ts with
      | TRBrace :: rest => Some (VDict (dict_of (rev acc)), rest)
      | TComma :: TStr k :: TColon :: rest =>
          match parse_value fuel' rest with
          | Some (x, rest') => parse_members fuel' ((KStr k, x) :: acc) rest'
          | None => None
          end
      | _ => None
      end
  end.

Definition decode_error : str := lit "Expecting value".

(** The tokens of the document written for a value. *)
Fixpoint tokens (v : value) : list token :=
  match v with
  | VStr s => [TStr s]
  | VList [] => [TLBracket; TRBracket]
  | VList (x :: xs) =>
      TLBracket :: tokens x
      ++ flat_map (fun y => TComma :: tokens y) xs ++ [TRBracket]
  | VDict [] => [TLBrace; TRBrace]
  | VDict ((k, x) :: members) =>
      TLBrace :: TStr (key_text k) :: TColon :: tokens x
      ++ flat_map (fun '(k', y) =>
                     TComma :: TStr (key_text k') :: TColon :: tokens y) members
      ++ [TRBrace]
  | _ => [TAtom v]
  end.

Definition loads (s : str) : str + value :=
  match lex s with
  | None => inl decode_error
  | Some ts =>
      match parse_value (S (length ts)) ts with
      | Some (v, []) => inr v
      | _ => inl decode_error
      end
  end.

(** What the lexer makes of a written value. *)
Definition lexes (v : value) : Prop :=
  textual v = true ->
  forall level toks,
    steps (toks, Between) (dumps_at level v)
    = Some (rev (tokens v) ++ toks, Between).

(** What the parser makes of the tokens of a value. *)
Definition parses (v : value) : Prop :=
  textual v = true ->
  forall fuel rest,
    (length (tokens v) < fuel)%nat ->
    parse_value fuel (tokens v ++ rest) = Some (json_image v, rest).

End RefJson.

#[export] Instance ref_json : Json := {|
  json_dumps := RefJson.dumps;
  json_loads := RefJson.loads
|}.

(** ** Adding passages and annotations *)

(** The text a new passage starts with. *)
Definition new_passage_text : str := lit "Neuer Textabsatz...".

(** [add_text_passage()] *)
Definition add_text_passage : py unit :=
  modify (fun st => set_text_passages
                      (text_passages st ++ [VStr new_passage_text]) st) ;;;
  st <~ get_state ;;
  let new_index := (Z.of_nat (length (text_passages st)) - 1)%Z in
  modify (fun st => set_annotations
                      (dict_set (annotations st) (KInt new_index) blank_frame) st).

(** Cells whose type pandas may change when a column is widened: an
    integer (or boolean) column that meets a float or a missing value
    becomes a float column. *)
Definition is_number (v : value) : bool :=
  match v with VInt _ | VBool _ => true | _ => false end.

Definition is_float (v : value) : bool :=
  match v with VFloat _ => true | _ => false end.

Definition holds_number (df : DataFrame) (c : key) : bool :=
  existsb is_number (df_column df c).

Definition holds_float (df : DataFrame) (c : key) : bool :=
  existsb is_float (df_column df c).

(** Would the numbers of [a] under [c] meet a float or a missing value
    of [b]? *)
Definition upcast (a b : DataFrame) (c : key) : bool :=
  holds_number a c && (negb (has_column b c) || holds_float b c).

(** [pd.concat([a, b], ignore_index=True)]: the rows of [a], then those
    of [b], under the union of the labels in first-seen order; a cell
    that has no value is [NaN].  Labels that occur twice and columns
    whose numbers would be converted are not modelled. *)
Definition pd_concat (a b : DataFrame) : result DataFrame :=
  let cols := fold_left add_label (columns b) (columns a) in
  if bool_decide (NoDup (columns a)) && bool_decide (NoDup (columns b))
     && negb (existsb (fun c => upcast a b c || upcast b a c) cols)
  then Ok {| columns := cols;
             rows := rows (df_project a cols) ++ rows (df_project b cols) |}
  else Unmodelled.

(** [add_annotation_row(passage_index)] *)
Definition add_annotation_row (passage_index : key) : py unit :=
  let new_row := blank_frame in
  st <~ get_state ;;
  match dict_get (annotations st) passage_index with
  | None => lift (Raise KeyError)
  | Some df =>
      df' <~ lift (pd_concat df new_row) ;;
      modify (fun st => set_annotations
                          (dict_set (annotations st) passage_index df') st)
  end.

(** ** The derived column *)

(** The two texts of the column: a check mark (U+2705) or a cross
    (U+274C), then the word. *)
Definition found_yes : str := 9989 :: lit " Yes".
Definition found_no : str := 10060 :: lit " No".

(** Truth value of an object ([if v:]): [None], [False], zero and the
    empty string, list and dict are false.  A float is zero when its
    [repr] is [0.0] or [-0.0]. *)
Definition value_truthy (v : value) : bool :=
  match v with
  | VNone => false
  | VBool b => b
  | VInt z => negb (z =? 0)%Z
  | VFloat r => negb (bool_decide (r = lit "0.0") || bool_decide (r = lit "-0.0"))
  | VStr s => truthy s
  | VList items => match items with [] => false | _ :: _ => true end
  | VDict items => match items with [] => false | _ :: _ => true end
  end.

(** [check_citation_in_text(citation, text)] on the objects a table cell
    and the passage list can hold: [.lower()] exists on strings only. *)
Definition check_citation_in_text_value {U : Unicode} (citation text : value)
  : result bool :=
  if negb (value_truthy citation) || negb (value_truthy text) then Ok false
  else match citation, text with
       | VStr c, VStr t => Ok (contains (str_lower c) (str_lower t))
       | _, _ => Raise AttributeError
       end.

(** [series.apply(f)]: the first call that raises ends the loop. *)
Fixpoint series_apply {A B} (f : A -> result B) (l : list A) : result (list B) :=
  match l with
  | [] => Ok []
  | x :: l' =>
      match f x with
      | Ok y =>
          match series_apply f l' with
          | Ok ys => Ok (y :: ys)
          | Raise e => Raise e
          | Unmodelled => Unmodelled
          end
      | Raise e => Raise e
      | Unmodelled => Unmodelled
      end
  end.

(** [df[c] = cells]: a present column is overwritten where it stands, a
    new one is added on the right. *)
Definition df_assign (df : DataFrame) (c : key) (cells : list value) : DataFrame :=
  let cols := columns df in
  match column_index cols c with
  | Some i =>
      {| columns := cols;
         rows := zip_with (fun row v => <[i := v]> (cell cols row <$> cols))
                   (rows df) cells |}
  | None =>
      {| columns := cols ++ [c];
         rows := zip_with (fun row v => (cell cols row <$> cols) ++ [v])
                   (rows df) cells |}
  end.

(** The body of the [lambda] of [add_found_in_text_column]. *)
Definition found_mark {U : Unicode} (passage_text citation : value) : result value :=
  match check_citation_in_text_value citation passage_text with
  | Ok found => Ok (VStr (if found then found_yes else found_no))
  | Raise e => Raise e
  | Unmodelled => Unmodelled
  end.

(** [add_found_in_text_column(annotations_df, passage_text)].  With a
    label that occurs twice [annotations_df['Citation']] can be a table
    instead of a column: not modelled. *)
Definition add_found_in_text_column {U : Unicode}
    (annotations_df : DataFrame) (passage_text : value) : result DataFrame :=
  if negb (bool_decide (NoDup (columns annotations_df))) then Unmodelled
  else if negb (has_column annotations_df Citation) then Raise KeyError
  else
    match series_apply (found_mark passage_text)
            (df_column annotations_df Citation) with
    | Ok cells => Ok (df_assign annotations_df Found_in_Text cells)
    | Raise e => Raise e
    | Unmodelled => Unmodelled
    end.

(** ** The page of a passage

    The statements of [main] that read and write the corpus while a
    passage and its table are drawn. *)

Section Page.
Context {U : Unicode}.

(** The test [c and str(c).strip()] of the citation filter.  The [str]
    of a number, of [True] or of a non-empty list or dict always has a
    character that is no white space. *)
Definition kept_citation (c : value) : bool :=
  value_truthy c
  && match c with
     | VStr s => truthy (strip s)
     | _ => true
     end.

(** [citations = [c for c in annotations[passage_index].get('Citation', [])
    if c and str(c).strip()]], or [[]] when the passage has no table. *)
Definition passage_citations (annots : option DataFrame) : result (list value) :=
  match annots with
  | None => Ok []
  | Some df =>
      if negb (bool_decide (NoDup (columns df))) then Unmodelled
      else if has_column df Citation
           then Ok (List.filter kept_citation (df_column df Citation))
           else Ok []
  end.

(** The strings of a list of citations, if they all are strings. *)
Fixpoint as_texts (citations : list value) : option (list str) :=
  match citations with
  | [] => Some []
  | VStr s :: citations' => (s ::.) <$> as_texts citations'
  | _ :: _ => None
  end.

(** [highlighted_text_passage = highlight_citations(passage_text,
    citations)].  Every citation that passed the filter is true; one
    that is no string makes [len] (numbers, booleans) or [in] (lists,
    dicts) raise [TypeError]. *)
Definition highlighted_text_passage (passage_text : str) (annots : option DataFrame)
  : result str :=
  match passage_citations annots with
  | Ok citations =>
      match as_texts citations with
      | Some cs => Ok (highlight_citations passage_text cs)
      | None => Raise TypeError
      end
  | Raise e => Raise e
  | Unmodelled => Unmodelled
  end.

(** [if passage_index not in annotations: annotations[passage_index] =
    pd.DataFrame({... one blank row ...})] *)
Definition ensure_annotations (passage_index : key) : py unit :=
  st <~ get_state ;;
  if dict_mem (annotations st) passage_index then ret tt
  else modify (fun st => set_annotations
                           (dict_set (annotations st) passage_index blank_frame) st).

(** [if all(col in edited_annotations.columns for col in core_columns):
    annotations[passage_index] = edited_annotations[core_columns].copy()],
    on the table the editor hands back. *)
Definition store_edited (passage_index : key) (edited_annotations : DataFrame)
  : py unit :=
  if forallb (has_column edited_annotations) core_columns then
    if bool_decide (NoDup (columns edited_annotations)) then
      modify (fun st => set_annotations
                          (dict_set (annotations st) passage_index
                             (df_project edited_annotations core_columns)) st)
    else lift Unmodelled
  else ret tt.

(** [found_count = sum(1 for citation in df['Citation']
    if check_citation_in_text(citation, text))] *)
Definition found_count (df : DataFrame) (text : value) : result nat :=
  if negb (bool_decide (NoDup (columns df))) then Unmodelled
  else if negb (has_column df Citation) then Raise KeyError
  else
    match series_apply (fun citation => check_citation_in_text_value citation text)
            (df_column df Citation) with
    | Ok found => Ok (length (List.filter id found))
    | Raise e => Raise e
    | Unmodelled => Unmodelled
    end.
End Page.

(** ** Highlighting for the document export *)

(** The opening tag of the export marker. *)
Definition span_open : str :=
  lit "<span style=" ++ dquote ++ lit "color:green" ++ dquote ++ lit ">".

Definition span_close : str := lit "</span>".

(** The f-string that wraps a citation for the export. *)
Definition green_span (citation : str) : str :=
  span_open ++ citation ++ span_close.

(** One turn of the loop of [highlight_citations_for_export]. *)
Definition export_highlight_step (highlighted citation : str) : str :=
  if truthy citation && contains citation highlighted
  then str_replace highlighted citation (green_span citation)
  else highlighted.

(** [highlight_citations_for_export(text, citations)] *)
Definition highlight_citations_for_export (text : str) (citations : list str) : str :=
  fold_left export_highlight_step (sorted_by_len_desc citations) text.

(** ** Marking for the spreadsheet export *)

(** One turn of the marking loop of [export_excel]: the citation goes
    between two pairs of asterisks. *)
Definition bold_step (highlighted_passage citation : str) : str :=
  if truthy citation && contains citation highlighted_passage
  then str_replace highlighted_passage citation
         (lit "**" ++ citation ++ lit "**")
  else highlighted_passage.

(** The marking loop of [export_excel], from [highlighted_passage =
    passage] to the end of the [for]. *)
Definition export_excel_highlight (passage : str) (citations : list str) : str :=
  fold_left bold_step (sorted_by_len_desc citations) passage.

(** ** Loading an import into the session *)

(** The branch of [main] for a document: [passages, annotations =
    import_word(uploaded_file)] and the two assignments to the session
    state. *)
Definition load_word {U : Unicode} (doc : list Paragraph) : py unit :=
  let '(passages, annotations) := import_word doc in
  modify (set_text_passages (VStr <$> passages)) ;;;
  modify (set_annotations annotations).

(** The branch of [main] for a spreadsheet. *)
Definition load_excel (df : DataFrame) : py unit :=
  match import_excel df with
  | Ok (passages, annotations) =>
      modify (set_text_passages passages) ;;;
      modify (set_annotations annotations)
  | Raise e => lift (Raise e)
  | Unmodelled => lift Unmodelled
  end.

(** ** Document export

    [export_word] builds a document paragraph by paragraph; the model
    returns the paragraphs it has added, each with its runs and the name
    of its style (what [doc.save] then writes). *)

Record Run := {
  run_text : str;
  run_green : bool
}.

Record DocParagraph := {
  doc_runs : list Run;
  doc_style : str
}.

(** The text and the style name of a paragraph, as [import_word] reads
    them from the saved document: the text is that of the runs, one
    after the other. *)
Definition read_paragraph (p : DocParagraph) : Paragraph :=
  {| para_text := concat (run_text <$> doc_runs p);
     style_name := doc_style p |}.

(** The characters a run keeps as they are.  The library turns a
    carriage return into a line break and refuses or changes the other
    control characters and the code points that XML does not allow;
    texts with those are not modelled. *)
Definition docx_char (c : N) : bool :=
  ((32 <=? c) || (c =? 9) || (c =? 10))
  && negb ((55296 <=? c) && (c <=? 57343))
  && negb (c =? 65534) && negb (c =? 65535).

Definition docx_safe (s : str) : bool := forallb docx_char s.

(** The group [(.*?)] of a match of
    [<span style="color:green">(.*?)</span>] whose opening tag has just
    been read: the characters up to the first closing tag, none of them
    a newline. *)
Fixpoint span_group (s : str) : option str :=
  if startswith s span_close then Some []
  else match s with
       | [] => None
       | c :: s' => if c =? 10 then None else (c ::.) <$> span_group s'
       end.

(** [p.add_run(text)] for the text between two matches, if there is
    any. *)
Definition plain_run (text : str) : list Run :=
  if truthy text then [{| run_text := text; run_green := false |}] else [].

(** The runs of the loop over [re.finditer]: [plain] is the text since
    the end of the last match, [skip] counts the characters of a match
    that are still to be jumped over. *)
Fixpoint export_runs (skip : nat) (plain : str) (s : str) : list Run :=
  match s with
  | [] => plain_run plain
  | c :: s' =>
      match skip with
      | S k => export_runs k plain s'
      | O =>
          match (if startswith s span_open
                 then span_group (drop (length span_open) s) else None) with
          | Some group =>
              plain_run plain
              ++ {| run_text := group; run_green := true |}
                 :: export_runs
                      (Nat.pred (length span_open + length group + length span_close))
                      [] s'
          | None => export_runs O (plain ++ [c]) s'
          end
      end
  end.

(** [str(v)] inside the f-strings of the bullets.  A row that
    [iterrows] hands out has one type for all its cells, which can turn
    integers and booleans into floats; lists and dicts print their
    [repr]: none of these is modelled. *)
Definition bullet_str (v : value) : result str :=
  match v with
  | VStr s => Ok s
  | VNone => Ok (lit "None")
  | VFloat r => Ok r
  | VBool _ | VInt _ | VList _ | VDict _ => Unmodelled
  end.

(** [doc.add_paragraph(f"  {label}: {v}", style='List Bullet')] *)
Definition bullet (label : str) (v : value) : result DocParagraph :=
  match bullet_str v with
  | Ok s =>
      let text := lit "  " ++ label ++ lit ": " ++ s in
      if docx_safe text
      then Ok {| doc_runs := plain_run text; doc_style := lit "List Bullet" |}
      else Unmodelled
  | Raise e => Raise e
  | Unmodelled => Unmodelled
  end.

(** The three bullets of a row. *)
Definition row_bullets (annots : DataFrame) (row : list value)
  : result (list DocParagraph) :=
  match bullet (lit "Citation") (row_get annots row Citation),
        bullet (lit "Metadata") (row_get annots row Metadata),
        bullet (lit "Annotation") (row_get annots row Annotation_Text) with
  | Ok c, Ok m, Ok a => Ok [c; m; a]
  | Raise e, _, _ => Raise e
  | Ok _, Raise e, _ => Raise e
  | Ok _, Ok _, Raise e => Raise e
  | _, _, _ => Unmodelled
  end.

(** All the paragraphs of a list of results, or the first failure. *)
Fixpoint all_paragraphs (rs : list (result (list DocParagraph)))
  : result (list DocParagraph) :=
  match rs with
  | [] => Ok []
  | r :: rs' =>
      match r with
      | Ok ps =>
          match all_paragraphs rs' with
          | Ok qs => Ok (ps ++ qs)
          | Raise e => Raise e
          | Unmodelled => Unmodelled
          end
      | Raise e => Raise e
      | Unmodelled => Unmodelled
      end
  end.

Section WordExport.
Context {U : Unicode}.

(** The body of the loop of [export_word] for one passage: the
    paragraph of the passage with its citations as green runs, a bullet
    paragraph for each field of each annotation, and an empty
    paragraph.  A passage that is no string makes [in] or [re.finditer]
    raise [TypeError] (a list or a dict is not modelled). *)
Definition export_word_passage (passage : value) (annots : DataFrame)
  : result (list DocParagraph) :=
  match passage_citations (Some annots) with
  | Ok citations =>
      match as_texts citations with
      | None => Raise TypeError
      | Some cs =>
          match passage with
          | VStr text =>
              let highlighted_passage := highlight_citations_for_export text cs in
              if docx_safe highlighted_passage then
                match all_paragraphs (row_bullets annots <$> rows annots) with
                | Ok bullets =>
                    Ok ({| doc_runs := export_runs O [] highlighted_passage;
                           doc_style := lit "Normal" |}
                        :: bullets
                        ++ [{| doc_runs := []; doc_style := lit "Normal" |}])
                | Raise e => Raise e
                | Unmodelled => Unmodelled
                end
              else Unmodelled
          | VList _ | VDict _ => Unmodelled
          | VNone | VBool _ | VInt _ | VFloat _ => Raise TypeError
          end
      end
  | Raise e => Raise e
  | Unmodelled => Unmodelled
  end.

(** [export_word(passages, annotations)]: the paragraphs of the
    document. *)
Definition export_word (passages : list value) (annotations : list (key * DataFrame))
  : result (list DocParagraph) :=
  all_paragraphs
    (imap (fun i passage =>
             export_word_passage passage
               (default empty_frame (dict_get annotations (KInt (Z.of_nat i)))))
       passages).
End WordExport.

(** ** Example data *)

(** Three passages, each with one annotation. *)
Definition three_passages : State :=
  {| text_passages := [VStr (lit "A"); VStr (lit "B"); VStr (lit "C")];
     annotations := [ (KInt 0, metadata_frame (lit "a"));
                      (KInt 1, metadata_frame (lit "b"));
                      (KInt 2, metadata_frame (lit "c")) ];
     errors := [] |}.

(** The corpus of the specification's scenario: the citation "Fuchs" on
    the first of two passages, none on the second. *)
Definition fuchs_corpus : State :=
  {| text_passages := [VStr (lit "Der Fuchs springt."); VStr (lit "Der Hund schl" ++ [228] ++ lit "ft.")];
     annotations := [ (KInt 0, {| columns := core_columns;
                                  rows := [[VStr (lit "Fuchs"); VStr []; VStr []]] |});
                      (KInt 1, {| columns := core_columns; rows := [] |}) ];
     errors := [] |}.

Definition empty_state : State :=
  {| text_passages := []; annotations := []; errors := [] |}.

(** A document with a footnote marker and its footnote, no bullets. *)
Definition footnote_doc : list Paragraph :=
  [ {| para_text := lit "See [1]"; style_name := lit "Normal" |};
    {| para_text := lit "1 Footnote text"; style_name := lit "Normal" |} ].

(** A sheet whose first row belongs to passage "b", the second to "a". *)
Definition sheet_b_a : DataFrame :=
  {| columns := Text :: core_columns;
     rows := [ [VStr (lit "b"); VStr (lit "c1"); VStr []; VStr []];
               [VStr (lit "a"); VStr (lit "c2"); VStr []; VStr []];
               [VStr (lit "b"); VStr (lit "c3"); VStr []; VStr []] ] |}.

(** A well-formed JSON document of the wrong shape:
    [{"text_passages": ["x"], "annotations": 5}]. *)
Definition wrong_shape_json : str :=
  lit "{" ++ dquote ++ lit "text_passages" ++ dquote ++ lit ": ["
  ++ dquote ++ lit "x" ++ dquote ++ lit "], "
  ++ dquote ++ lit "annotations" ++ dquote ++ lit ": 5}".

(** Not JSON at all. *)
Definition malformed_json : str := lit "{not json".

(** ** Auxiliary definitions for the properties *)

Abbreviation str_lt := (fun a b : str => str_ltb a b = true).

Abbreviation is_digit_char := (fun c : N => 48 <= c <= 57).

(** The reading of C1: only the leftmost occurrence is wrapped. *)
Definition marks_first_occurrence_only (text c : str) : Prop :=
  highlight_citations text [c] = str_replace_first text c (mark c).

(** The reading of C2: the long citation ends up as one marked span with
    nothing marked inside it. *)
Definition marked_as_one_span (text long out : str) : Prop :=
  out = str_replace text long (mark long).

(** The table a position gets when the passage at [index] has gone. *)
Definition reindexed (index : Z) (old : list (key * DataFrame)) (i : Z) : DataFrame :=
  default blank_frame
    (dict_get old (KInt (if (i <? index)%Z then i else (i + 1)%Z))).

(** The annotations after [remove_text_passage index]. *)
Definition annotations_without (index : Z) (st : State) (passages : nat)
  : list (key * DataFrame) :=
  fold_left
    (reindex_step index
       (if dict_mem (annotations st) (KInt index)
        then dict_del (annotations st) (KInt index) else annotations st))
    (seqZ 0 (Z.of_nat passages)) [].

(** The table stored for the group of a text. *)
Definition group_table (df : DataFrame) (text : str) : DataFrame :=
  df_project {| columns := columns df; rows := group_rows df text |} core_columns.

(** The reading of C8: passages in the order in which their texts first
    appear in the sheet. *)
Fixpoint first_seen_texts (seen : list str) (cells : list value) : list str :=
  match cells with
  | [] => []
  | v :: cells' =>
      match group_key_of v with
      | GText s =>
          if bool_decide (s ∈ seen) then first_seen_texts seen cells'
          else s :: first_seen_texts (s :: seen) cells'
      | _ => first_seen_texts seen cells'
      end
  end.

Definition imports_in_first_seen_order (df : DataFrame) : Prop :=
  exists annotations,
    import_excel df
    = Ok (VStr <$> first_seen_texts [] (df_column df Text), annotations).

(** The corpora of the data model: passages are texts, the annotation
    tables are keyed by integers (each key once), and every table has
    exactly the three core columns with a text in every cell. *)
Definition is_text (v : value) : bool :=
  match v with VStr _ => true | _ => false end.

Definition is_int_key (k : key) : bool :=
  match k with KInt _ => true | KStr _ => false end.

Definition is_text_table (df : DataFrame) : bool :=
  bool_decide (columns df = core_columns)
  && forallb (fun row => (length row =? 3)%nat && forallb is_text row) (rows df).

Definition text_corpus (st : State) : bool :=
  forallb is_text (text_passages st)
  && bool_decide (NoDup (annotations st).*1)
  && forallb (fun '(k, df) => is_int_key k && is_text_table df) (annotations st).

(** Does a dict inside [v] have the key [k]? *)
Fixpoint has_key (k : key) (v : value) : bool :=
  match v with
  | VList items => existsb (has_key k) items
  | VDict items => existsb (fun '(k', x) => bool_decide (k' = k) || has_key k x) items
  | _ => false
  end.

(** An annotation as a row and as a record. *)
Definition row_of (t : str * str * str) : list value :=
  let '(c, m, a) := t in [VStr c; VStr m; VStr a].

Definition record_of_triple (t : str * str * str) : list (key * value) :=
  let '(c, m, a) := t in annotation_record c m a.

(** The table of a list of annotations, what is written for it and what
    is read back. *)
Definition table_of (triples : list (str * str * str)) : DataFrame :=
  {| columns := core_columns; rows := row_of <$> triples |}.

Definition records_value (triples : list (str * str * str)) : value :=
  VList ((fun t => VDict (record_of_triple t)) <$> triples).

Definition reloaded (triples : list (str * str * str)) : DataFrame :=
  frame_of_records (record_of_triple <$> triples).

(** The members of the ["annotations"] object of the document read back. *)
Definition json_items (d0 : list (key * list (str * str * str))) : list (key * value) :=
  (fun kt => (KStr (key_text kt.1), records_value kt.2)) <$> d0.

(** The reading of C4: an import that does not succeed reports a decode
    error, returns [False] and leaves the corpus alone. *)
Definition failure_leaves_corpus {U : Unicode} {J : Json}
    (json_str : str) (st : State) : Prop :=
  forall r st',
    load_data json_str st = (r, st') ->
    r <> Ok true ->
    r = Ok false
    /\ errors st' <> errors st
    /\ text_passages st' = text_passages st
    /\ annotations st' = annotations st.

(** Before the first passage paragraph nothing has been stored. *)
Definition word_scan_inv (ws : WordScan) : Prop :=
  match ws_current_passage ws with
  | None => ws_passages ws = [] /\ ws_annotations ws = []
  | Some _ => ws_passages ws <> []
  end.

(** The annotation tables are keyed by the positions of the passages,
    in their order. *)
Definition aligned (st : State) : Prop :=
  (annotations st).*1 = KInt <$> seqZ 0 (Z.of_nat (length (text_passages st))).

(** A table with distinct labels whose numbers, if it has any, stand
    under the core columns: the tables [add_annotation_row] is modelled
    on. *)
Definition plain_table (df : DataFrame) : bool :=
  bool_decide (NoDup (columns df))
  && forallb (fun c => bool_decide (c ∈ core_columns) || negb (holds_number df c))
       (columns df).

(** Every row has a cell for every label. *)
Definition rectangular (df : DataFrame) : bool :=
  forallb (fun row => (length row =? length (columns df))%nat) (rows df).

(** The blank annotation. *)
Definition blank_row : list value := [VStr []; VStr []; VStr []].

(** The edits of the corpus that the page offers. *)
Inductive edit :=
| AddPassage
| RemovePassage (index : Z)
| AddAnnotation (passage_index : Z)
| RemoveAnnotation (passage_index row_index : Z).

Definition run_edit (e : edit) : py unit :=
  match e with
  | AddPassage => add_text_passage
  | RemovePassage index => remove_text_passage index
  | AddAnnotation passage_index => add_annotation_row (KInt passage_index)
  | RemoveAnnotation passage_index row_index =>
      remove_annotation_row (KInt passage_index) row_index
  end.

(** The corpus after a series of edits.  An edit that raises leaves the
    corpus as it was when it raised and the next edit goes on from
    there; [None] if an edit is not modelled. *)
Fixpoint run_edits (es : list edit) (st : State) : option State :=
  match es with
  | [] => Some st
  | e :: es' =>
      match run_edit e st with
      | (Unmodelled, _) => None
      | (_, st') => run_edits es' st'
      end
  end.

(** What the edits keep: the tables are aligned with the passages and
    every table is plain. *)
Definition editable (st : State) : Prop :=
  aligned st /\ Forall (fun kd => plain_table kd.2 = true) (annotations st).

(** The number of rows that the derived column marks as found. *)
Definition says_found (v : value) : bool :=
  match v with
  | VStr s => bool_decide (s = found_yes)
  | _ => false
  end.

Definition marked_found (df : DataFrame) : nat :=
  length (List.filter says_found (df_column df Found_in_Text)).

(** The text of the derived column for a citation. *)
Definition found_text {U : Unicode} (text citation : str) : value :=
  VStr (if check_citation_in_text citation text then found_yes else found_no).

(** The loop that the three renderers share, for any wrapper of a
    citation. *)
Definition highlight_with (wrap : str -> str) (text : str) (citations : list str)
  : str :=
  fold_left (fun highlighted citation =>
               if truthy citation && contains citation highlighted
               then str_replace highlighted citation (wrap citation)
               else highlighted)
    (sorted_by_len_desc citations) text.

(** Not shorter than: the order [sorted(key=len, reverse=True)] leaves
    the citations in. *)
Definition not_shorter (a b : str) : Prop := len b <= len a.

(** No two different citations have the same length. *)
Definition lengths_tell_apart (citations : list str) : Prop :=
  forall a b, a ∈ citations -> b ∈ citations -> length a = length b -> a = b.


(** A record as the first loop of [import_word] builds them. *)
Definition is_annotation_record (rec : list (key * value)) : Prop :=
  exists c m a, rec = annotation_record c m a.

(** A table of the data model that has an annotation. *)
Definition filled_text_table (kd : key * DataFrame) : Prop :=
  is_text_table kd.2 = true /\ rows kd.2 <> [].

(** What the first loop of [import_word] keeps: the collected records
    are annotation records, the passages are not empty, and the tables
    stored so far are filled tables of the data model, one for each
    passage but the current one, keyed by position. *)
Definition word_scan_ok (ws : WordScan) : Prop :=
  Forall is_annotation_record (ws_current_annots ws)
  /\ Forall filled_text_table (ws_annotations ws)
  /\ Forall (fun p : str => p <> []) (ws_passages ws)
  /\ match ws_current_passage ws with
     | None => ws_passages ws = [] /\ ws_annotations ws = []
     | Some _ =>
         ws_passages ws <> []
         /\ (ws_annotations ws).*1
            = KInt <$> seqZ 0 (Z.of_nat (length (ws_passages ws)) - 1)
     end.



(** *** The document round trip *)

(** A text in which some stretches have been wrapped for the export:
    [Marked G p h] when [h] is [p] with tags around some of its
    stretches, each of them one of [G], free of [<] and of newlines,
    and no [<] elsewhere. *)
Inductive Marked (G : str -> Prop) : str -> str -> Prop :=
| marked_nil : Marked G [] []
| marked_char c p h :
    c <> 60 -> Marked G p h -> Marked G (c :: p) (c :: h)
| marked_span g p h :
    G g -> Forall (fun x => x <> 60 /\ x <> 10) g -> Marked G p h ->
    Marked G (g ++ p) (green_span g ++ h).

(** The two tags between their angle brackets. *)
Definition span_open_inner : str :=
  lit "span style=" ++ dquote ++ lit "color:green" ++ dquote.

Definition span_close_inner : str := lit "/span".

(** A citation that the run splitter of [export_word] finds again: no
    angle bracket, no newline, and not a part of the tags. *)
Definition taggable (c : str) : Prop :=
  Forall (fun x => x <> 60 /\ x <> 62 /\ x <> 10) c
  /\ contains c span_open = false
  /\ contains c span_close = false.

(** No citation is a part of another one (or the same one again). *)
Fixpoint apart (citations : list str) : Prop :=
  match citations with
  | [] => True
  | c :: rest =>
      Forall (fun d => contains c d = false /\ contains d c = false) rest
      /\ apart rest
  end.

(** What the round trip uses of the white space table. *)
Record WordLaws (U : Unicode) : Prop := {
  space_is_space : isspace 32 = true;
  colon_no_space : isspace 58 = false;
  letter_C_no_space : isspace 67 = false;
  letter_M_no_space : isspace 77 = false;
  letter_A_no_space : isspace 65 = false
}.

(** A text that comes back from a document as it went in: nothing to
    strip, and only characters a run keeps. *)
Definition clean {U : Unicode} (s : str) : Prop :=
  strip s = s /\ docx_safe s = true.

Definition clean_passage {U : Unicode} (p : str) : Prop :=
  p <> [] /\ clean p /\ Forall (fun x => x <> 60) p.

Definition clean_annotation {U : Unicode} (t : str * str * str) : Prop :=
  clean t.1.1 /\ clean t.1.2 /\ clean t.2.

(** The citations of a table that are not blank. *)
Definition kept_citations {U : Unicode} (triples : list (str * str * str)) : list str :=
  List.filter (fun c => truthy (strip c)) ((fun t => t.1.1) <$> triples).

Definition clean_table {U : Unicode} (triples : list (str * str * str)) : Prop :=
  Forall clean_annotation triples
  /\ Forall taggable (kept_citations triples)
  /\ apart (kept_citations triples).

(** The paragraphs of a passage and its annotations, as they are read
    from the exported document. *)
Definition bullet_paragraph (label s : str) : Paragraph :=
  {| para_text := lit "  " ++ label ++ lit ": " ++ s;
     style_name := lit "List Bullet" |}.

Definition annotation_paragraphs (t : str * str * str) : list Paragraph :=
  [ bullet_paragraph (lit "Citation") t.1.1;
    bullet_paragraph (lit "Metadata") t.1.2;
    bullet_paragraph (lit "Annotation") t.2 ].

Definition passage_block (p : str) (triples : list (str * str * str)) : list Paragraph :=
  {| para_text := p; style_name := lit "Normal" |}
  :: flat_map annotation_paragraphs triples
  ++ [{| para_text := []; style_name := lit "Normal" |}].

(** The state of the first loop of [import_word] after the blocks of
    the passages [texts], the last of them [p] with the annotations
    [triples]. *)
Definition scanned (texts : list str) (tables : list (list (str * str * str)))
    (p : str) (triples : list (str * str * str)) : WordScan :=
  {| ws_passages := texts ++ [p];
     ws_annotations :=
       imap (fun i ts => (KInt (Z.of_nat i),
                          collected_frame (record_of_triple <$> ts))) tables;
     ws_current_passage := Some p;
     ws_current_annots := record_of_triple <$> triples |}.

(** What stands behind the colon of a bullet once its text has been
    stripped. *)
Definition behind_colon (s : str) : str :=
  match s with [] => [] | _ :: _ => 32 :: s end.

(** The table a passage comes back with from a document: its own if it
    has an annotation, else the table of one blank annotation. *)
Definition read_back (triples : list (str * str * str)) : DataFrame :=
  match triples with
  | [] => blank_frame
  | _ :: _ => table_of triples
  end.

(** Two passages, the first with two annotations (one of them without
    a citation), the second with none. *)
Definition study_texts : list str :=
  [lit "Habe nun, ach! Philosophie, Juristerei und Medizin studiert.";
   lit "Da steh ich nun, ich armer Tor!"].

Definition study_tables : list (list (str * str * str)) :=
  [[(lit "Philosophie", lit "Goethe 1808", lit "Faust I, Nacht");
    ([], lit "ohne Zitat", [])];
   []].

(** * Properties *)

(** ** Strings *)

Lemma truthy_true (s : str) : truthy s = true <-> s <> [].
Proof. destruct s; simpl; split; intros; congruence. Qed.

Lemma truthy_false (s : str) : truthy s = false <-> s = [].
Proof. destruct s; simpl; split; intros; congruence. Qed.

Lemma startswith_nil_r (s : str) : startswith s [] = true.
Proof. by destruct s. Qed.

Lemma startswith_app (p r : str) : startswith (p ++ r) p = true.
Proof.
  induction p as [|x p IH]; simpl; [apply startswith_nil_r|].
  rewrite N.eqb_refl. exact IH.
Qed.

Lemma startswith_spec (s p : str) :
  startswith s p = true <-> exists r, s = p ++ r.
Proof.
  split.
  - revert s. induction p as [|x p IH]; intros s H.
    + by exists s.
    + destruct s as [|y s]; simpl in H; [done|].
      apply andb_prop in H as [Hxy Hrest].
      apply N.eqb_eq in Hxy. subst y.
      destruct (IH _ Hrest) as [r ->]. by exists r.
  - intros [r ->]. apply startswith_app.
Qed.

Lemma contains_spec (p s : str) :
  contains p s = true <-> exists a b, s = a ++ p ++ b.
Proof.
  split.
  - induction s as [|c s IH]; cbn [contains]; intros H.
    + rewrite orb_false_r in H. apply startswith_spec in H as [r Hr].
      by exists [], r.
    + apply orb_prop in H as [H|H].
      * apply startswith_spec in H as [r Hr]. by exists [], r.
      * destruct (IH H) as (a & b & ->). by exists (c :: a), b.
  - intros (a & b & ->). induction a as [|c a IH].
    + cbn [app]. destruct (p ++ b) eqn:E; cbn [contains]; rewrite <- E;
        by rewrite startswith_app.
    + cbn [app contains]. rewrite IH. apply orb_true_r.
Qed.

Lemma contains_nil_inv (p : str) : contains p [] = true -> p = [].
Proof. destruct p; simpl; [done|discriminate]. Qed.

Lemma contains_refl (s : str) : contains s s = true.
Proof. apply contains_spec. exists [], []. by rewrite app_nil_r. Qed.

Lemma contains_trans (a b c : str) :
  contains a b = true -> contains b c = true -> contains a c = true.
Proof.
  rewrite !contains_spec. intros (x & y & ->) (u & v & ->).
  exists (u ++ x), (y ++ v). by rewrite <- !app_assoc.
Qed.

Lemma contains_length (p s : str) :
  contains p s = true -> (length p <= length s)%nat.
Proof.
  intros (a & b & ->)%contains_spec. rewrite !length_app. lia.
Qed.

(** A proper substring is shorter. *)
Lemma contains_proper_shorter (p s : str) :
  contains p s = true -> p <> s -> (length p < length s)%nat.
Proof.
  intros (a & b & ->)%contains_spec Hne. rewrite !length_app.
  destruct a as [|x a]; simpl; [|lia].
  destruct b as [|y b]; simpl; [|lia].
  exfalso. apply Hne. simpl. by rewrite app_nil_r.
Qed.

(** *** The scan of [replace], [split] and [count] *)

Lemma replace_from_skip (old new l s : str) :
  replace_from old new (length l) (l ++ s) = replace_from old new O s.
Proof. induction l as [|c l IH]; simpl; [done|exact IH]. Qed.

Lemma split_from_skip (sep l s : str) :
  split_from sep (length l) (l ++ s) = split_from sep O s.
Proof. induction l as [|c l IH]; simpl; [done|exact IH]. Qed.

Lemma count_from_skip (sub l s : str) :
  count_from sub (length l) (l ++ s) = count_from sub O s.
Proof. induction l as [|c l IH]; simpl; [done|exact IH]. Qed.

(** At an occurrence, [replace] writes [new] and goes on behind it. *)
Lemma replace_from_match (old new s : str) :
  old <> [] ->
  replace_from old new O (old ++ s) = new ++ replace_from old new O s.
Proof.
  intros Hne. destruct old as [|x o]; [done|].
  change ((x :: o) ++ s) with (x :: (o ++ s)).
  cbn [replace_from].
  change (x :: (o ++ s)) with ((x :: o) ++ s). rewrite startswith_app.
  cbn [length Nat.pred]. by rewrite replace_from_skip.
Qed.

(** Elsewhere it copies a character. *)
Lemma replace_from_copy (old new : str) (c : N) (s : str) :
  startswith (c :: s) old = false ->
  replace_from old new O (c :: s) = c :: replace_from old new O s.
Proof. intros H. cbn [replace_from]. by rewrite H. Qed.

Lemma split_from_nonempty (sep : str) (k : nat) (s : str) :
  split_from sep k s <> [].
Proof.
  revert k. induction s as [|c s IH]; intros k; cbn [split_from]; [done|].
  destruct k; [|apply IH].
  destruct (startswith (c :: s) sep); [done|].
  by destruct (split_from sep 0 s).
Qed.

Lemma str_join_cons (sep p : str) (pieces : list str) :
  pieces <> [] -> str_join sep (p :: pieces) = p ++ sep ++ str_join sep pieces.
Proof. by destruct pieces. Qed.

Lemma str_join_cons_head (sep : str) (c : N) (p : str) (pieces : list str) :
  str_join sep ((c :: p) :: pieces) = c :: str_join sep (p :: pieces).
Proof. by destruct pieces. Qed.

(** [s.replace(old, new) == new.join(s.split(old))], whatever is still to
    be skipped. *)
Lemma replace_from_join_split (old new : str) (k : nat) (s : str) :
  replace_from old new k s = str_join new (split_from old k s).
Proof.
  revert k. induction s as [|c s IH]; intros k; [done|].
  cbn [replace_from split_from]. destruct k; [|apply IH].
  destruct (startswith (c :: s) old).
  - rewrite str_join_cons by apply split_from_nonempty.
    cbn [app]. by rewrite IH.
  - rewrite IH. pose proof (split_from_nonempty old O s) as Hne.
    destruct (split_from old 0 s) as [|p pieces]; [done|].
    by rewrite str_join_cons_head.
Qed.

(** [old.join(s.split(old)) == s]: the pieces are what lies between the
    occurrences. *)
Lemma join_split_from (old : str) (k : nat) (s : str) :
  old <> [] -> str_join old (split_from old k s) = drop k s.
Proof.
  intros Hne. revert k. induction s as [|c s IH]; intros k.
  - by destruct k.
  - cbn [split_from]. destruct k; [|apply IH].
    destruct (startswith (c :: s) old) eqn:Hst.
    + rewrite str_join_cons by apply split_from_nonempty.
      rewrite IH. apply startswith_spec in Hst as [r Hr].
      destruct old as [|x o]; [done|]. cbn [app] in Hr.
      injection Hr as -> ->. cbn [app length Nat.pred drop].
      by rewrite drop_app_length.
    + specialize (IH O). rewrite drop_0 in IH.
      pose proof (split_from_nonempty old O s) as Hne'.
      destruct (split_from old 0 s) as [|p pieces]; [done|].
      rewrite str_join_cons_head. by rewrite IH.
Qed.

(** There is one more piece than there are occurrences. *)
Lemma length_split_from (sub : str) (k : nat) (s : str) :
  length (split_from sub k s) = S (count_from sub k s).
Proof.
  revert k. induction s as [|c s IH]; intros k; [done|].
  cbn [split_from count_from]. destruct k; [|apply IH].
  destruct (startswith (c :: s) sub).
  - cbn [length]. by rewrite IH.
  - rewrite <- IH. pose proof (split_from_nonempty sub O s) as Hne.
    by destruct (split_from sub 0 s).
Qed.

(** A string that contains a non-empty [sub] has an occurrence to count. *)
Lemma contains_count (sub s : str) :
  sub <> [] -> contains sub s = true -> (1 <= str_count s sub)%nat.
Proof.
  intros Hne. unfold str_count.
  induction s as [|c s IH]; cbn [contains count_from]; intros H.
  - rewrite orb_false_r in H. by destruct sub.
  - destruct (startswith (c :: s) sub); [lia|]. by apply IH.
Qed.

(** The length of a joined string. *)
Lemma length_str_join (sep : str) (pieces : list str) :
  length (str_join sep pieces)
  = (list_sum (length <$> pieces) + Nat.pred (length pieces) * length sep)%nat.
Proof.
  induction pieces as [|p pieces IH]; [done|].
  destruct pieces as [|q pieces].
  - cbn. lia.
  - rewrite str_join_cons by done. rewrite !length_app, IH.
    rewrite !fmap_cons. cbn [length Nat.pred]. unfold list_sum.
    cbn [fold_right]. nia.
Qed.

(** Replacing an occurring string by a longer one makes the text longer. *)
Lemma replace_longer (s old new : str) :
  old <> [] -> contains old s = true -> (length old < length new)%nat ->
  (length s < length (str_replace s old new))%nat.
Proof.
  intros Hne Hin Hlen. unfold str_replace.
  destruct old as [|x o] eqn:E; [done|]. rewrite <- E in *.
  rewrite replace_from_join_split.
  pose proof (join_split_from old O s Hne) as Hs. rewrite drop_0 in Hs.
  rewrite <- Hs at 1. rewrite !length_str_join.
  pose proof (length_split_from old O s) as Hn.
  pose proof (contains_count old s Hne Hin) as Hc. unfold str_count in Hc.
  rewrite Hn. cbn [Nat.pred]. nia.
Qed.

(** The replacement text is in the result when there was an occurrence. *)
Lemma replace_contains_new (s old new : str) :
  old <> [] -> contains old s = true ->
  contains new (str_replace s old new) = true.
Proof.
  intros Hne. unfold str_replace. destruct old as [|x o] eqn:E; [done|].
  rewrite <- E in *. clear E x o.
  induction s as [|c s IH]; cbn [contains]; intros H.
  - rewrite orb_false_r in H. by destruct old.
  - destruct (startswith (c :: s) old) eqn:Hst.
    + cbn [replace_from]. rewrite Hst. apply contains_spec.
      by exists [], (replace_from old new (Nat.pred (length old)) s).
    + rewrite replace_from_copy by done. cbn [contains].
      rewrite (IH H). apply orb_true_r.
Qed.

(** Without an occurrence [replace] changes nothing. *)
Lemma replace_absent (s old new : str) :
  contains old s = false -> str_replace s old new = s.
Proof.
  unfold str_replace. destruct old as [|x o] eqn:E.
  - intros H. by rewrite (proj2 (contains_spec [] s)) in H
      by (exists [], s; done).
  - rewrite <- E. clear E.
    induction s as [|c s IH]; cbn [contains]; intros H; [done|].
    apply orb_false_elim in H as [Hst H].
    rewrite replace_from_copy by done. by rewrite IH.
Qed.

(** ** The Latin-1 database obeys the laws *)

Lemma latin1_upper_cp_nonempty (c : N) : latin1_upper_cp c <> [].
Proof. unfold latin1_upper_cp. by repeat case_match. Qed.

Lemma latin1_laws : UnicodeLaws latin1.
Proof.
  split; cbn [str_lower str_upper isspace decimal_value latin1].
  - intros s. by destruct s.
  - intros s. destruct s as [|c s]; [done|]. cbn [flat_map]. split; [|done].
    pose proof (latin1_upper_cp_nonempty c). by destruct (latin1_upper_cp c).
  - intros d Hd. unfold latin1_decimal.
    replace ((48 <=? 48 + d) && (48 + d <=? 57)) with true
      by (symmetry; apply andb_true_intro; split; apply N.leb_le; lia).
    f_equal. lia.
  - intros d Hd. unfold latin1_isspace.
    repeat match goal with
           | |- context [?a <=? ?b] => destruct (N.leb_spec a b)
           | |- context [?a =? ?b] => destruct (N.eqb_spec a b)
           end; cbn; first [done | lia].
  - reflexivity.
Qed.

(** Settle the comparisons of a goal that linear arithmetic decides. *)
Ltac settle_tests :=
  repeat match goal with
         | |- context [?a <=? ?b] =>
             first [ rewrite (proj2 (N.leb_le a b)) by lia
                   | rewrite (proj2 (N.leb_gt a b)) by lia ]
         | |- context [?a =? ?b] =>
             first [ rewrite (proj2 (N.eqb_eq a b)) by lia
                   | rewrite (proj2 (N.eqb_neq a b)) by lia ]
         end.

(** On ASCII strings the case mapping round-trips. *)
Lemma latin1_ascii_upper_lower_cp (c : N) :
  c < 128 ->
  List.map latin1_lower_cp (latin1_upper_cp c) = [latin1_lower_cp c]
  /\ latin1_lower_cp (latin1_lower_cp c) = latin1_lower_cp c.
Proof.
  intros Hc.
  destruct (N.le_gt_cases 97 c) as [Hlo|Hlo];
    [destruct (N.le_gt_cases c 122) as [Hhi|Hhi]|].
  - (* a lower-case letter *)
    unfold latin1_upper_cp. settle_tests. cbn [andb List.map].
    unfold latin1_lower_cp. settle_tests. cbn [andb negb].
    settle_tests. cbn [andb negb]. split; [f_equal; lia|done].
  - unfold latin1_upper_cp. settle_tests. cbn [andb negb List.map].
    unfold latin1_lower_cp. settle_tests. cbn [andb negb].
    settle_tests. done.
  - unfold latin1_upper_cp. settle_tests. cbn [andb negb List.map].
    split; [done|].
    destruct (N.le_gt_cases 65 c) as [Hlo'|Hlo'];
      [destruct (N.le_gt_cases c 90) as [Hhi'|Hhi']|].
    + unfold latin1_lower_cp at 2. settle_tests. cbn [andb].
      unfold latin1_lower_cp. settle_tests. cbn [andb negb].
      settle_tests. done.
    + unfold latin1_lower_cp. settle_tests. cbn [andb negb].
      settle_tests. done.
    + unfold latin1_lower_cp. settle_tests. cbn [andb negb].
      settle_tests. done.
Qed.

Lemma latin1_ascii_round_trip (s : str) :
  Forall (fun c => c < 128) s ->
  @str_lower latin1 (@str_upper latin1 s) = @str_lower latin1 s
  /\ @str_lower latin1 (@str_lower latin1 s) = @str_lower latin1 s.
Proof.
  cbn [str_lower str_upper latin1].
  induction 1 as [|c s Hc Hs [IH1 IH2]]; [done|].
  destruct (latin1_ascii_upper_lower_cp c Hc) as [H1 H2].
  cbn [flat_map List.map]. rewrite List.map_app, H1, H2, IH1, IH2. done.
Qed.

(** ** Citation matcher *)

Section MatcherFacts.
Context {U : Unicode} (L : UnicodeLaws U).

Lemma truthy_lower (s : str) : truthy (str_lower s) = truthy s.
Proof.
  destruct s as [|c s].
  - by rewrite (proj2 (lower_nil_iff U L [])).
  - destruct (str_lower (c :: s)) eqn:E; [|done].
    by apply (proj1 (lower_nil_iff U L _)) in E.
Qed.

Lemma truthy_upper (s : str) : truthy (str_upper s) = truthy s.
Proof.
  destruct s as [|c s].
  - by rewrite (proj2 (upper_nil_iff U L [])).
  - destruct (str_upper (c :: s)) eqn:E; [|done].
    by apply (proj1 (upper_nil_iff U L _)) in E.
Qed.
End MatcherFacts.

Lemma check_citation_in_text_true {U : Unicode} (c t : str) :
  check_citation_in_text c t = true <->
  c <> [] /\ t <> [] /\ contains (str_lower c) (str_lower t) = true.
Proof.
  unfold check_citation_in_text. destruct c as [|x c], t as [|y t]; cbn [truthy negb orb];
    split; try done; intros (? & ? & ?); done.
Qed.

(** C5, as the code has it.  [check_citation_in_text c t] is true exactly
    when [c] and [t] are non-empty and the lower-cased [c] is a substring
    of the lower-cased [t]; so it is false for the empty citation.  It
    agrees with [check_citation_in_text (c.upper()) (t.lower())] for the
    strings whose case mapping round-trips ([c.upper().lower() ==
    c.lower()] and [t.lower().lower() == t.lower()]), not for all. *)
Theorem check_citation_in_text_spec {U : Unicode} (L : UnicodeLaws U) (c t : str) :
  (check_citation_in_text c t = true <->
   c <> [] /\ t <> [] /\ contains (str_lower c) (str_lower t) = true)
  /\ check_citation_in_text [] t = false
  /\ (str_lower (str_upper c) = str_lower c ->
      str_lower (str_lower t) = str_lower t ->
      check_citation_in_text c t
      = check_citation_in_text (str_upper c) (str_lower t)).
Proof.
  split; [apply check_citation_in_text_true|]. split; [done|].
  intros Hc Ht. unfold check_citation_in_text.
  rewrite (truthy_upper L), (truthy_lower L), Hc, Ht. done.
Qed.

(** The theorem at "Fuchs" in "Der Fuchs springt.". *)
Lemma check_citation_in_text_spec_witness :
  @check_citation_in_text latin1 (lit "Fuchs") (lit "Der Fuchs springt.")
  = @check_citation_in_text latin1 (str_upper (lit "Fuchs"))
      (str_lower (lit "Der Fuchs springt.")).
Proof.
  refine (proj2 (proj2 (check_citation_in_text_spec latin1_laws
                          (lit "Fuchs") (lit "Der Fuchs springt."))) _ _);
    reflexivity.
Defined.

(** C5 as stated fails: the sharp s is found in itself, but its upper
    case "SS" is not found in it. *)
Lemma check_citation_in_text_upper_sharp_s :
  @check_citation_in_text latin1 sharp_s sharp_s = true
  /\ @check_citation_in_text latin1 (str_upper sharp_s) (str_lower sharp_s) = false.
Proof. split; reflexivity. Qed.

(** ** Highlight renderer *)

Lemma sorted_by_len_desc_one (c : str) : sorted_by_len_desc [c] = [c].
Proof. reflexivity. Qed.

Lemma sorted_by_len_desc_pair (short long : str) :
  (length short < length long)%nat ->
  sorted_by_len_desc [short; long] = [long; short]
  /\ sorted_by_len_desc [long; short] = [long; short].
Proof.
  intros Hlen. unfold sorted_by_len_desc. cbn [foldr insert_by_len]. unfold len.
  replace (N.of_nat (length long) <=? N.of_nat (length short)) with false
    by (symmetry; apply N.leb_gt; lia).
  replace (N.of_nat (length short) <=? N.of_nat (length long)) with true
    by (symmetry; apply N.leb_le; lia).
  done.
Qed.

Lemma highlight_step_found (text c : str) :
  c <> [] -> contains c text = true ->
  highlight_step text c = str_replace text c (mark c).
Proof.
  intros Hc Hin. unfold highlight_step.
  by rewrite (proj2 (truthy_true c) Hc), Hin.
Qed.

Lemma highlight_step_absent (text c : str) :
  contains c text = false -> highlight_step text c = text.
Proof. intros Hin. unfold highlight_step. by rewrite Hin, andb_false_r. Qed.

Lemma length_mark (c : str) : (length c < length (mark c))%nat.
Proof.
  unfold mark. rewrite !length_app.
  change (length mark_close) with 7%nat. lia.
Qed.

Lemma contains_mark (c : str) : contains c (mark c) = true.
Proof. apply contains_spec. by exists mark_open, mark_close. Qed.


(** C1 as stated fails at "foo foo foo": all three occurrences are
    marked. *)
Lemma highlight_foo_foo_foo :
  ~ marks_first_occurrence_only foo_foo_foo foo
  /\ highlight_citations foo_foo_foo [foo]
     = mark foo ++ lit " " ++ mark foo ++ lit " " ++ mark foo
  /\ str_count (highlight_citations foo_foo_foo [foo]) mark_open = 3%nat.
Proof.
  split; [|split; reflexivity].
  unfold marks_first_occurrence_only. vm_compute. discriminate.
Qed.

(** C1, as the code has it ("Highlight all citation occurrences in text").
    For a single non-empty citation the result is the text with every
    occurrence wrapped, the occurrences being the non-overlapping ones
    found from the left, as [split] and [count] find them:
    [highlight(t, [c]) == mark(c).join(t.split(c))], where
    [c.join(t.split(c)) == t] and there are [t.count(c)] marked spans. *)
Theorem highlight_marks_every_occurrence (text c : str) :
  c <> [] ->
  highlight_citations text [c] = str_join (mark c) (str_split text c)
  /\ str_join c (str_split text c) = text
  /\ length (str_split text c) = S (str_count text c).
Proof.
  intros Hc. unfold highlight_citations, str_split, str_count.
  rewrite sorted_by_len_desc_one. cbn [fold_left].
  split; [|split].
  - rewrite <- replace_from_join_split.
    destruct (contains c text) eqn:Hin.
    + rewrite highlight_step_found by done. unfold str_replace.
      by destruct c.
    + rewrite highlight_step_absent by done.
      symmetry. pose proof (replace_absent text c (mark c) Hin) as H.
      unfold str_replace in H. by destruct c.
  - rewrite join_split_from by done. apply drop_0.
  - apply length_split_from.
Qed.

(** The theorem at "foo foo foo". *)
Lemma highlight_marks_every_occurrence_witness :
  highlight_citations foo_foo_foo [foo] = str_join (mark foo) (str_split foo_foo_foo foo)
  /\ str_join foo (str_split foo_foo_foo foo) = foo_foo_foo
  /\ length (str_split foo_foo_foo foo) = S (str_count foo_foo_foo foo).
Proof.
  refine (highlight_marks_every_occurrence foo_foo_foo foo _).
  intros H; vm_compute in H; discriminate H.
Defined.


(** C2 as stated fails at "ergänzende Details": the word is wrapped
    again inside the marker of the phrase. *)
Lemma highlight_ergaenzende_Details :
  ~ marked_as_one_span ergaenzende_Details ergaenzende_Details
      (highlight_citations ergaenzende_Details [Details; ergaenzende_Details])
  /\ highlight_citations ergaenzende_Details [Details; ergaenzende_Details]
     = mark_open ++ lit "erg" ++ [228] ++ lit "nzende " ++ mark Details ++ mark_close
  /\ str_count (highlight_citations ergaenzende_Details
                  [Details; ergaenzende_Details]) mark_open = 2%nat.
Proof.
  split; [|split; reflexivity].
  unfold marked_as_one_span. vm_compute. discriminate.
Qed.

(** C2, as the code has it.  Of two citations, one a proper substring of
    the other, the longer is replaced first, in whatever order they are
    given.  The shorter one is then still a literal substring of the
    marked text, inside the marker just written, and is replaced there
    too: the result is the second replacement applied to the first, and
    it differs from the text with the long citation marked alone. *)
Theorem highlight_longer_first_then_nested (text short long : str) :
  short <> [] ->
  contains short long = true ->
  short <> long ->
  contains long text = true ->
  let marked := str_replace text long (mark long) in
  highlight_citations text [short; long] = str_replace marked short (mark short)
  /\ highlight_citations text [long; short] = str_replace marked short (mark short)
  /\ contains short marked = true
  /\ str_replace marked short (mark short) <> marked.
Proof.
  intros Hs Hsub Hne Hin marked.
  pose proof (contains_proper_shorter _ _ Hsub Hne) as Hlen.
  assert (long <> []) as Hl by (destruct long; [simpl in Hlen; lia|done]).
  assert (contains short marked = true) as Hnested.
  { apply (contains_trans _ long); [done|].
    apply (contains_trans _ (mark long)); [apply contains_mark|].
    by apply replace_contains_new. }
  destruct (sorted_by_len_desc_pair short long Hlen) as [E1 E2].
  unfold highlight_citations. rewrite E1, E2. cbn [fold_left].
  rewrite (highlight_step_found text long) by done. fold marked.
  rewrite (highlight_step_found marked short) by done.
  repeat split; try done.
  intros Heq. pose proof (replace_longer marked short (mark short) Hs Hnested
                            (length_mark short)) as Hlonger.
  rewrite Heq in Hlonger. lia.
Qed.

(** The theorem at "Details" inside "ergänzende Details". *)
Lemma highlight_longer_first_then_nested_witness :
  highlight_citations ergaenzende_Details [Details; ergaenzende_Details]
  = str_replace (str_replace ergaenzende_Details ergaenzende_Details
                   (mark ergaenzende_Details)) Details (mark Details).
Proof.
  refine (proj1 (highlight_longer_first_then_nested ergaenzende_Details Details
                   ergaenzende_Details _ _ _ _));
    first [reflexivity | intros H; vm_compute in H; discriminate H].
Defined.

(** C10.  A citation that occurs in the text only up to case is reported
    as found by the matcher and left unmarked by the renderer. *)
Theorem found_but_not_highlighted {U : Unicode} (L : UnicodeLaws U) (c t : str) :
  contains (str_lower c) (str_lower t) = true ->
  contains c t = false ->
  check_citation_in_text c t = true /\ highlight_citations t [c] = t.
Proof.
  intros Hfold Hlit.
  assert (c <> []) as Hc.
  { intros ->. by rewrite (proj2 (contains_spec [] t)) in Hlit by (by exists [], t). }
  split.
  - apply check_citation_in_text_true. repeat split; try done.
    intros ->. rewrite (proj2 (lower_nil_iff U L [])) in Hfold by done.
    apply contains_nil_inv in Hfold. by apply (proj1 (lower_nil_iff U L _)) in Hfold.
  - unfold highlight_citations. rewrite sorted_by_len_desc_one. cbn [fold_left].
    by apply highlight_step_absent.
Qed.

(** The theorem at "fuchs" in "Der Fuchs springt.". *)
Lemma found_but_not_highlighted_witness :
  @check_citation_in_text latin1 (lit "fuchs") (lit "Der Fuchs springt.") = true
  /\ highlight_citations (lit "Der Fuchs springt.") [lit "fuchs"]
     = lit "Der Fuchs springt.".
Proof.
  refine (found_but_not_highlighted latin1_laws (lit "fuchs")
            (lit "Der Fuchs springt.") _ _); reflexivity.
Defined.

(** ** Dictionaries *)

Section DictFacts.
Context {V : Type}.
Implicit Types (d : list (key * V)) (k : key) (v : V).

Lemma dict_get_set_eq d k v : dict_get (dict_set d k v) k = Some v.
Proof.
  induction d as [|[k' v'] d IH]; cbn [dict_set dict_get].
  - by rewrite decide_True.
  - destruct (decide (k' = k)) as [->|Hne]; cbn [dict_get].
    + by rewrite decide_True.
    + by rewrite decide_False.
Qed.

Lemma dict_get_set_ne d k k' v :
  k <> k' -> dict_get (dict_set d k v) k' = dict_get d k'.
Proof.
  intros Hne. induction d as [|[k0 v0] d IH]; cbn [dict_set dict_get].
  - by rewrite decide_False.
  - destruct (decide (k0 = k)) as [->|Hne0]; cbn [dict_get].
    + by rewrite !decide_False.
    + by rewrite IH.
Qed.

Lemma dict_get_del_ne d k k' :
  k <> k' -> dict_get (dict_del d k) k' = dict_get d k'.
Proof.
  intros Hne. induction d as [|[k0 v0] d IH]; cbn [dict_del dict_get]; [done|].
  destruct (decide (k0 = k)) as [->|Hne0]; cbn [dict_get].
  - by rewrite decide_False.
  - by rewrite IH.
Qed.

Lemma dict_get_None d k : dict_get d k = None <-> k ∉ d.*1.
Proof.
  induction d as [|[k0 v0] d IH]; cbn [dict_get fmap list_fmap].
  - split; [intros _; apply not_elem_of_nil|done].
  - rewrite not_elem_of_cons. destruct (decide (k0 = k)) as [->|Hne].
    + split; [done|]. by intros [? _].
    + rewrite IH. split; [by intros ?; split|by intros [_ ?]].
Qed.

(** Assigning to an absent key appends it. *)
Lemma dict_set_fresh d k v : k ∉ d.*1 -> dict_set d k v = d ++ [(k, v)].
Proof.
  induction d as [|[k0 v0] d IH]; cbn [dict_set fmap list_fmap]; [done|].
  rewrite not_elem_of_cons. intros [Hne Hnot].
  rewrite decide_False by done. cbn [app]. by rewrite IH.
Qed.

(** A list of pairs with distinct keys is the dict it builds. *)
Lemma dict_of_NoDup_from d pairs :
  NoDup (d.*1 ++ pairs.*1) ->
  fold_left (fun d kv => dict_set d kv.1 kv.2) pairs d = d ++ pairs.
Proof.
  revert d. induction pairs as [|[k v] pairs IH]; intros d Hnd.
  - by rewrite app_nil_r.
  - cbn [fold_left fst snd]. rewrite dict_set_fresh.
    + rewrite IH.
      * by rewrite <- app_assoc.
      * rewrite fmap_app. cbn [fmap list_fmap fst].
        rewrite <- app_assoc. exact Hnd.
    + apply NoDup_app in Hnd as (_ & Hdis & _).
      intros Hin. apply (Hdis _ Hin). cbn [fmap list_fmap fst]. left.
Qed.

Lemma dict_of_NoDup (pairs : list (key * V)) :
  NoDup pairs.*1 -> dict_of pairs = pairs.
Proof. intros Hnd. unfold dict_of. by rewrite dict_of_NoDup_from. Qed.

(** Looking up a position in a dict listed by position. *)
Lemma dict_get_positions (vs : list V) (n i : nat) :
  dict_get (imap (fun j v => (KInt (Z.of_nat (n + j)), v)) vs)
           (KInt (Z.of_nat (n + i))) = vs !! i.
Proof.
  revert n i. induction vs as [|v vs IH]; intros n i; [done|].
  rewrite imap_cons. cbn [dict_get]. destruct i as [|i].
  - by rewrite decide_True by (do 2 f_equal; lia).
  - rewrite decide_False by (intros [= H]; lia).
    change ((v :: vs) !! S i) with (vs !! i).
    rewrite <- (IH (S n) i).
    replace (n + S i)%nat with (S n + i)%nat by lia.
    f_equal. apply imap_ext. intros j x _. cbn. do 3 f_equal. lia.
Qed.
End DictFacts.

(** ** Removing an annotation *)

Lemma remove_annotation_row_in_bounds (st : State) (p : key) (df : DataFrame) (row : Z) :
  dict_get (annotations st) p = Some df ->
  (0 <= row < df_len df)%Z ->
  remove_annotation_row p row st
  = (Ok tt, set_annotations
              (dict_set (annotations st) p
                 {| columns := columns df;
                    rows := delete (Z.to_nat row) (rows df) |}) st).
Proof.
  intros Hdf [Hlo Hhi]. unfold remove_annotation_row, bind, get_state, lift, modify, df_drop.
  rewrite Hdf.
  rewrite (proj2 (Z.ltb_lt _ _) Hhi). rewrite (proj2 (Z.leb_le _ _) Hlo).
  reflexivity.
Qed.

Lemma remove_annotation_row_beyond (st : State) (p : key) (df : DataFrame) (row : Z) :
  dict_get (annotations st) p = Some df ->
  (df_len df <= row)%Z ->
  remove_annotation_row p row st = (Ok tt, st).
Proof.
  intros Hdf Hge. unfold remove_annotation_row, bind, get_state, ret.
  rewrite Hdf. by rewrite (proj2 (Z.ltb_ge _ _) Hge).
Qed.

(** A negative row index passes the guard [len(df) > row_index] and
    reaches [drop], which has no such label. *)
Lemma remove_annotation_row_negative (st : State) (p : key) (df : DataFrame) (row : Z) :
  dict_get (annotations st) p = Some df ->
  (row < 0)%Z ->
  remove_annotation_row p row st = (Raise KeyError, st).
Proof.
  intros Hdf Hneg. unfold remove_annotation_row, bind, get_state, lift, df_drop.
  rewrite Hdf.
  assert (row < df_len df)%Z as Hlt by (unfold df_len; lia).
  rewrite (proj2 (Z.ltb_lt _ _) Hlt).
  by rewrite (proj2 (Z.leb_gt _ _) Hneg).
Qed.

(** C7.  At row index -1 the call raises [KeyError] where the claim
    promises a silent no-op; an index in bounds removes that row and an
    index past the end changes nothing. *)
Theorem remove_annotation_row_minus_one :
  remove_annotation_row (KInt 0) (-1) three_passages
  = (Raise KeyError, three_passages)
  /\ remove_annotation_row (KInt 0) 0 three_passages
     = (Ok tt, set_annotations
                 (dict_set (annotations three_passages) (KInt 0)
                    {| columns := core_columns; rows := [] |}) three_passages)
  /\ remove_annotation_row (KInt 0) 1 three_passages = (Ok tt, three_passages).
Proof. repeat split. Qed.

(** ** Removing a passage *)


Lemma reindex_step_set (index : Z) (old acc : list (key * DataFrame)) (i : Z) :
  reindex_step index old acc i = dict_set acc (KInt i) (reindexed index old i).
Proof.
  unfold reindex_step, reindexed.
  by destruct (dict_get old (KInt (if (i <? index)%Z then i else (i + 1)%Z))).
Qed.

Lemma reindex_fold_other (index : Z) (old : list (key * DataFrame)) (zs : list Z)
    (acc : list (key * DataFrame)) (j : Z) :
  j ∉ zs ->
  dict_get (fold_left (reindex_step index old) zs acc) (KInt j)
  = dict_get acc (KInt j).
Proof.
  revert acc. induction zs as [|z zs IH]; intros acc Hj; [done|].
  apply not_elem_of_cons in Hj as [Hne Hj]. cbn [fold_left].
  rewrite IH by done. rewrite reindex_step_set.
  apply dict_get_set_ne. congruence.
Qed.

Lemma reindex_fold_get (index : Z) (old : list (key * DataFrame)) (zs : list Z)
    (acc : list (key * DataFrame)) (j : Z) :
  NoDup zs -> j ∈ zs ->
  dict_get (fold_left (reindex_step index old) zs acc) (KInt j)
  = Some (reindexed index old j).
Proof.
  revert acc. induction zs as [|z zs IH]; intros acc Hnd Hj.
  - by apply elem_of_nil in Hj.
  - apply NoDup_cons in Hnd as [Hz Hnd]. cbn [fold_left].
    apply elem_of_cons in Hj as [->|Hj].
    + rewrite reindex_fold_other by done. rewrite reindex_step_set.
      apply dict_get_set_eq.
    + by apply IH.
Qed.

Lemma reindex_fold_keys (index : Z) (old : list (key * DataFrame)) (zs : list Z)
    (acc : list (key * DataFrame)) :
  NoDup (acc.*1 ++ (KInt <$> zs)) ->
  (fold_left (reindex_step index old) zs acc).*1 = acc.*1 ++ (KInt <$> zs).
Proof.
  revert acc. induction zs as [|z zs IH]; intros acc Hnd.
  - by rewrite app_nil_r.
  - cbn [fold_left]. rewrite reindex_step_set.
    assert (KInt z ∉ acc.*1) as Hfresh.
    { apply NoDup_app in Hnd as (_ & Hdis & _). intros Hin.
      apply (Hdis _ Hin). rewrite fmap_cons. left. }
    rewrite dict_set_fresh by done. rewrite IH.
    + rewrite fmap_app. cbn [fmap list_fmap fst]. by rewrite <- app_assoc.
    + rewrite fmap_app. cbn [fmap list_fmap fst]. by rewrite <- app_assoc.
Qed.

Lemma list_pop_valid {A} (l : list A) (i : nat) :
  (i < length l)%nat -> list_pop l (Z.of_nat i) = Ok (delete i l).
Proof.
  intros Hi. unfold list_pop.
  rewrite (proj2 (Z.ltb_ge _ _)) by lia.
  rewrite (proj2 (Z.leb_le _ _)) by lia.
  rewrite (proj2 (Z.ltb_lt _ _)) by lia.
  cbn [andb]. by rewrite Nat2Z.id.
Qed.


Lemma remove_text_passage_valid (st : State) (i : nat) :
  (2 <= length (text_passages st))%nat ->
  (i < length (text_passages st))%nat ->
  remove_text_passage (Z.of_nat i) st
  = (Ok tt,
     {| text_passages := delete i (text_passages st);
        annotations := annotations_without (Z.of_nat i) st
                         (length (delete i (text_passages st)));
        errors := errors st |}).
Proof.
  intros HN Hi. unfold remove_text_passage, bind, get_state.
  rewrite (proj2 (Nat.ltb_lt _ _)) by lia.
  unfold lift. rewrite list_pop_valid by done.
  unfold modify, ret, annotations_without, set_annotations, set_text_passages.
  by destruct (dict_mem (annotations st) (KInt (Z.of_nat i))).
Qed.

(** C6.  With a single passage [remove_text_passage] changes nothing.
    With [N >= 2] passages and a valid position [i] it leaves [N - 1]
    passages, the annotations are keyed by the positions [0 .. N-2], and
    the table of every surviving passage [j] is found at that passage's
    new position: [j] below [i], [j - 1] above. *)
Theorem remove_text_passage_spec (st : State) (i : nat) :
  let N := length (text_passages st) in
  (N = 1%nat -> forall index, remove_text_passage index st = (Ok tt, st))
  /\ ((2 <= N)%nat -> (i < N)%nat ->
      exists annotations',
        remove_text_passage (Z.of_nat i) st
        = (Ok tt, {| text_passages := delete i (text_passages st);
                     annotations := annotations';
                     errors := errors st |})
        /\ length (delete i (text_passages st)) = (N - 1)%nat
        /\ annotations'.*1 = KInt <$> seqZ 0 (Z.of_nat (N - 1))
        /\ forall (j : nat) (df : DataFrame),
             (j < N)%nat -> j <> i ->
             dict_get (annotations st) (KInt (Z.of_nat j)) = Some df ->
             dict_get annotations'
               (KInt (Z.of_nat (if (j <? i)%nat then j else (j - 1)%nat)))
             = Some df).
Proof.
  intros N. split.
  - intros HN index. unfold remove_text_passage, bind, get_state, ret.
    fold N. by rewrite HN.
  - intros HN Hi. eexists. split; [by apply remove_text_passage_valid|].
    assert (length (delete i (text_passages st)) = (N - 1)%nat) as Hlen.
    { rewrite length_delete; [done|]. by apply lookup_lt_is_Some_2. }
    split; [done|]. rewrite Hlen. unfold annotations_without. split.
    + rewrite reindex_fold_keys; [done|].
      cbn [fmap list_fmap app]. apply NoDup_fmap_2; [|apply NoDup_seqZ].
      by intros ?? [= ->].
    + intros j df Hj Hne Hdf.
      set (j' := if (j <? i)%nat then j else (j - 1)%nat).
      rewrite reindex_fold_get; [|apply NoDup_seqZ|].
      * unfold reindexed.
        assert ((if (Z.of_nat j' <? Z.of_nat i)%Z
                 then Z.of_nat j' else (Z.of_nat j' + 1)%Z) = Z.of_nat j) as ->.
        { unfold j'. destruct (Nat.ltb_spec j i).
          - by rewrite (proj2 (Z.ltb_lt _ _)) by lia.
          - rewrite (proj2 (Z.ltb_ge _ _)) by lia. lia. }
        assert (KInt (Z.of_nat i) <> KInt (Z.of_nat j)) as Hk
          by (intros [= H]; lia).
        destruct (dict_mem (annotations st) (KInt (Z.of_nat i))).
        -- rewrite dict_get_del_ne by done. by rewrite Hdf.
        -- by rewrite Hdf.
      * apply elem_of_seqZ. unfold j'. destruct (Nat.ltb_spec j i); lia.
Qed.

(** The theorem on three passages, the middle one removed. *)
Lemma remove_text_passage_spec_witness :
  exists annotations',
    remove_text_passage 1 three_passages
    = (Ok tt, {| text_passages := [VStr (lit "A"); VStr (lit "C")];
                 annotations := annotations'; errors := [] |})
    /\ length (delete 1%nat (text_passages three_passages)) = 2%nat
    /\ annotations'.*1 = [KInt 0; KInt 1]
    /\ forall (j : nat) (df : DataFrame),
         (j < 3)%nat -> j <> 1%nat ->
         dict_get (annotations three_passages) (KInt (Z.of_nat j)) = Some df ->
         dict_get annotations'
           (KInt (Z.of_nat (if (j <? 1)%nat then j else (j - 1)%nat)))
         = Some df.
Proof.
  refine (proj2 (remove_text_passage_spec three_passages 1) _ _); cbn; lia.
Defined.

(** ** Document import *)

Section WordImportFacts.
Context {U : Unicode}.


Lemma word_step_inv (ws : WordScan) (para : Paragraph) :
  word_scan_inv ws -> word_scan_inv (word_step ws para).
Proof.
  unfold word_scan_inv, word_step. intros Hinv.
  destruct (negb (truthy (strip (para_text para)))); [done|].
  destruct (negb (startswith (style_name para) (lit "List")));
    cbn [ws_current_passage ws_passages ws_annotations]; [|done].
  by destruct (ws_passages ws).
Qed.

Lemma word_scan_inv_fold (doc : list Paragraph) (ws : WordScan) :
  word_scan_inv ws -> word_scan_inv (fold_left word_step doc ws).
Proof.
  revert ws. induction doc as [|para doc IH]; intros ws Hinv; [done|].
  cbn [fold_left]. by apply IH, word_step_inv.
Qed.

Lemma dict_set_nonempty {V} (d : list (key * V)) (k : key) (v : V) :
  dict_set d k v <> [].
Proof. destruct d as [|[k' v'] d]; cbn [dict_set]; [done|]. by case_decide. Qed.

(** The footnote fallback of [import_word] never contributes: it is
    entered only when there is no passage, and then it has nothing to
    annotate.  The result is what the first loop collected. *)
Lemma import_word_fallback_unused (doc : list Paragraph) :
  let ws := fold_left word_step doc
              {| ws_passages := []; ws_annotations := [];
                 ws_current_passage := None; ws_current_annots := [] |} in
  import_word doc
  = (ws_passages ws,
     match ws_current_passage ws with
     | Some _ => store_collected (ws_passages ws) (ws_annotations ws)
                   (ws_current_annots ws)
     | None => ws_annotations ws
     end).
Proof.
  intros ws. unfold import_word. fold ws.
  assert (word_scan_inv ws) as Hinv by (by apply word_scan_inv_fold).
  unfold word_scan_inv in Hinv.
  destruct (ws_current_passage ws).
  - pose proof (dict_set_nonempty (ws_annotations ws)
                  (KInt (Z.of_nat (length (ws_passages ws)) - 1))
                  (collected_frame (ws_current_annots ws))) as Hne.
    unfold store_collected. by destruct (dict_set _ _ _).
  - destruct Hinv as [-> ->]. done.
Qed.
End WordImportFacts.

(** C9.  On a document of two plain paragraphs, "See [1]" and its
    footnote "1 Footnote text", [import_word] stores a blank annotation
    row for each passage.  The footnote text, which the fallback would
    have found, is not used: the guard [if not annotations] is reached
    after every passage has already been given a table. *)
Theorem import_word_footnote_doc :
  @import_word latin1 footnote_doc
  = ([lit "See [1]"; lit "1 Footnote text"],
     [(KInt 0, blank_frame); (KInt 1, blank_frame)])
  /\ @footnote_metadata latin1 footnote_doc = [lit "1 Footnote text"]
  /\ dict_get (@import_word latin1 footnote_doc).2 (KInt 0)
     <> Some (metadata_frame (lit "1 Footnote text")).
Proof.
  split; [by vm_compute|]. split; [by vm_compute|].
  vm_compute. discriminate.
Qed.

(** ** Spreadsheet import *)

(** *** The order on strings *)

Lemma str_ltb_irrefl (a : str) : str_ltb a a = false.
Proof.
  induction a as [|x a IH]; [done|]. cbn [str_ltb].
  by rewrite N.ltb_irrefl, N.eqb_refl, IH.
Qed.

Lemma str_ltb_cons (x y : N) (a b : str) :
  str_ltb (x :: a) (y :: b) = true <-> x < y \/ (x = y /\ str_ltb a b = true).
Proof.
  cbn [str_ltb]. rewrite orb_true_iff, andb_true_iff, N.ltb_lt, N.eqb_eq. done.
Qed.

Lemma str_ltb_trans (a b c : str) :
  str_ltb a b = true -> str_ltb b c = true -> str_ltb a c = true.
Proof.
  revert b c. induction a as [|x a IH]; intros [|y b] [|z c]; try done.
  rewrite !str_ltb_cons. intros [Hxy|[-> Hab]] [Hyz|[-> Hbc]].
  - left. lia.
  - by left.
  - by left.
  - right. split; [done|]. by apply (IH b).
Qed.

Lemma str_ltb_total (a b : str) :
  str_ltb a b = false -> str_ltb b a = false -> a = b.
Proof.
  revert b. induction a as [|x a IH]; intros [|y b]; try done.
  cbn [str_ltb]. rewrite !orb_false_iff, !andb_false_iff.
  rewrite !N.ltb_ge, !N.eqb_neq. intros [Hxy Hab] [Hyx Hba].
  assert (x = y) as -> by lia. f_equal. apply IH.
  - by destruct Hab.
  - by destruct Hba.
Qed.


Lemma insert_group_key_elem (k x : str) (ks : list str) :
  x ∈ insert_group_key k ks <-> x = k \/ x ∈ ks.
Proof.
  induction ks as [|k' ks IH]; cbn [insert_group_key].
  - rewrite list_elem_of_singleton. split; [by left|].
    intros [?|H]; [done|]. by apply elem_of_nil in H.
  - destruct (str_ltb k k') eqn:E1; [by rewrite elem_of_cons|].
    destruct (str_ltb k' k) eqn:E2.
    + rewrite !elem_of_cons, IH. tauto.
    + rewrite (str_ltb_total _ _ E1 E2). rewrite elem_of_cons. tauto.
Qed.

Lemma insert_group_key_sorted (k : str) (ks : list str) :
  StronglySorted str_lt ks -> StronglySorted str_lt (insert_group_key k ks).
Proof.
  induction 1 as [|k' ks Hs IH Hall]; cbn [insert_group_key].
  - repeat constructor.
  - destruct (str_ltb k k') eqn:E1.
    + constructor; [by constructor|]. constructor; [done|].
      eapply Forall_impl; [exact Hall|]. intros x Hx. by apply (str_ltb_trans _ k').
    + destruct (str_ltb k' k) eqn:E2; [|by constructor].
      constructor; [done|]. apply Forall_forall. intros x Hx.
      apply insert_group_key_elem in Hx as [->|Hx]; [done|].
      by apply (proj1 (Forall_forall _ _) Hall).
Qed.

Lemma group_key_of_text (v : value) (s : str) :
  group_key_of v = GText s <-> v = VStr s.
Proof.
  destruct v; cbn [group_key_of]; try (split; intros; congruence).
  case_decide; split; intros; congruence.
Qed.

(** On a column of texts and blanks, the group keys are the distinct
    texts in ascending order. *)
Lemma sorted_group_keys_ok (cells : list value) :
  Forall (fun v => group_key_of v <> GOther) cells ->
  exists ks, sorted_group_keys cells = Ok ks
             /\ StronglySorted str_lt ks
             /\ forall s, s ∈ ks <-> VStr s ∈ cells.
Proof.
  induction 1 as [|v cells Hv Hall (ks & Hks & Hsorted & Hmem)].
  - exists []. split; [done|]. split; [constructor|].
    intros s. split; intros H; by apply elem_of_nil in H.
  - cbn [sorted_group_keys]. rewrite Hks.
    destruct (group_key_of v) eqn:Ev; [| |done].
    + exists (insert_group_key s ks). split; [done|].
      split; [by apply insert_group_key_sorted|].
      intros x. rewrite insert_group_key_elem, elem_of_cons, Hmem.
      apply group_key_of_text in Ev as ->.
      split; (intros [H|H]; [left; congruence|by right]).
    + exists ks. split; [done|]. split; [done|].
      intros x. rewrite elem_of_cons, Hmem. split; [by right|].
      intros [<-|H]; [|done]. cbn [group_key_of] in Ev. done.
Qed.

(** *** The loop over the groups *)


Lemma excel_group_fold (df : DataFrame) (texts : list str) (n : nat)
    (passages : list value) (annotations : list (key * DataFrame)) :
  forallb (has_column df) core_columns = true ->
  annotations.*1 = (fun j => KInt (Z.of_nat j)) <$> seq 0 n ->
  fold_left excel_group_step
    (imap (fun j g => ((n + j)%nat, g))
       ((fun k => (k, {| columns := columns df; rows := group_rows df k |})) <$> texts))
    (Ok (passages, annotations))
  = Ok (passages ++ (VStr <$> texts),
        annotations ++ imap (fun j text => (KInt (Z.of_nat (n + j)), group_table df text)) texts).
Proof.
  intros Hcols. revert n passages annotations.
  induction texts as [|text texts IH]; intros n passages annotations Hkeys.
  - cbn. by rewrite !app_nil_r.
  - rewrite fmap_cons, !imap_cons. cbn [fold_left excel_group_step].
    unfold df_select. unfold has_column at 1. cbn [columns].
    change (forallb _ core_columns) with (forallb (has_column df) core_columns).
    rewrite Hcols. rewrite dict_set_fresh.
    + erewrite (imap_ext _ (fun j g => ((S n + j)%nat, g))); last first.
      { intros j g _. cbn. f_equal. lia. }
      rewrite IH.
      * rewrite <- !app_assoc. cbn [app fmap list_fmap]. do 3 f_equal.
        fold (group_table df text). f_equal.
        apply imap_ext. intros j x _. cbn. do 3 f_equal. lia.
      * rewrite fmap_app, Hkeys. cbn [fmap list_fmap fst].
        rewrite Nat.add_0_r. by rewrite seq_S, fmap_app.
    + rewrite Hkeys, Nat.add_0_r. intros Hin.
      apply list_elem_of_fmap in Hin as (j & [= Hj] & Hin).
      apply elem_of_seq in Hin. lia.
Qed.

Lemma annotation_tuples_group_table (df : DataFrame) (text : str) :
  annotation_tuples (group_table df text)
  = (fun row => (cell (columns df) row Citation,
                 cell (columns df) row Metadata,
                 cell (columns df) row Annotation_Text)) <$> group_rows df text.
Proof.
  unfold annotation_tuples, group_table, df_project. cbn [columns rows].
  rewrite <- list_fmap_compose. by apply list_fmap_ext.
Qed.



(** C8 as stated fails on a sheet whose rows are for "b", "a", "b": the
    passages come out as "a", "b". *)
Lemma import_excel_sheet_b_a :
  ~ imports_in_first_seen_order sheet_b_a
  /\ first_seen_texts [] (df_column sheet_b_a Text) = [lit "b"; lit "a"]
  /\ exists annotations,
       import_excel sheet_b_a = Ok ([VStr (lit "a"); VStr (lit "b")], annotations).
Proof.
  split; [|split; [by vm_compute|eexists; by vm_compute]].
  intros [annotations H]. vm_compute in H. discriminate H.
Qed.

(** The tables of the groups, found by position. *)
Lemma dict_get_group_tables (df : DataFrame) (texts : list str) (i : nat) :
  dict_get (imap (fun i text => (KInt (Z.of_nat i), group_table df text)) texts)
           (KInt (Z.of_nat i))
  = group_table df <$> texts !! i.
Proof.
  rewrite <- list_lookup_fmap.
  rewrite <- (dict_get_positions (group_table df <$> texts) 0 i).
  rewrite imap_fmap. done.
Qed.

(** C8, as the code has it.  For a sheet with the columns [Text],
    [Citation], [Metadata] and [Annotation_Text] whose [Text] cells are
    texts or blank, [import_excel] makes one passage per distinct text,
    the passages in ascending order of their text (the order of
    [groupby]), and the table of each passage holds the (Citation,
    Metadata, Annotation_Text) values of the rows of its group in row
    order. *)
Theorem import_excel_groups_sorted (df : DataFrame) :
  has_column df Text = true ->
  forallb (has_column df) core_columns = true ->
  Forall (fun v => group_key_of v <> GOther) (df_column df Text) ->
  exists texts annotations,
    import_excel df = Ok (VStr <$> texts, annotations)
    /\ StronglySorted str_lt texts
    /\ (forall s, s ∈ texts <-> VStr s ∈ df_column df Text)
    /\ (forall i text, texts !! i = Some text ->
          exists table,
            dict_get annotations (KInt (Z.of_nat i)) = Some table
            /\ annotation_tuples table
               = (fun row => (cell (columns df) row Citation,
                              cell (columns df) row Metadata,
                              cell (columns df) row Annotation_Text))
                   <$> group_rows df text).
Proof.
  intros HText Hcore Hcells.
  destruct (sorted_group_keys_ok _ Hcells) as (texts & Hks & Hsorted & Hmem).
  exists texts. eexists. split; [|split; [done|split; [done|]]].
  - unfold import_excel, groupby_Text. rewrite HText, Hks.
    pose proof (excel_group_fold df texts 0 [] [] Hcore eq_refl) as H.
    cbn [app Nat.add] in H. exact H.
  - intros i text Hi. exists (group_table df text). split.
    + by rewrite dict_get_group_tables, Hi.
    + apply annotation_tuples_group_table.
Qed.

(** The theorem on the sheet with rows for "b", "a", "b". *)
Lemma import_excel_groups_sorted_witness :
  exists texts annotations,
    import_excel sheet_b_a = Ok (VStr <$> texts, annotations)
    /\ StronglySorted str_lt texts
    /\ (forall s, s ∈ texts <-> VStr s ∈ df_column sheet_b_a Text)
    /\ (forall i text, texts !! i = Some text ->
          exists table,
            dict_get annotations (KInt (Z.of_nat i)) = Some table
            /\ annotation_tuples table
               = (fun row => (cell (columns sheet_b_a) row Citation,
                              cell (columns sheet_b_a) row Metadata,
                              cell (columns sheet_b_a) row Annotation_Text))
                   <$> group_rows sheet_b_a text).
Proof.
  refine (import_excel_groups_sorted sheet_b_a _ _ _); [reflexivity..|].
  repeat constructor; by vm_compute.
Defined.

(** ** Integers as text *)


Lemma pos_lt_pow2_size_nat (p : positive) :
  N.pos p < 2 ^ N.of_nat (Pos.size_nat p).
Proof.
  induction p as [p IH|p IH|]; cbn [Pos.size_nat];
    rewrite ?Nat2N.inj_succ, ?N.pow_succ_r'; lia.
Qed.

Lemma N_lt_pow2_size_nat (n : N) : n < 2 ^ N.of_nat (N.size_nat n).
Proof. destruct n as [|p]; [done|apply pos_lt_pow2_size_nat]. Qed.

Lemma digits_from_app (fuel : nat) (n : N) (acc : str) :
  digits_from fuel n acc = digits_from fuel n [] ++ acc.
Proof.
  revert n acc. induction fuel as [|fuel IH]; intros n acc; [done|].
  cbn [digits_from]. destruct (n <? 10); [done|].
  rewrite (IH _ (_ :: acc)), (IH _ [_]). by rewrite <- app_assoc.
Qed.

Lemma digits_value_app (a : N) (l1 l2 : str) :
  RefJson.digits_value a (l1 ++ l2)
  = RefJson.digits_value (RefJson.digits_value a l1) l2.
Proof. revert a. induction l1 as [|c l1 IH]; intros a; [done|]. apply IH. Qed.

Lemma digits_from_S (fuel : nat) (n : N) (acc : str) :
  digits_from (S fuel) n acc
  = if n <? 10 then (48 + n mod 10) :: acc
    else digits_from fuel (n / 10) ((48 + n mod 10) :: acc).
Proof. reflexivity. Qed.

(** The digits written for [n] are ASCII digits, at least one, and they
    denote [n]. *)
Lemma digits_from_spec (fuel : nat) (n : N) :
  n < 2 ^ N.of_nat (S fuel) ->
  digits_from (S fuel) n [] <> []
  /\ Forall is_digit_char (digits_from (S fuel) n [])
  /\ RefJson.digits_value 0 (digits_from (S fuel) n []) = n.
Proof.
  revert n. induction fuel as [|fuel IH]; intros n Hn.
  - rewrite digits_from_S. assert (n < 10) as Hlt by (cbn in Hn; lia).
    rewrite (proj2 (N.ltb_lt _ _) Hlt).
    pose proof (N.mod_small n 10 Hlt) as Hmod. rewrite Hmod.
    repeat split; [done| |cbn; lia].
    constructor; [cbn beta; lia|constructor].
  - rewrite digits_from_S. destruct (N.ltb_spec n 10) as [Hlt|Hge].
    + pose proof (N.mod_small n 10 Hlt) as Hmod. rewrite Hmod.
      repeat split; [done| |cbn; lia].
      constructor; [cbn beta; lia|constructor].
    + rewrite digits_from_app.
      assert (n / 10 < 2 ^ N.of_nat (S fuel)) as Hdiv.
      { rewrite Nat2N.inj_succ, N.pow_succ_r' in Hn.
        apply N.Div0.div_lt_upper_bound. lia. }
      destruct (IH _ Hdiv) as (Hne & Hall & Hval).
      pose proof (N.mod_lt n 10 ltac:(lia)) as Hmod.
      repeat split.
      * by destruct (digits_from (S fuel) (n / 10) []).
      * apply Forall_app. split; [done|].
        constructor; [|constructor]. cbn beta. revert Hmod.
        generalize (n mod 10). intros r Hr. lia.
      * rewrite digits_value_app, Hval. cbn [RefJson.digits_value].
        pose proof (N.div_mod n 10 ltac:(lia)) as Hdm. revert Hdm Hmod.
        generalize (n mod 10), (n / 10). intros r q Hdm Hr. lia.
Qed.

Lemma str_of_N_spec (n : N) :
  str_of_N n <> [] /\ Forall is_digit_char (str_of_N n)
  /\ RefJson.digits_value 0 (str_of_N n) = n.
Proof.
  apply digits_from_spec. pose proof (N_lt_pow2_size_nat n) as H.
  rewrite Nat2N.inj_succ, N.pow_succ_r'. revert H.
  generalize (2 ^ N.of_nat (N.size_nat n)). intros m Hm. lia.
Qed.

Section IntegerFacts.
Context {U : Unicode} (L : UnicodeLaws U).

Lemma digit_char_decimal (c : N) :
  is_digit_char c -> decimal_value c = Some (c - 48).
Proof.
  intros [Hlo Hhi]. replace c with (48 + (c - 48)) at 1 by lia.
  apply (decimal_ascii U L). lia.
Qed.

Lemma digit_char_not_space (c : N) : is_digit_char c -> isspace c = false.
Proof.
  intros [Hlo Hhi]. replace c with (48 + (c - 48)) by lia.
  apply (isspace_digit U L). lia.
Qed.

Lemma int_digits_ascii (ds : str) (a : N) (after_digit : bool) :
  Forall is_digit_char ds ->
  ds <> [] \/ after_digit = true ->
  int_digits a after_digit ds = Some (RefJson.digits_value a ds).
Proof.
  intros Hall. revert a after_digit.
  induction Hall as [|c ds Hc Hall IH]; intros a after_digit Hne.
  - destruct Hne as [? | ->]; done.
  - cbn [int_digits RefJson.digits_value].
    rewrite (proj2 (N.eqb_neq c 95)) by (destruct Hc; lia).
    rewrite digit_char_decimal by done. apply IH. by right.
Qed.

Lemma lstrip_head (c : N) (s : str) :
  isspace c = false -> lstrip isspace (c :: s) = c :: s.
Proof. intros H. cbn [lstrip]. by rewrite H. Qed.

(** Nothing is stripped from a string that neither starts nor ends
    with white space. *)
Lemma strip_id (c d : N) (s : str) :
  isspace c = false -> isspace d = false ->
  strip ((c :: s) ++ [d]) = (c :: s) ++ [d].
Proof.
  intros Hc Hd. unfold strip, strip_with.
  change ((c :: s) ++ [d]) with (c :: (s ++ [d])).
  rewrite lstrip_head by done.
  change (c :: (s ++ [d])) with ((c :: s) ++ [d]).
  rewrite rev_app_distr. cbn [rev app].
  rewrite lstrip_head by done.
  cbn [rev]. rewrite rev_app_distr, rev_involutive. done.
Qed.

Lemma strip_one (c : N) : isspace c = false -> strip [c] = [c].
Proof.
  intros Hc. unfold strip, strip_with.
  rewrite lstrip_head by done. cbn [rev app]. by rewrite lstrip_head.
Qed.

(** The same, for a non-empty string given by its first and last
    characters. *)
Lemma strip_digits (s : str) :
  Forall (fun c => isspace c = false) s -> strip s = s.
Proof.
  intros Hall. destruct s as [|c s]; [done|].
  destruct (rev s) as [|d r] eqn:Hr.
  - apply (f_equal (@rev N)) in Hr. rewrite rev_involutive in Hr. subst s.
    apply strip_one. by inversion Hall.
  - apply (f_equal (@rev N)) in Hr. rewrite rev_involutive in Hr.
    cbn [rev] in Hr. subst s.
    change (c :: (rev r ++ [d])) with ((c :: rev r) ++ [d]).
    apply strip_id.
    + by inversion Hall.
    + apply Forall_cons_1 in Hall as [_ Hall].
      apply Forall_app in Hall as [_ Hd]. by inversion Hd.
Qed.

Lemma digits_not_space (ds : str) :
  Forall is_digit_char ds -> Forall (fun c => isspace c = false) ds.
Proof.
  intros H. eapply Forall_impl; [exact H|].
  intros c. apply digit_char_not_space.
Qed.

(** A string of digits is read by the branch of [py_int] that has no
    sign. *)
Lemma py_int_unsigned (ds : str) :
  ds <> [] -> Forall is_digit_char ds ->
  py_int ds = Some (Z.of_N (RefJson.digits_value 0 ds)).
Proof.
  intros Hne Hall. unfold py_int.
  rewrite (strip_digits ds) by (by apply digits_not_space).
  destruct ds as [|c ds]; [done|].
  assert (48 <= c <= 57) as Hc by (by inversion Hall).
  rewrite (proj2 (N.eqb_neq c 45)), (proj2 (N.eqb_neq c 43)) by lia.
  by rewrite int_digits_ascii by (done || by left).
Qed.

(** [int(str(z)) == z] *)
Lemma py_int_str_of_Z (z : Z) : py_int (str_of_Z z) = Some z.
Proof.
  destruct z as [|p|p]; unfold str_of_Z.
  - destruct (str_of_N_spec 0) as (Hne & Hall & Hval).
    rewrite py_int_unsigned by done. by rewrite Hval.
  - destruct (str_of_N_spec (N.pos p)) as (Hne & Hall & Hval).
    rewrite py_int_unsigned by done. by rewrite Hval.
  - destruct (str_of_N_spec (N.pos p)) as (Hne & Hall & Hval).
    unfold py_int.
    rewrite (strip_digits (45 :: str_of_N (N.pos p))).
    + rewrite N.eqb_refl. rewrite int_digits_ascii by (done || by left).
      rewrite Hval. done.
    + constructor; [apply (isspace_minus U L)|].
      by apply digits_not_space.
Qed.

Lemma int_of_key_text (k : key) :
  (exists z, k = KInt z) -> int_of_key (KStr (key_text k)) = k.
Proof.
  intros [z ->]. cbn [key_text int_of_key]. by rewrite py_int_str_of_Z.
Qed.

(** Distinct integers are written differently. *)
Lemma str_of_Z_inj (z1 z2 : Z) : str_of_Z z1 = str_of_Z z2 -> z1 = z2.
Proof.
  intros H. apply (f_equal py_int) in H.
  rewrite !py_int_str_of_Z in H. congruence.
Qed.
End IntegerFacts.

(** ** The reference codec reads what it writes *)

(** Induction on values that reaches the items of lists and dicts. *)
Lemma value_ind_nested (P : value -> Prop) :
  P VNone ->
  (forall b, P (VBool b)) ->
  (forall z, P (VInt z)) ->
  (forall r, P (VFloat r)) ->
  (forall s, P (VStr s)) ->
  (forall items, Forall P items -> P (VList items)) ->
  (forall items, Forall (fun kv => P kv.2) items -> P (VDict items)) ->
  forall v, P v.
Proof.
  intros HNone HBool HInt HFloat HStr HList HDict.
  refine (fix IH (v : value) : P v :=
            match v with
            | VNone => HNone
            | VBool b => HBool b
            | VInt z => HInt z
            | VFloat r => HFloat r
            | VStr s => HStr s
            | VList items =>
                HList items
                  ((fix go (l : list value) : Forall P l :=
                      match l with
                      | [] => @List.Forall_nil _ _
                      | x :: l' => @List.Forall_cons _ P x l' (IH x) (go l')
                      end) items)
            | VDict items =>
                HDict items
                  ((fix go (l : list (key * value)) : Forall (fun kv => P kv.2) l :=
                      match l with
                      | [] => @List.Forall_nil _ _
                      | kv :: l' => @List.Forall_cons _ (fun kv => P kv.2) kv l' (IH kv.2) (go l')
                      end) items)
            end).
Qed.

Module RefJsonFacts.
Import RefJson.

(** *** Lexing *)

Lemma steps_app (lx : lexer) (a b : str) :
  steps lx (a ++ b)
  = match steps lx a with Some lx' => steps lx' b | None => None end.
Proof.
  revert lx. induction a as [|c a IH]; intros lx; [done|].
  cbn [app steps]. destruct (step lx c); [apply IH|done].
Qed.

Lemma steps_then (lx lx' : lexer) (a b : str) :
  steps lx a = Some lx' -> steps lx (a ++ b) = steps lx' b.
Proof. intros H. by rewrite steps_app, H. Qed.

Lemma steps_spaces (toks : list token) (n : nat) :
  steps (toks, Between) (replicate n 32) = Some (toks, Between).
Proof. induction n as [|n IH]; [done|exact IH]. Qed.

Lemma steps_newline_indent (toks : list token) (level : nat) :
  steps (toks, Between) (newline_indent level) = Some (toks, Between).
Proof. unfold newline_indent. cbn [steps]. apply steps_spaces. Qed.

(** A control character comes back from its escape. *)
Lemma steps_escape_control (toks : list token) (acc : str) (c : N) :
  c < 32 ->
  steps (toks, InString acc) (escape_char c) = Some (toks, InString (c :: acc)).
Proof.
  intros Hc. destruct c as [|p]; [done|].
  do 5 (destruct p as [p|p|]; try done); exfalso; lia.
Qed.

Lemma steps_escape_char (toks : list token) (acc : str) (c : N) :
  steps (toks, InString acc) (escape_char c) = Some (toks, InString (c :: acc)).
Proof.
  destruct (N.ltb_spec c 32) as [Hlt|Hge]; [by apply steps_escape_control|].
  destruct (N.eqb_spec c 34) as [->|H34]; [done|].
  destruct (N.eqb_spec c 92) as [->|H92]; [done|].
  unfold escape_char.
  rewrite (proj2 (N.eqb_neq c 34)), (proj2 (N.eqb_neq c 92)),
    (proj2 (N.eqb_neq c 10)), (proj2 (N.eqb_neq c 13)),
    (proj2 (N.eqb_neq c 9)), (proj2 (N.eqb_neq c 8)),
    (proj2 (N.eqb_neq c 12)), (proj2 (N.ltb_ge c 32)) by lia.
  cbn [steps step]. unfold step_string.
  by rewrite (proj2 (N.eqb_neq c 34)), (proj2 (N.eqb_neq c 92)),
    (proj2 (N.ltb_ge c 32)) by lia.
Qed.

Lemma steps_escaped (toks : list token) (acc s : str) :
  steps (toks, InString acc) (flat_map escape_char s)
  = Some (toks, InString (rev s ++ acc)).
Proof.
  revert acc. induction s as [|c s IH]; intros acc; [done|].
  cbn [flat_map]. rewrite (steps_then _ _ _ _ (steps_escape_char toks acc c)).
  rewrite IH. cbn [rev]. by rewrite <- app_assoc.
Qed.

Lemma steps_encode_string (toks : list token) (s : str) :
  steps (toks, Between) (encode_string s) = Some (TStr s :: toks, Between).
Proof.
  unfold encode_string. cbn [steps step step_between is_ws N.eqb orb].
  change (steps (toks, InString []) (flat_map escape_char s ++ [34])
          = Some (TStr s :: toks, Between)).
  rewrite (steps_then _ _ _ _ (steps_escaped toks [] s)).
  cbn. by rewrite app_nil_r, rev_involutive.
Qed.


Lemma steps_elements (level : nat) (xs : list value) (toks : list token) :
  Forall lexes xs -> forallb textual xs = true ->
  steps (toks, Between)
    (flat_map (fun y => lit "," ++ newline_indent level ++ dumps_at level y) xs)
  = Some (rev (flat_map (fun y => TComma :: tokens y) xs) ++ toks, Between).
Proof.
  intros Hall. revert toks. induction Hall as [|x xs Hx Hall IH]; intros toks Htext; [done|].
  cbn [forallb] in Htext. apply andb_prop in Htext as [Hxt Hxs].
  cbn [flat_map]. rewrite <- !app_assoc.
  change (lit "," ++ ?r) with (44 :: r).
  cbn [steps step step_between is_ws N.eqb orb].
  change (steps (TComma :: toks, Between)
            (newline_indent level ++ dumps_at level x ++ flat_map
               (fun y => lit "," ++ newline_indent level ++ dumps_at level y) xs)
          = Some (rev ((TComma :: tokens x) ++ flat_map (fun y => TComma :: tokens y) xs)
                  ++ toks, Between)).
  rewrite (steps_then _ _ _ _ (steps_newline_indent _ level)).
  rewrite (steps_then _ _ _ _ (Hx Hxt level _)).
  rewrite IH by done. rewrite rev_app_distr. cbn [rev].
  by rewrite <- !app_assoc.
Qed.

Lemma steps_members (level : nat) (ms : list (key * value)) (toks : list token) :
  Forall (fun kv => lexes kv.2) ms ->
  forallb (fun '(_, x) => textual x) ms = true ->
  steps (toks, Between)
    (flat_map (fun '(k, y) => lit "," ++ newline_indent level
                                ++ encode_string (key_text k) ++ lit ": "
                                ++ dumps_at level y) ms)
  = Some (rev (flat_map (fun '(k, y) => TComma :: TStr (key_text k) :: TColon
                                          :: tokens y) ms) ++ toks, Between).
Proof.
  intros Hall. revert toks.
  induction Hall as [|[k x] ms Hx Hall IH]; intros toks Htext; [done|].
  cbn [forallb] in Htext. apply andb_prop in Htext as [Hxt Hxs].
  cbn [flat_map snd] in *. rewrite <- !app_assoc.
  change (lit "," ++ ?r) with (44 :: r).
  cbn [steps step step_between is_ws N.eqb orb].
  change (steps (TComma :: toks, Between)
            (newline_indent level ++ encode_string (key_text k) ++ lit ": "
             ++ dumps_at level x ++ flat_map
               (fun '(k, y) => lit "," ++ newline_indent level
                                 ++ encode_string (key_text k) ++ lit ": "
                                 ++ dumps_at level y) ms)
          = Some (rev ((TComma :: TStr (key_text k) :: TColon :: tokens x)
                       ++ flat_map (fun '(k, y) => TComma :: TStr (key_text k)
                                                     :: TColon :: tokens y) ms)
                  ++ toks, Between)).
  rewrite (steps_then _ _ _ _ (steps_newline_indent _ level)).
  rewrite (steps_then _ _ _ _ (steps_encode_string _ _)).
  change (lit ": " ++ ?r) with (58 :: 32 :: r).
  cbn [steps step step_between is_ws N.eqb orb].
  change (steps (TColon :: TStr (key_text k) :: TComma :: toks, Between)
            (dumps_at level x ++ flat_map
               (fun '(k, y) => lit "," ++ newline_indent level
                                 ++ encode_string (key_text k) ++ lit ": "
                                 ++ dumps_at level y) ms)
          = Some (rev ((TComma :: TStr (key_text k) :: TColon :: tokens x)
                       ++ flat_map (fun '(k, y) => TComma :: TStr (key_text k)
                                                     :: TColon :: tokens y) ms)
                  ++ toks, Between)).
  rewrite (steps_then _ _ _ _ (Hx Hxt level _)).
  rewrite IH by done. rewrite rev_app_distr. cbn [rev].
  by rewrite <- !app_assoc.
Qed.

Lemma steps_dumps (v : value) : lexes v.
Proof.
  induction v as [| | | |s|items IH|items IH] using value_ind_nested;
    unfold lexes; try discriminate.
  - intros _ level toks. apply steps_encode_string.
  - intros Htext level toks. destruct items as [|x xs]; [done|].
    cbn [textual forallb] in Htext. apply andb_prop in Htext as [Hxt Hxs].
    apply Forall_cons_1 in IH as [Hx Hall].
    cbn [dumps_at tokens].
    change (lit "[" ++ ?r) with (91 :: r).
    cbn [steps step step_between is_ws N.eqb orb].
    change (steps (TLBracket :: toks, Between)
              (newline_indent (S level) ++ dumps_at (S level) x
               ++ flat_map (fun y => lit "," ++ newline_indent (S level)
                                       ++ dumps_at (S level) y) xs
               ++ newline_indent level ++ lit "]")
            = Some (rev (TLBracket :: tokens x
                         ++ flat_map (fun y => TComma :: tokens y) xs
                         ++ [TRBracket]) ++ toks, Between)).
    rewrite (steps_then _ _ _ _ (steps_newline_indent _ _)).
    rewrite (steps_then _ _ _ _ (Hx Hxt _ _)).
    rewrite (steps_then _ _ _ _ (steps_elements _ _ _ Hall Hxs)).
    rewrite (steps_then _ _ _ _ (steps_newline_indent _ _)).
    cbn [rev]. rewrite !rev_app_distr. cbn. by rewrite <- !app_assoc.
  - intros Htext level toks. destruct items as [|[k x] ms]; [done|].
    cbn [textual forallb] in Htext. apply andb_prop in Htext as [Hxt Hxs].
    apply Forall_cons_1 in IH as [Hx Hall]. cbn [snd] in Hx.
    cbn [dumps_at tokens].
    change (lit "{" ++ ?r) with (123 :: r).
    cbn [steps step step_between is_ws N.eqb orb].
    change (steps (TLBrace :: toks, Between)
              (newline_indent (S level) ++ encode_string (key_text k) ++ lit ": "
               ++ dumps_at (S level) x
               ++ flat_map (fun '(k', y) => lit "," ++ newline_indent (S level)
                                              ++ encode_string (key_text k')
                                              ++ lit ": " ++ dumps_at (S level) y) ms
               ++ newline_indent level ++ lit "}")
            = Some (rev (TLBrace :: TStr (key_text k) :: TColon :: tokens x
                         ++ flat_map (fun '(k', y) => TComma :: TStr (key_text k')
                                                        :: TColon :: tokens y) ms
                         ++ [TRBrace]) ++ toks, Between)).
    rewrite (steps_then _ _ _ _ (steps_newline_indent _ _)).
    rewrite (steps_then _ _ _ _ (steps_encode_string _ _)).
    change (lit ": " ++ ?r) with (58 :: 32 :: r).
    cbn [steps step step_between is_ws N.eqb orb].
    change (steps (TColon :: TStr (key_text k) :: TLBrace :: toks, Between)
              (dumps_at (S level) x
               ++ flat_map (fun '(k', y) => lit "," ++ newline_indent (S level)
                                              ++ encode_string (key_text k')
                                              ++ lit ": " ++ dumps_at (S level) y) ms
               ++ newline_indent level ++ lit "}")
            = Some (rev (TLBrace :: TStr (key_text k) :: TColon :: tokens x
                         ++ flat_map (fun '(k', y) => TComma :: TStr (key_text k')
                                                        :: TColon :: tokens y) ms
                         ++ [TRBrace]) ++ toks, Between)).
    rewrite (steps_then _ _ _ _ (Hx Hxt _ _)).
    rewrite (steps_then _ _ _ _ (steps_members _ _ _ Hall Hxs)).
    rewrite (steps_then _ _ _ _ (steps_newline_indent _ _)).
    cbn [rev]. rewrite !rev_app_distr. cbn. by rewrite <- !app_assoc.
Qed.

Lemma lex_dumps (v : value) :
  textual v = true -> lex (dumps v) = Some (tokens v).
Proof.
  intros Htext. unfold lex, dumps. rewrite (steps_dumps v Htext O []).
  cbn [finish]. by rewrite app_nil_r, rev_involutive.
Qed.

(** *** Parsing *)


(** The tokens of a value never start with a closing bracket. *)
Lemma tokens_head (v : value) :
  exists t ts, tokens v = t :: ts /\ t <> TRBracket.
Proof.
  destruct v as [| | | | |[|x xs]|[|[k x] ms]]; cbn [tokens]; eauto.
Qed.

Lemma parse_value_open_list (fuel : nat) (t : token) (ts : list token) :
  t <> TRBracket ->
  parse_value (S fuel) (TLBracket :: t :: ts)
  = match parse_value fuel (t :: ts) with
    | Some (x, rest') => parse_elements fuel [x] rest'
    | None => None
    end.
Proof. by destruct t. Qed.

Lemma parse_elements_tokens (xs : list value) :
  Forall parses xs -> forallb textual xs = true ->
  forall fuel acc rest,
    (length (flat_map (fun y => TComma :: tokens y) xs) < fuel)%nat ->
    parse_elements fuel acc
      (flat_map (fun y => TComma :: tokens y) xs ++ TRBracket :: rest)
    = Some (VList (rev acc ++ (json_image <$> xs)), rest).
Proof.
  induction 1 as [|x xs Hx Hall IH]; intros Htext fuel acc rest Hfuel.
  - destruct fuel as [|fuel]; [cbn in Hfuel; lia|].
    cbn. by rewrite app_nil_r.
  - cbn [forallb] in Htext. apply andb_prop in Htext as [Hxt Hxs].
    cbn [flat_map] in *. rewrite <- app_assoc. cbn [app].
    rewrite length_app in Hfuel. cbn [length] in Hfuel.
    destruct fuel as [|fuel]; [lia|].
    cbn [parse_elements].
    rewrite (Hx Hxt) by lia. rewrite IH by (done || lia).
    cbn [rev fmap list_fmap]. by rewrite <- app_assoc.
Qed.

Lemma parse_members_tokens (ms : list (key * value)) :
  Forall (fun kv => parses kv.2) ms ->
  forallb (fun '(_, x) => textual x) ms = true ->
  forall fuel acc rest,
    (length (flat_map (fun '(k, y) => TComma :: TStr (key_text k) :: TColon
                                        :: tokens y) ms) < fuel)%nat ->
    parse_members fuel acc
      (flat_map (fun '(k, y) => TComma :: TStr (key_text k) :: TColon
                                  :: tokens y) ms ++ TRBrace :: rest)
    = Some (VDict (dict_of
                     (rev acc
                      ++ ((fun '(k, y) => (KStr (key_text k), json_image y)) <$> ms))),
            rest).
Proof.
  induction 1 as [|[k x] ms Hx Hall IH]; intros Htext fuel acc rest Hfuel.
  - destruct fuel as [|fuel]; [cbn in Hfuel; lia|].
    cbn. by rewrite app_nil_r.
  - cbn [forallb] in Htext. apply andb_prop in Htext as [Hxt Hxs].
    cbn [flat_map snd] in *. rewrite <- app_assoc. cbn [app].
    rewrite length_app in Hfuel. cbn [length] in Hfuel.
    destruct fuel as [|fuel]; [lia|].
    cbn [parse_members].
    rewrite (Hx Hxt) by lia. rewrite IH by (done || lia).
    cbn [rev fmap list_fmap]. by rewrite <- app_assoc.
Qed.

Lemma parse_tokens (v : value) : parses v.
Proof.
  induction v as [| | | |s|items IH|items IH] using value_ind_nested;
    unfold parses; try discriminate.
  - intros _ [|fuel] rest Hfuel; [cbn in Hfuel; lia|done].
  - intros Htext fuel rest Hfuel. destruct items as [|x xs].
    { destruct fuel as [|fuel]; [cbn in Hfuel; lia|done]. }
    cbn [textual forallb] in Htext. apply andb_prop in Htext as [Hxt Hxs].
    apply Forall_cons_1 in IH as [Hx Hall].
    cbn [tokens] in *. cbn [length] in Hfuel. rewrite !length_app in Hfuel.
    destruct fuel as [|fuel]; [lia|].
    destruct (tokens_head x) as (t & ts & Hts & Ht).
    cbn [app]. rewrite <- !app_assoc.
    rewrite Hts at 1. cbn [app]. rewrite parse_value_open_list by done.
    change (t :: ts ++ ?r) with ((t :: ts) ++ r). rewrite <- Hts.
    rewrite (Hx Hxt) by lia.
    cbn [app]. rewrite (parse_elements_tokens xs Hall Hxs) by lia.
    done.
  - intros Htext fuel rest Hfuel. destruct items as [|[k x] ms].
    { destruct fuel as [|fuel]; [cbn in Hfuel; lia|done]. }
    cbn [textual forallb] in Htext. apply andb_prop in Htext as [Hxt Hxs].
    apply Forall_cons_1 in IH as [Hx Hall]. cbn [snd] in Hx.
    cbn [tokens] in *. cbn [length] in Hfuel. rewrite !length_app in Hfuel.
    destruct fuel as [|fuel]; [lia|].
    cbn [app parse_value]. rewrite <- !app_assoc.
    rewrite (Hx Hxt) by lia.
    cbn [app]. rewrite (parse_members_tokens ms Hall Hxs) by lia.
    done.
Qed.

(** The reference codec reads back what it wrote. *)
Lemma loads_dumps (v : value) :
  textual v = true -> loads (dumps v) = inr (json_image v).
Proof.
  intros Htext. unfold loads. rewrite lex_dumps by done.
  rewrite <- (app_nil_r (tokens v)) at 2.
  by rewrite (parse_tokens v Htext) by lia.
Qed.
End RefJsonFacts.

Lemma ref_json_laws : JsonLaws ref_json.
Proof. intros v Htext. by apply RefJsonFacts.loads_dumps. Qed.

(** ** JSON export and import *)









Lemma text_row_inv (row : list value) :
  (length row =? 3)%nat && forallb is_text row = true ->
  exists t, row = row_of t.
Proof.
  intros [Hlen Htext]%andb_prop. apply Nat.eqb_eq in Hlen.
  destruct row as [|[| | | |c| |] [|[| | | |m| |] [|[| | | |a| |] [|? ?]]]];
    try discriminate.
  by exists (c, m, a).
Qed.

Lemma text_table_inv (df : DataFrame) :
  is_text_table df = true ->
  exists triples, df = {| columns := core_columns; rows := row_of <$> triples |}.
Proof.
  destruct df as [cols rws]. unfold is_text_table. cbn [columns rows].
  intros [Hcols Hrows]%andb_prop. apply bool_decide_eq_true in Hcols as ->.
  assert (exists triples, rws = row_of <$> triples) as [triples ->]; [|by eexists].
  induction rws as [|row rws IH].
  - by exists [].
  - cbn [forallb] in Hrows. apply andb_prop in Hrows as [Hrow Hrows].
    destruct (text_row_inv _ Hrow) as [t ->].
    destruct (IH Hrows) as [triples ->]. by exists (t :: triples).
Qed.

Section TextTables.
Variable triples : list (str * str * str).

Lemma export_frame_text : export_frame (table_of triples) = table_of triples.
Proof.
  unfold export_frame, table_of, df_project. cbn [columns rows].
  change (forallb _ core_columns) with true. cbn match. f_equal.
  rewrite <- list_fmap_compose. apply list_fmap_ext. by intros ? [[c m] a] ?.
Qed.

Lemma to_dict_records_text :
  to_dict_records (table_of triples) = records_value triples.
Proof.
  unfold to_dict_records, records_value, table_of. cbn [columns rows]. f_equal.
  rewrite <- list_fmap_compose. apply list_fmap_ext. by intros ? [[c m] a] ?.
Qed.

Lemma json_image_records :
  json_image (records_value triples) = records_value triples.
Proof.
  unfold records_value. cbn [json_image]. f_equal. rewrite <- list_fmap_compose.
  apply list_fmap_ext. by intros ? [[c m] a] ?.
Qed.

Lemma textual_records :
  textual (records_value triples) = true.
Proof.
  unfold records_value. cbn [textual]. apply forallb_forall. intros v Hin.
  apply in_map_iff in Hin as ([[c m] a] & <- & _). done.
Qed.

Lemma has_key_records (k : key) :
  k ∉ core_columns ->
  has_key k (records_value triples) = false.
Proof.
  intros Hk. unfold records_value. cbn [has_key]. apply not_true_iff_false. intros H.
  apply existsb_exists in H as (v & Hin & Hv).
  apply in_map_iff in Hin as ([[c m] a] & <- & _).
  cbn [has_key record_of_triple annotation_record existsb] in Hv.
  rewrite !orb_false_r in Hv.
  apply Hk. repeat (apply orb_prop in Hv as [Hv|Hv];
                    [apply bool_decide_eq_true in Hv as <-; by repeat constructor|]).
  apply bool_decide_eq_true in Hv as <-. by repeat constructor.
Qed.

Lemma pd_DataFrame_records :
  pd_DataFrame (records_value triples) = Ok (reloaded triples).
Proof.
  unfold pd_DataFrame, records_value, reloaded.
  assert (as_records ((fun t => VDict (record_of_triple t)) <$> triples)
          = Some (record_of_triple <$> triples)) as ->; [|done].
  induction triples as [|t ts IH]; [done|].
  rewrite !fmap_cons. cbn [as_records]. by rewrite IH.
Qed.

Lemma record_labels_text_from (ts : list (str * str * str)) :
  fold_left (fun cols rec => fold_left add_label (rec.*1) cols)
    (record_of_triple <$> ts) core_columns = core_columns.
Proof.
  induction ts as [|[[c m] a] ts IH]; [done|].
  rewrite fmap_cons. cbn [fold_left]. exact IH.
Qed.

Lemma record_labels_text :
  record_labels (record_of_triple <$> triples)
  = match triples with [] => [] | _ :: _ => core_columns end.
Proof.
  unfold record_labels. destruct triples as [|[[c m] a] ts]; [done|].
  rewrite fmap_cons. cbn [fold_left]. apply record_labels_text_from.
Qed.

(** The table read back has the annotations of the table written. *)
Lemma annotation_tuples_reloaded :
  annotation_tuples (reloaded triples) = annotation_tuples (table_of triples).
Proof.
  unfold reloaded, frame_of_records, annotation_tuples, table_of. cbn [columns rows].
  rewrite record_labels_text. destruct triples as [|t ts]; [done|].
  rewrite <- !list_fmap_compose. apply list_fmap_ext. by intros ? [[c m] a] ?.
Qed.
End TextTables.

Lemma dict_get_fmap_values {V W} (f : V -> W) (d : list (key * V)) (k : key) :
  dict_get (prod_map id f <$> d) k = f <$> dict_get d k.
Proof.
  induction d as [|[k' v] d IH]; [done|].
  rewrite fmap_cons. cbn [prod_map fst snd id dict_get].
  by destruct (decide (k' = k)).
Qed.

Lemma fmap_fst_prod_map {V W} (f : V -> W) (d : list (key * V)) :
  (prod_map id f <$> d).*1 = d.*1.
Proof.
  rewrite <- list_fmap_compose. apply list_fmap_ext. by intros ? [k v] ?.
Qed.

Lemma text_passages_inv (ps : list value) :
  forallb is_text ps = true -> exists texts, ps = VStr <$> texts.
Proof.
  induction ps as [|p ps IH]; cbn [forallb]; intros H.
  - by exists [].
  - apply andb_prop in H as [Hp Hps]. destruct (IH Hps) as [texts ->].
    destruct p; try discriminate. by exists (s :: texts).
Qed.

Lemma text_annotations_inv (an : list (key * DataFrame)) :
  forallb (fun '(k, df) => is_int_key k && is_text_table df) an = true ->
  exists d0 : list (key * list (str * str * str)),
    an = prod_map id table_of <$> d0
    /\ Forall (fun kt => exists z, kt.1 = KInt z) d0.
Proof.
  induction an as [|[k df] an IH]; cbn [forallb]; intros H.
  - by exists [].
  - apply andb_prop in H as [[Hk Hdf]%andb_prop Han].
    destruct (IH Han) as (d0 & -> & Hd0).
    destruct (text_table_inv _ Hdf) as [triples ->].
    exists ((k, triples) :: d0). split; [done|].
    constructor; [|done]. destruct k; [by eexists|discriminate].
Qed.

(** A corpus of the data model, opened up. *)
Lemma text_corpus_inv (st : State) :
  text_corpus st = true ->
  exists (texts : list str) (d0 : list (key * list (str * str * str))),
    text_passages st = VStr <$> texts
    /\ annotations st = prod_map id table_of <$> d0
    /\ NoDup d0.*1
    /\ Forall (fun kt => exists z, kt.1 = KInt z) d0.
Proof.
  unfold text_corpus. intros [[Hps Hnd]%andb_prop Han]%andb_prop.
  destruct (text_passages_inv _ Hps) as [texts Htexts].
  destruct (text_annotations_inv _ Han) as (d0 & Hd0 & Hkeys).
  exists texts, d0. repeat split; try done.
  apply bool_decide_eq_true in Hnd. by rewrite Hd0, fmap_fst_prod_map in Hnd.
Qed.

(** What [export_data] builds for a corpus of the data model. *)
Lemma export_annotations_fold (d0 : list (key * list (str * str * str)))
    (acc : list (key * value)) :
  NoDup (acc.*1 ++ d0.*1) ->
  fold_left
    (fun d '(passage_index, annotations_df) =>
       dict_set d passage_index (to_dict_records (export_frame annotations_df)))
    (prod_map id table_of <$> d0) acc
  = acc ++ (prod_map id records_value <$> d0).
Proof.
  revert acc. induction d0 as [|[k t] d0 IH]; intros acc Hnd.
  - by rewrite app_nil_r.
  - rewrite !fmap_cons. cbn [fold_left prod_map fst snd id].
    rewrite export_frame_text, to_dict_records_text. rewrite dict_set_fresh.
    + rewrite IH.
      * by rewrite <- app_assoc.
      * rewrite fmap_app. cbn [fmap list_fmap fst].
        rewrite <- app_assoc. exact Hnd.
    + apply NoDup_app in Hnd as (_ & Hdis & _). intros Hin.
      apply (Hdis _ Hin). rewrite fmap_cons. left.
Qed.

Lemma export_data_text (st : State) (texts : list str)
    (d0 : list (key * list (str * str * str))) :
  text_passages st = VStr <$> texts ->
  annotations st = prod_map id table_of <$> d0 ->
  NoDup d0.*1 ->
  export_data st
  = VDict [ (KStr (lit "text_passages"), VList (VStr <$> texts));
            (KStr (lit "annotations"), VDict (prod_map id records_value <$> d0)) ].
Proof.
  intros Hps Han Hnd. unfold export_data. rewrite Hps, Han.
  by rewrite export_annotations_fold.
Qed.


Lemma text_passages_key_ne : KStr (lit "text_passages") <> KStr (lit "annotations").
Proof. intros H. vm_compute in H. discriminate H. Qed.

Section RoundTrip.
Context {U : Unicode} (LU : UnicodeLaws U).

Lemma key_text_inj_on (d0 : list (key * list (str * str * str))) :
  Forall (fun kt => exists z, kt.1 = KInt z) d0 ->
  NoDup d0.*1 ->
  NoDup (json_items d0).*1.
Proof.
  intros Hkeys Hnd. unfold json_items. rewrite <- list_fmap_compose.
  induction Hkeys as [|[k t] d0 [z Hz] Hkeys IH]; [constructor|].
  cbn [fst] in Hz. subst k. rewrite fmap_cons in *.
  apply NoDup_cons in Hnd as [Hk Hnd]. apply NoDup_cons. split; [|by apply IH].
  cbn [compose fst key_text]. intros Hin.
  apply list_elem_of_fmap in Hin as ([k' t'] & Heq & Hin).
  apply Hk. apply list_elem_of_fmap. exists (k', t'). split; [|done].
  cbn [compose fst] in *. injection Heq as Heq.
  apply (proj1 (Forall_forall _ _) Hkeys) in Hin as [z' Hz'].
  cbn [fst] in Hz'. subst k'. cbn [key_text] in Heq.
  by rewrite (str_of_Z_inj LU _ _ Heq).
Qed.

Lemma json_image_export (texts : list str)
    (d0 : list (key * list (str * str * str))) :
  Forall (fun kt => exists z, kt.1 = KInt z) d0 ->
  NoDup d0.*1 ->
  json_image
    (VDict [ (KStr (lit "text_passages"), VList (VStr <$> texts));
             (KStr (lit "annotations"), VDict (prod_map id records_value <$> d0)) ])
  = VDict [ (KStr (lit "text_passages"), VList (VStr <$> texts));
            (KStr (lit "annotations"), VDict (json_items d0)) ].
Proof.
  intros Hkeys Hnd. cbn [json_image fmap list_fmap key_text].
  unfold dict_of at 1. cbn [fold_left fst snd dict_set].
  rewrite decide_False by apply text_passages_key_ne. do 4 f_equal.
  - f_equal. rewrite <- list_fmap_compose. by apply list_fmap_ext.
  - do 2 f_equal.
    assert ((fun '(k, x) => (KStr (key_text k), json_image x))
              <$> (prod_map id records_value <$> d0) = json_items d0) as ->.
    { unfold json_items. rewrite <- list_fmap_compose.
      apply list_fmap_ext. intros ? [k t] ?.
      cbn [compose prod_map fst snd id]. by rewrite json_image_records. }
    apply dict_of_NoDup. by apply key_text_inj_on.
Qed.

Lemma textual_export (texts : list str)
    (d0 : list (key * list (str * str * str))) :
  textual
    (VDict [ (KStr (lit "text_passages"), VList (VStr <$> texts));
             (KStr (lit "annotations"), VDict (prod_map id records_value <$> d0)) ])
  = true.
Proof.
  cbn [textual forallb]. rewrite !andb_true_r. apply andb_true_intro. split.
  - apply forallb_forall. intros v Hin.
    by apply in_map_iff in Hin as (s & <- & _).
  - apply forallb_forall. intros [k v] Hin.
    apply in_map_iff in Hin as ([k' t] & [= <- <-] & _).
    apply textual_records.
Qed.

(** The loop of [load_data] over the members written for a corpus. *)
Lemma load_items (d0 : list (key * list (str * str * str))) :
  Forall (fun kt => exists z, kt.1 = KInt z) d0 ->
  forall s : State,
    NoDup ((annotations s).*1 ++ d0.*1) ->
    for_each (json_items d0) load_item s
    = (Ok tt, set_annotations (annotations s ++ (prod_map id reloaded <$> d0)) s).
Proof.
  induction 1 as [|[k t] d0 Hk Hkeys IH]; intros s Hnd.
  - unfold json_items. cbn [fmap list_fmap for_each ret].
    rewrite app_nil_r. by destruct s.
  - unfold json_items in *. rewrite !fmap_cons. cbn [for_each fst snd].
    unfold bind at 1. unfold load_item at 1. unfold bind at 1, lift.
    rewrite (int_of_key_text LU k Hk), pd_DataFrame_records.
    unfold modify at 1. rewrite dict_set_fresh.
    + rewrite IH.
      * cbn [set_annotations annotations text_passages errors prod_map fst snd id].
        by rewrite <- app_assoc.
      * cbn [set_annotations annotations]. rewrite fmap_app.
        cbn [fmap list_fmap fst]. rewrite <- app_assoc. exact Hnd.
    + apply NoDup_app in Hnd as (_ & Hdis & _). intros Hin.
      apply (Hdis _ Hin). rewrite fmap_cons. left.
Qed.
End RoundTrip.

Lemma has_key_export (k : key) (texts : list str)
    (d0 : list (key * list (str * str * str))) :
  k ∉ core_columns ->
  k <> KStr (lit "text_passages") -> k <> KStr (lit "annotations") ->
  k ∉ d0.*1 ->
  has_key k
    (VDict [ (KStr (lit "text_passages"), VList (VStr <$> texts));
             (KStr (lit "annotations"), VDict (prod_map id records_value <$> d0)) ])
  = false.
Proof.
  intros Hcore Htp Han Hd0. cbn [has_key existsb].
  rewrite !bool_decide_eq_false_2 by done. rewrite orb_false_r. cbn [orb].
  apply orb_false_intro.
  - apply not_true_iff_false. intros H.
    apply existsb_exists in H as (v & Hin & Hv).
    by apply in_map_iff in Hin as (s & <- & _).
  - apply not_true_iff_false. intros H.
    apply existsb_exists in H as ([k' v] & Hin & Hv).
    apply in_map_iff in Hin as ([k0 t] & [= <- <-] & Hin).
    cbn [id] in Hv. apply orb_prop in Hv as [Hv|Hv].
    + apply bool_decide_eq_true in Hv as <-. apply Hd0.
      apply list_elem_of_fmap. exists (k0, t). split; [done|].
      by apply list_elem_of_In.
    + by rewrite has_key_records in Hv.
Qed.

Lemma Found_in_Text_not_core : Found_in_Text ∉ core_columns.
Proof.
  unfold core_columns. rewrite !not_elem_of_cons.
  repeat split; try (intros H; vm_compute in H; discriminate H).
  apply not_elem_of_nil.
Qed.

(** C3.  For a corpus of the data model (text passages; tables with
    exactly the three core columns and text cells, keyed by integers),
    [load_data(save_data())] succeeds from any prior state and gives the
    same passage list in the same order and, under every key, a table
    with the same ordered list of (citation, metadata, annotation text);
    no record of the exported data has the key "Found in Text".  It holds
    for every JSON library that reads back what it writes. *)
Theorem json_round_trip {U : Unicode} (LU : UnicodeLaws U)
    {J : Json} (LJ : JsonLaws J) (st before : State) :
  text_corpus st = true ->
  has_key Found_in_Text (export_data st) = false
  /\ exists st',
       load_data (save_data st) before = (Ok true, st')
       /\ text_passages st' = text_passages st
       /\ (annotations st').*1 = (annotations st).*1
       /\ (forall k df,
             dict_get (annotations st) k = Some df ->
             exists df', dict_get (annotations st') k = Some df'
                         /\ annotation_tuples df' = annotation_tuples df)
       /\ errors st' = errors before.
Proof.
  intros Hst.
  destruct (text_corpus_inv st Hst) as (texts & d0 & Hps & Han & Hnd & Hkeys).
  pose proof (export_data_text st texts d0 Hps Han Hnd) as Hexp.
  split.
  - rewrite Hexp. apply has_key_export.
    + apply Found_in_Text_not_core.
    + intros H. vm_compute in H. discriminate H.
    + intros H. vm_compute in H. discriminate H.
    + intros Hin. apply list_elem_of_fmap in Hin as ([k t] & Hk & Hin).
      apply (proj1 (Forall_forall _ _) Hkeys) in Hin as [z Hz].
      cbn [fst] in *. by subst.
  - exists {| text_passages := VStr <$> texts;
              annotations := prod_map id reloaded <$> d0;
              errors := errors before |}.
    split; [|split; [done|split; [|split; [|done]]]].
    + unfold load_data, save_data. rewrite Hexp.
      rewrite LJ by apply textual_export.
      rewrite (json_image_export LU) by done.
      cbn [dict_get]. rewrite decide_True by done.
      rewrite decide_False by apply text_passages_key_ne.
      rewrite decide_True by done.
      cbn [default from_option id]. unfold bind, modify.
      rewrite (load_items LU d0 Hkeys) by (by cbn).
      by cbn.
    + cbn [annotations]. by rewrite Han, !fmap_fst_prod_map.
    + intros k df Hdf. cbn [annotations]. rewrite Han in Hdf.
      rewrite dict_get_fmap_values in *.
      destruct (dict_get d0 k) as [t|]; [|done].
      injection Hdf as <-. exists (reloaded t). split; [done|].
      apply annotation_tuples_reloaded.
Qed.

(** The theorem on the corpus of the specification's scenario, with the
    reference codec. *)
Lemma json_round_trip_witness :
  has_key Found_in_Text (export_data fuchs_corpus) = false
  /\ exists st',
       @load_data latin1 ref_json (@save_data ref_json fuchs_corpus) three_passages
       = (Ok true, st')
       /\ text_passages st' = text_passages fuchs_corpus
       /\ (annotations st').*1 = (annotations fuchs_corpus).*1
       /\ (forall k df,
             dict_get (annotations fuchs_corpus) k = Some df ->
             exists df', dict_get (annotations st') k = Some df'
                         /\ annotation_tuples df' = annotation_tuples df)
       /\ errors st' = errors three_passages.
Proof.
  refine (json_round_trip latin1_laws ref_json_laws fuchs_corpus three_passages _).
  reflexivity.
Defined.


(** C4 as stated fails on the well-formed document
    [{"text_passages": ["x"], "annotations": 5}]: the passages have been
    replaced and the annotations emptied when [5.items()] raises, and
    nothing is reported. *)
Lemma load_data_wrong_shape :
  ~ @failure_leaves_corpus latin1 ref_json wrong_shape_json three_passages
  /\ @load_data latin1 ref_json wrong_shape_json three_passages
     = (Raise AttributeError,
        {| text_passages := [VStr (lit "x")]; annotations := []; errors := [] |}).
Proof.
  assert (@load_data latin1 ref_json wrong_shape_json three_passages
          = (Raise AttributeError,
             {| text_passages := [VStr (lit "x")]; annotations := [];
                errors := [] |})) as Hrun by (by vm_compute).
  split; [|exact Hrun].
  intros H. destruct (H _ _ Hrun) as [Hr _]; [discriminate|discriminate Hr].
Qed.

(** C4, as the code has it.  When the input is not well-formed JSON
    ([json.loads] raises [JSONDecodeError]), [load_data] reports the
    decode error, returns [False], and the passage list and the
    annotation tables are what they were. *)
Theorem load_data_decode_error {U : Unicode} {J : Json}
    (json_str msg : str) (st : State) :
  json_loads json_str = inl msg ->
  exists st',
    load_data json_str st = (Ok false, st')
    /\ errors st' = errors st ++ [lit "Fehler beim Laden der JSON-Datei: " ++ msg]
    /\ text_passages st' = text_passages st
    /\ annotations st' = annotations st.
Proof.
  intros Hloads. eexists. unfold load_data. rewrite Hloads.
  split; [reflexivity|]. by cbn.
Qed.

(** The theorem on a malformed document, with the reference codec. *)
Lemma load_data_decode_error_witness :
  exists st',
    @load_data latin1 ref_json malformed_json three_passages = (Ok false, st')
    /\ errors st' = errors three_passages
                    ++ [lit "Fehler beim Laden der JSON-Datei: " ++ RefJson.decode_error]
    /\ text_passages st' = text_passages three_passages
    /\ annotations st' = annotations three_passages.
Proof.
  refine (@load_data_decode_error latin1 ref_json malformed_json
            RefJson.decode_error three_passages _).
  reflexivity.
Defined.

(** * Further properties *)

(** ** Dictionaries, continued *)

Section DictMore.
Context {V : Type}.
Implicit Types (d : list (key * V)) (k : key) (v : V).

Lemma dict_get_is_Some d k : is_Some (dict_get d k) <-> k ∈ d.*1.
Proof.
  destruct (decide (k ∈ d.*1)) as [Hin|Hn].
  - split; [done|intros _]. destruct (dict_get d k) eqn:E; [by eexists|].
    by apply dict_get_None in E.
  - split; [|done]. apply dict_get_None in Hn. rewrite Hn. by intros [? ?].
Qed.

Lemma dict_mem_true d k : dict_mem d k = true <-> k ∈ d.*1.
Proof.
  rewrite <- dict_get_is_Some. unfold dict_mem.
  destruct (dict_get d k).
  - split; [by eexists|done].
  - split; [done|by intros [? ?]].
Qed.

Lemma dict_set_keys_present d k v : k ∈ d.*1 -> (dict_set d k v).*1 = d.*1.
Proof.
  induction d as [|[k' v'] d IH]; cbn [dict_set fmap list_fmap fst].
  - by intros ?%elem_of_nil.
  - intros Hin. destruct (decide (k' = k)) as [->|Hne]; [done|].
    cbn [fmap list_fmap fst]. f_equal. apply IH.
    by apply elem_of_cons in Hin as [->|Hin].
Qed.

Lemma dict_set_same d k v : dict_get d k = Some v -> dict_set d k v = d.
Proof.
  induction d as [|[k' v'] d IH]; cbn [dict_get dict_set]; [done|].
  destruct (decide (k' = k)) as [->|Hne].
  - by intros [= ->].
  - intros H. by rewrite IH.
Qed.

Lemma dict_set_set d k v w : dict_set (dict_set d k v) k w = dict_set d k w.
Proof.
  induction d as [|[k' v'] d IH]; cbn [dict_set].
  - by rewrite decide_True.
  - destruct (decide (k' = k)) as [->|Hne]; cbn [dict_set].
    + by rewrite decide_True.
    + rewrite decide_False by done. by rewrite IH.
Qed.

Lemma dict_get_elem d k v : dict_get d k = Some v -> (k, v) ∈ d.
Proof.
  induction d as [|[k' v'] d IH]; cbn [dict_get]; [done|].
  destruct (decide (k' = k)) as [->|Hne].
  - intros [= ->]. left.
  - intros H. right. by apply IH.
Qed.

Lemma Forall_dict_set (P : key * V -> Prop) d k v :
  Forall P d -> (forall k', P (k', v)) -> Forall P (dict_set d k v).
Proof.
  intros Hd Hv. induction Hd as [|[k' v'] d Hx Hd IH]; cbn [dict_set].
  - by constructor.
  - destruct (decide (k' = k)) as [->|Hne]; by constructor.
Qed.

Lemma Forall_dict_del (P : key * V -> Prop) d k :
  Forall P d -> Forall P (dict_del d k).
Proof.
  intros Hd. induction Hd as [|[k' v'] d Hx Hd IH]; cbn [dict_del]; [done|].
  destruct (decide (k' = k)); [done|by constructor].
Qed.

(** Two dicts with the same keys and the same values are the same. *)
Lemma dict_ext d d' :
  d.*1 = d'.*1 -> NoDup d.*1 ->
  (forall k, k ∈ d.*1 -> dict_get d k = dict_get d' k) -> d = d'.
Proof.
  revert d'. induction d as [|[k v] d IH]; intros [|[k' v'] d'];
    cbn [fmap list_fmap fst]; try done.
  intros [= <- Hkeys] [Hk Hnd]%NoDup_cons Hget.
  pose proof (Hget k ltac:(left)) as H0. cbn [dict_get] in H0.
  rewrite !decide_True in H0 by done. injection H0 as <-.
  f_equal. apply IH; [done|done|].
  intros k0 Hk0. pose proof (Hget k0 ltac:(by right)) as H1.
  cbn [dict_get] in H1.
  by rewrite !decide_False in H1 by (by intros ->).
Qed.
End DictMore.

(** ** Cells and labels *)

Lemma column_index_lookup (cols : list key) (c : key) (i : nat) :
  column_index cols c = Some i -> cols !! i = Some c.
Proof.
  revert i. induction cols as [|c' cols IH]; intros i; cbn [column_index]; [done|].
  destruct (decide (c' = c)) as [->|Hne].
  - by intros [= <-].
  - destruct (column_index cols c) as [j|]; [|done].
    intros [= <-]. by apply IH.
Qed.

Lemma column_index_None (cols : list key) (c : key) :
  column_index cols c = None <-> c ∉ cols.
Proof.
  induction cols as [|c' cols IH]; cbn [column_index].
  - split; [intros _; apply not_elem_of_nil|done].
  - rewrite not_elem_of_cons. destruct (decide (c' = c)) as [->|Hne].
    + split; [done|]. by intros [? _].
    + destruct (column_index cols c); cbn.
      * split; [done|]. intros [_ H]. by apply IH in H.
      * split; [|done]. intros _. split; [done|]. by apply IH.
Qed.

Lemma column_index_NoDup (cols : list key) (c : key) (i : nat) :
  NoDup cols -> cols !! i = Some c -> column_index cols c = Some i.
Proof.
  revert i. induction cols as [|c' cols IH]; intros i Hnd Hi; [done|].
  apply NoDup_cons in Hnd as [Hc' Hnd]. cbn [column_index].
  destruct i as [|i].
  - injection Hi as ->. by rewrite decide_True.
  - change (cols !! i = Some c) in Hi.
    rewrite decide_False.
    + by rewrite (IH i Hnd Hi).
    + intros ->. apply Hc'. by eapply list_elem_of_lookup_2.
Qed.

Lemma has_column_elem (df : DataFrame) (c : key) :
  has_column df c = true <-> c ∈ columns df.
Proof.
  unfold has_column. destruct (column_index (columns df) c) eqn:E.
  - split; [intros _|done]. apply column_index_lookup in E.
    by eapply list_elem_of_lookup_2.
  - split; [done|]. intros Hin. by apply column_index_None in E.
Qed.

(** A row laid out under labels reads as it was laid out. *)
Lemma cell_reread (cols : list key) (f : key -> value) (c : key) :
  c ∈ cols -> cell cols (f <$> cols) c = f c.
Proof.
  intros Hin. unfold cell. destruct (column_index cols c) as [i|] eqn:E.
  - apply column_index_lookup in E. by rewrite list_lookup_fmap, E.
  - by apply column_index_None in E.
Qed.

Lemma cell_absent (cols : list key) (row : list value) (c : key) :
  c ∉ cols -> cell cols row c = NaN.
Proof. intros H. unfold cell. apply column_index_None in H. by rewrite H. Qed.

(** Reading every label of a full row gives the row. *)
Lemma cell_self (cols : list key) (row : list value) :
  NoDup cols -> length row = length cols -> cell cols row <$> cols = row.
Proof.
  intros Hnd Hlen. apply list_eq. intros i. rewrite list_lookup_fmap.
  destruct (cols !! i) as [c|] eqn:E; cbn.
  - unfold cell. rewrite (column_index_NoDup _ _ _ Hnd E).
    destruct (row !! i) eqn:Er; [done|].
    apply lookup_ge_None in Er. apply lookup_lt_Some in E. lia.
  - symmetry. apply lookup_ge_None. apply lookup_ge_None in E. lia.
Qed.

Lemma add_label_elem (cols : list key) (c x : key) :
  x ∈ add_label cols c <-> x ∈ cols \/ x = c.
Proof.
  unfold add_label. case_bool_decide.
  - split; [by left|]. by intros [?| ->].
  - by rewrite elem_of_app, list_elem_of_singleton.
Qed.

Lemma add_label_NoDup (cols : list key) (c : key) :
  NoDup cols -> NoDup (add_label cols c).
Proof.
  unfold add_label. case_bool_decide; [done|]. intros Hnd.
  apply NoDup_app. split; [done|]. split; [|apply NoDup_singleton].
  by intros x Hx ->%list_elem_of_singleton.
Qed.

Lemma fold_add_label_elem (new cols : list key) (x : key) :
  x ∈ fold_left add_label new cols <-> x ∈ cols \/ x ∈ new.
Proof.
  revert cols. induction new as [|c new IH]; intros cols; cbn [fold_left].
  - split; [by left|]. intros [?|?%elem_of_nil]; done.
  - rewrite IH, add_label_elem, elem_of_cons. tauto.
Qed.

Lemma fold_add_label_NoDup (new cols : list key) :
  NoDup cols -> NoDup (fold_left add_label new cols).
Proof.
  revert cols. induction new as [|c new IH]; intros cols Hnd; [done|].
  cbn [fold_left]. by apply IH, add_label_NoDup.
Qed.

Lemma fold_add_label_present (new cols : list key) :
  Forall (fun c => c ∈ cols) new -> fold_left add_label new cols = cols.
Proof.
  induction 1 as [|c new Hc Hnew IH]; [done|]. cbn [fold_left].
  unfold add_label at 2. by rewrite bool_decide_eq_true_2.
Qed.

Lemma NoDup_core_columns : NoDup core_columns.
Proof. apply (bool_decide_unpack _). by vm_compute. Qed.

Lemma core_columns_elem (c : key) :
  c ∈ core_columns <-> c = Citation \/ c = Metadata \/ c = Annotation_Text.
Proof.
  unfold core_columns. rewrite !elem_of_cons.
  pose proof (not_elem_of_nil c). tauto.
Qed.

(** ** Adding an annotation *)

Lemma holds_number_blank (c : key) : holds_number blank_frame c = false.
Proof.
  unfold holds_number, df_column, blank_frame. cbn [rows columns fmap list_fmap existsb].
  unfold cell. by destruct (column_index core_columns c) as [[|[|[|i]]]|].
Qed.

Lemma holds_number_absent (df : DataFrame) (c : key) :
  c ∉ columns df -> holds_number df c = false.
Proof.
  intros Hc. unfold holds_number, df_column. apply not_true_iff_false.
  intros (v & Hin & Hv)%existsb_exists.
  apply in_map_iff in Hin as (row & <- & _).
  by rewrite cell_absent in Hv.
Qed.

Lemma plain_table_inv (df : DataFrame) :
  plain_table df = true ->
  NoDup (columns df)
  /\ forall c, c ∉ core_columns -> holds_number df c = false.
Proof.
  unfold plain_table. intros [Hnd Hplain]%andb_prop.
  apply bool_decide_eq_true in Hnd. split; [done|]. intros c Hc.
  destruct (decide (c ∈ columns df)) as [Hin|Hout].
  - pose proof (proj1 (forallb_forall _ _) Hplain c
                  (proj1 (list_elem_of_In _ _) Hin)) as H.
    cbn beta in H. rewrite bool_decide_eq_false_2 in H by done.
    by apply negb_true_iff in H.
  - by apply holds_number_absent.
Qed.

Lemma plain_table_intro (df : DataFrame) :
  NoDup (columns df) ->
  (forall c, c ∉ core_columns -> holds_number df c = false) ->
  plain_table df = true.
Proof.
  intros Hnd Hplain. unfold plain_table.
  rewrite bool_decide_eq_true_2 by done. cbn [andb].
  apply forallb_forall. intros c _.
  destruct (decide (c ∈ core_columns)) as [Hin|Hout].
  - by rewrite bool_decide_eq_true_2.
  - rewrite Hplain by done. apply orb_true_r.
Qed.

(** What [pd.concat] gives when a blank annotation is put under a plain
    table. *)
Lemma pd_concat_blank (df : DataFrame) :
  plain_table df = true ->
  pd_concat df blank_frame
  = Ok {| columns := fold_left add_label core_columns (columns df);
          rows := rows (df_project df (fold_left add_label core_columns (columns df)))
                  ++ [cell core_columns blank_row
                        <$> fold_left add_label core_columns (columns df)] |}.
Proof.
  intros Hplain. destruct (plain_table_inv df Hplain) as [Hnd Hnum].
  unfold pd_concat. rewrite bool_decide_eq_true_2 by done.
  rewrite bool_decide_eq_true_2 by apply NoDup_core_columns. cbn [andb].
  assert (existsb (fun c => upcast df blank_frame c || upcast blank_frame df c)
            (fold_left add_label (columns blank_frame) (columns df)) = false) as ->.
  { apply not_true_iff_false. intros (c & _ & Hup)%existsb_exists.
    unfold upcast in Hup. rewrite holds_number_blank in Hup.
    rewrite orb_false_r in Hup. apply andb_prop in Hup as [Hc Hmix].
    destruct (decide (c ∈ core_columns)) as [Hin|Hout].
    - apply core_columns_elem in Hin as [-> | [-> | ->]]; by vm_compute in Hmix.
    - by rewrite Hnum in Hc. }
  reflexivity.
Qed.

(** A blank annotation read under labels that include the core ones. *)
Lemma cell_blank_row (cols : list key) (c : key) :
  c ∈ core_columns -> c ∈ cols ->
  cell cols (cell core_columns blank_row <$> cols) c = VStr [].
Proof.
  intros Hcore Hin. rewrite cell_reread by done.
  by apply core_columns_elem in Hcore as [-> | [-> | ->]].
Qed.

(** X1.  [add_annotation_row(p)] on a passage without a table raises
    [KeyError] and changes nothing.  On a passage whose table is plain
    it puts exactly one blank annotation after the annotations that were
    there; the passages, the keys and the tables of the other passages
    stay as they were. *)
Theorem add_annotation_row_appends (st : State) (p : key) :
  (dict_get (annotations st) p = None ->
   add_annotation_row p st = (Raise KeyError, st))
  /\ (forall df,
        dict_get (annotations st) p = Some df ->
        plain_table df = true ->
        exists st' df',
          add_annotation_row p st = (Ok tt, st')
          /\ text_passages st' = text_passages st
          /\ errors st' = errors st
          /\ (annotations st').*1 = (annotations st).*1
          /\ (forall q, q <> p ->
                dict_get (annotations st') q = dict_get (annotations st) q)
          /\ dict_get (annotations st') p = Some df'
          /\ annotation_tuples df'
             = annotation_tuples df ++ [(VStr [], VStr [], VStr [])]
          /\ df_len df' = (df_len df + 1)%Z).
Proof.
  split.
  - intros Hnone. unfold add_annotation_row, bind, get_state, lift.
    by rewrite Hnone.
  - intros df Hdf Hplain.
    set (cols := fold_left add_label core_columns (columns df)).
    set (df' := {| columns := cols;
                   rows := rows (df_project df cols)
                           ++ [cell core_columns blank_row <$> cols] |}).
    exists (set_annotations (dict_set (annotations st) p df') st), df'.
    assert (forall c, c ∈ core_columns -> c ∈ cols) as Hcore.
    { intros c Hc. apply fold_add_label_elem. by right. }
    split; [|split; [done|split; [done|split; [|split; [|split; [|split]]]]]].
    + unfold add_annotation_row, bind, get_state, lift. rewrite Hdf.
      by rewrite pd_concat_blank.
    + cbn [set_annotations annotations]. apply dict_set_keys_present.
      apply dict_get_is_Some. by rewrite Hdf.
    + intros q Hq. cbn [set_annotations annotations].
      by apply dict_get_set_ne.
    + cbn [set_annotations annotations]. apply dict_get_set_eq.
    + unfold annotation_tuples, df', df_project. cbn [columns rows].
      rewrite fmap_app. cbn [fmap list_fmap]. f_equal.
      * rewrite <- list_fmap_compose. apply list_fmap_ext. intros i row _.
        cbn [compose]. rewrite !cell_reread; [done|..];
          apply Hcore, core_columns_elem; tauto.
      * rewrite !cell_blank_row; [done|..];
          try (apply Hcore); apply core_columns_elem; tauto.
    + unfold df_len, df', df_project. cbn [rows].
      rewrite length_app, length_fmap. cbn [length]. lia.
Qed.

(** The theorem on the second of three passages. *)
Lemma add_annotation_row_appends_witness :
  exists st' df',
    add_annotation_row (KInt 1) three_passages = (Ok tt, st')
    /\ text_passages st' = text_passages three_passages
    /\ errors st' = errors three_passages
    /\ (annotations st').*1 = (annotations three_passages).*1
    /\ (forall q, q <> KInt 1 ->
          dict_get (annotations st') q = dict_get (annotations three_passages) q)
    /\ dict_get (annotations st') (KInt 1) = Some df'
    /\ annotation_tuples df'
       = annotation_tuples (metadata_frame (lit "b")) ++ [(VStr [], VStr [], VStr [])]
    /\ df_len df' = (df_len (metadata_frame (lit "b")) + 1)%Z.
Proof.
  refine (proj2 (add_annotation_row_appends three_passages (KInt 1)) _ _ _);
    reflexivity.
Defined.

Lemma delete_last {A} (l : list A) (x : A) : delete (length l) (l ++ [x]) = l.
Proof. induction l as [|y l IH]; [done|]. cbn. f_equal. exact IH. Qed.

Lemma set_annotations_same (st : State) : set_annotations (annotations st) st = st.
Proof. by destruct st. Qed.

Lemma rows_project_self (df : DataFrame) :
  NoDup (columns df) -> rectangular df = true ->
  rows (df_project df (columns df)) = rows df.
Proof.
  intros Hnd Hrect. unfold df_project. cbn [rows].
  rewrite <- (list_fmap_id (rows df)) at 2. apply list_fmap_ext.
  intros i row Hrow. cbn [id]. apply cell_self; [done|].
  unfold rectangular in Hrect.
  apply Nat.eqb_eq.
  apply (proj1 (forallb_forall _ _) Hrect row).
  apply list_elem_of_In. by eapply list_elem_of_lookup_2.
Qed.

(** X2.  On a plain table that has the three core columns,
    [remove_annotation_row(p, n)] with [n] the old number of rows undoes
    [add_annotation_row(p)]: the corpus is what it was. *)
Theorem add_then_remove_annotation_row (st : State) (p : key) (df : DataFrame) :
  dict_get (annotations st) p = Some df ->
  plain_table df = true ->
  rectangular df = true ->
  forallb (has_column df) core_columns = true ->
  (add_annotation_row p ;;; remove_annotation_row p (df_len df)) st = (Ok tt, st).
Proof.
  intros Hdf Hplain Hrect Hcore.
  destruct (plain_table_inv df Hplain) as [Hnd _].
  assert (fold_left add_label core_columns (columns df) = columns df) as Hcols.
  { apply fold_add_label_present. apply Forall_forall. intros c Hc.
    apply has_column_elem.
    apply (proj1 (forallb_forall _ _) Hcore c). by apply list_elem_of_In. }
  unfold bind at 1. unfold add_annotation_row, bind, get_state, lift.
  rewrite Hdf, pd_concat_blank by done. rewrite Hcols.
  rewrite rows_project_self by done. unfold modify.
  set (st1 := set_annotations _ st).
  rewrite (remove_annotation_row_in_bounds st1 p
             {| columns := columns df;
                rows := rows df ++ [cell core_columns blank_row <$> columns df] |}).
  - cbn [columns rows]. unfold df_len. rewrite Nat2Z.id, delete_last.
    unfold st1. cbn [set_annotations annotations text_passages errors].
    rewrite dict_set_set.
    replace {| columns := columns df; rows := rows df |} with df by (by destruct df).
    rewrite dict_set_same by done. by destruct st.
  - unfold st1. cbn [set_annotations annotations]. apply dict_get_set_eq.
  - unfold df_len. cbn [rows]. rewrite length_app. cbn [length]. lia.
Qed.

(** The theorem on the first passage of the specification's scenario. *)
Lemma add_then_remove_annotation_row_witness :
  (add_annotation_row (KInt 0) ;;; remove_annotation_row (KInt 0) 1) fuchs_corpus
  = (Ok tt, fuchs_corpus).
Proof.
  refine (add_then_remove_annotation_row fuchs_corpus (KInt 0)
            {| columns := core_columns;
               rows := [[VStr (lit "Fuchs"); VStr []; VStr []]] |} _ _ _ _);
    reflexivity.
Defined.

(** ** The passage list *)

Lemma list_pop_cases {A} (l : list A) (i : Z) :
  list_pop l i = Raise IndexError
  \/ exists l', list_pop l i = Ok l' /\ S (length l') = length l.
Proof.
  unfold list_pop.
  set (j := if (i <? 0)%Z then (i + Z.of_nat (length l))%Z else i).
  destruct ((0 <=? j)%Z && (j <? Z.of_nat (length l))%Z) eqn:E; [right|by left].
  apply andb_prop in E as [Hlo%Z.leb_le Hhi%Z.ltb_lt].
  eexists. split; [done|]. rewrite length_delete; [|apply lookup_lt_is_Some_2; lia].
  lia.
Qed.

Lemma list_pop_negative {A} (l : list A) (i : Z) :
  (- Z.of_nat (length l) <= i < 0)%Z ->
  list_pop l i = Ok (delete (Z.to_nat (i + Z.of_nat (length l))) l).
Proof.
  intros [Hlo Hhi]. unfold list_pop.
  rewrite (proj2 (Z.ltb_lt _ _)) by lia.
  rewrite (proj2 (Z.leb_le _ _)) by lia.
  by rewrite (proj2 (Z.ltb_lt _ _)) by lia.
Qed.

Lemma list_pop_out_of_range {A} (l : list A) (i : Z) :
  (Z.of_nat (length l) <= i \/ i < - Z.of_nat (length l))%Z ->
  list_pop l i = Raise IndexError.
Proof.
  intros Hout. unfold list_pop. destruct (Z.ltb_spec i 0).
  - rewrite (proj2 (Z.leb_gt _ _)) by lia. done.
  - rewrite (proj2 (Z.leb_le _ _)) by lia.
    by rewrite (proj2 (Z.ltb_ge _ _)) by lia.
Qed.

(** The three ways [remove_text_passage] can go. *)
Lemma remove_text_passage_cases (index : Z) (st : State) :
  ((length (text_passages st) <= 1)%nat /\ remove_text_passage index st = (Ok tt, st))
  \/ ((2 <= length (text_passages st))%nat
      /\ list_pop (text_passages st) index = Raise IndexError
      /\ remove_text_passage index st = (Raise IndexError, st))
  \/ ((2 <= length (text_passages st))%nat
      /\ exists ps',
           list_pop (text_passages st) index = Ok ps'
           /\ S (length ps') = length (text_passages st)
           /\ remove_text_passage index st
              = (Ok tt, {| text_passages := ps';
                           annotations := annotations_without index st (length ps');
                           errors := errors st |})).
Proof.
  unfold remove_text_passage, bind, get_state.
  destruct (Nat.ltb_spec 1 (length (text_passages st))) as [HN|HN]; [|by left].
  right. destruct (list_pop_cases (text_passages st) index) as [Hpop|(ps' & Hpop & Hlen)].
  - left. unfold lift. by rewrite Hpop.
  - right. split; [lia|]. exists ps'. split; [done|]. split; [done|].
    unfold lift. rewrite Hpop.
    unfold modify, ret, annotations_without, set_annotations, set_text_passages.
    by destruct (dict_mem (annotations st) (KInt index)).
Qed.

(** X3.  With two or more passages, [remove_text_passage(index)] for an
    index that is out of range on either side ([index >= N] or
    [index < -N]) raises [IndexError] from [pop] and the corpus is what
    it was. *)
Theorem remove_text_passage_out_of_range (st : State) (index : Z) :
  (2 <= length (text_passages st))%nat ->
  (Z.of_nat (length (text_passages st)) <= index
   \/ index < - Z.of_nat (length (text_passages st)))%Z ->
  remove_text_passage index st = (Raise IndexError, st).
Proof.
  intros HN Hout.
  pose proof (list_pop_out_of_range (text_passages st) index Hout) as Hpop.
  destruct (remove_text_passage_cases index st)
    as [[? _]|[(_ & _ & H)|(_ & ps' & Hok & _)]]; [lia|done|congruence].
Qed.

(** The theorem on three passages, at index 3. *)
Lemma remove_text_passage_out_of_range_witness :
  remove_text_passage 3 three_passages = (Raise IndexError, three_passages).
Proof.
  refine (remove_text_passage_out_of_range three_passages 3 _ _); cbn; lia.
Defined.

Lemma annotations_without_keys (index : Z) (st : State) (n : nat) :
  (annotations_without index st n).*1 = KInt <$> seqZ 0 (Z.of_nat n).
Proof.
  unfold annotations_without. rewrite reindex_fold_keys; [done|].
  cbn [fmap list_fmap app]. apply NoDup_fmap_2; [|apply NoDup_seqZ].
  by intros ?? [= ->].
Qed.

Lemma annotations_without_get (index : Z) (st : State) (n : nat) (i : Z) :
  (0 <= i < Z.of_nat n)%Z ->
  dict_get (annotations_without index st n) (KInt i)
  = Some (default blank_frame
            (dict_get (annotations st)
               (KInt (if (i <? index)%Z then i else (i + 1)%Z)))).
Proof.
  intros Hi. unfold annotations_without.
  rewrite reindex_fold_get; [|apply NoDup_seqZ|apply elem_of_seqZ; lia].
  unfold reindexed. f_equal. f_equal.
  destruct (dict_mem (annotations st) (KInt index)); [|done].
  apply dict_get_del_ne. intros [= H]. destruct (Z.ltb_spec i index); lia.
Qed.

(** X4.  With [N >= 2] passages and a negative index in range
    ([-N <= index < 0]) [remove_text_passage] removes the passage counted
    from the end, as [pop] does, but re-keys the tables as if a passage
    before all the others had gone: every remaining position [i] gets
    the table that was at [i + 1] (a blank one if there was none). *)
Theorem remove_text_passage_negative (st : State) (index : Z) :
  let N := length (text_passages st) in
  (2 <= N)%nat ->
  (- Z.of_nat N <= index < 0)%Z ->
  exists annotations',
    remove_text_passage index st
    = (Ok tt, {| text_passages :=
                   delete (Z.to_nat (index + Z.of_nat N)) (text_passages st);
                 annotations := annotations';
                 errors := errors st |})
    /\ annotations'.*1 = KInt <$> seqZ 0 (Z.of_nat (N - 1))
    /\ forall i : nat,
         (i < N - 1)%nat ->
         dict_get annotations' (KInt (Z.of_nat i))
         = Some (default blank_frame
                   (dict_get (annotations st) (KInt (Z.of_nat i + 1)))).
Proof.
  intros N HN Hidx.
  pose proof (list_pop_negative (text_passages st) index Hidx) as Hpop.
  destruct (remove_text_passage_cases index st)
    as [[? _]|[(_ & H & _)|(_ & ps' & Hok & Hlen & Hrun)]];
    [fold N in H; lia|congruence|].
  rewrite Hpop in Hok. injection Hok as <-. fold N in Hlen |- *.
  eexists. split; [exact Hrun|].
  replace (length (delete (Z.to_nat (index + Z.of_nat N)) (text_passages st)))
    with (N - 1)%nat by lia.
  split; [apply annotations_without_keys|].
  intros i Hi. rewrite annotations_without_get by lia.
  by rewrite (proj2 (Z.ltb_ge _ _)) by lia.
Qed.

(** The theorem on three passages, at index -1: "C" goes, and the
    tables of "B" and "C" end up under "A" and "B". *)
Lemma remove_text_passage_negative_witness :
  exists annotations',
    remove_text_passage (-1) three_passages
    = (Ok tt, {| text_passages := [VStr (lit "A"); VStr (lit "B")];
                 annotations := annotations';
                 errors := [] |})
    /\ annotations'.*1 = [KInt 0; KInt 1]
    /\ forall i : nat,
         (i < 2)%nat ->
         dict_get annotations' (KInt (Z.of_nat i))
         = Some (default blank_frame
                   (dict_get (annotations three_passages) (KInt (Z.of_nat i + 1)))).
Proof.
  refine (remove_text_passage_negative three_passages (-1) _ _); cbn; lia.
Defined.

(** ** Adding a passage *)

Lemma add_text_passage_run (st : State) :
  add_text_passage st
  = (Ok tt, {| text_passages := text_passages st ++ [VStr new_passage_text];
               annotations :=
                 dict_set (annotations st)
                   (KInt (Z.of_nat (length (text_passages st)))) blank_frame;
               errors := errors st |}).
Proof.
  unfold add_text_passage, bind, modify, get_state, set_text_passages, set_annotations.
  cbn [text_passages annotations errors]. do 4 f_equal.
  rewrite length_app. cbn [length]. lia.
Qed.

Lemma aligned_fresh (st : State) :
  aligned st -> KInt (Z.of_nat (length (text_passages st))) ∉ (annotations st).*1.
Proof.
  unfold aligned. intros ->. intros (z & [= <-] & Hz%elem_of_seqZ)%list_elem_of_fmap.
  lia.
Qed.

(** X5.  In a corpus whose tables are keyed by the passage positions and
    that has a passage, removing the passage that [add_text_passage] has
    just added gives back the corpus as it was. *)
Theorem add_then_remove_text_passage (st : State) :
  aligned st ->
  (1 <= length (text_passages st))%nat ->
  (add_text_passage ;;;
   remove_text_passage (Z.of_nat (length (text_passages st)))) st
  = (Ok tt, st).
Proof.
  intros Hal HN. set (n := length (text_passages st)).
  unfold bind. rewrite add_text_passage_run. fold n.
  set (st1 := {| text_passages := _; annotations := _; errors := _ |}).
  rewrite (remove_text_passage_valid st1 n);
    [|unfold st1; cbn [text_passages]; rewrite length_app; cbn [length]; lia..].
  assert (delete n (text_passages st1) = text_passages st) as ->
    by apply delete_last.
  assert (errors st1 = errors st) as -> by done. fold n.
  assert (annotations_without (Z.of_nat n) st1 n = annotations st) as ->;
    [|by destruct st].
  apply dict_ext.
  - rewrite annotations_without_keys. symmetry. exact Hal.
  - rewrite annotations_without_keys. apply NoDup_fmap_2; [|apply NoDup_seqZ].
    by intros ?? [= ->].
  - intros k. rewrite annotations_without_keys.
    intros (i & -> & Hi%elem_of_seqZ)%list_elem_of_fmap.
    rewrite annotations_without_get by lia.
    rewrite (proj2 (Z.ltb_lt _ _)) by lia.
    unfold st1. cbn [annotations]. rewrite dict_get_set_ne by (intros [= H]; lia).
    assert (is_Some (dict_get (annotations st) (KInt i))) as [df Hdf].
    { apply dict_get_is_Some. rewrite Hal.
      apply list_elem_of_fmap. exists i. split; [done|]. apply elem_of_seqZ.
      fold n. lia. }
    by rewrite Hdf.
Qed.

(** The theorem on the three passages. *)
Lemma add_then_remove_text_passage_witness :
  (add_text_passage ;;; remove_text_passage 3) three_passages
  = (Ok tt, three_passages).
Proof.
  refine (add_then_remove_text_passage three_passages _ _); [reflexivity|cbn; lia].
Defined.

(** ** What the edits keep *)

Lemma holds_number_false (df : DataFrame) (c : key) :
  holds_number df c = false <->
  forall row, row ∈ rows df -> is_number (cell (columns df) row c) = false.
Proof.
  unfold holds_number, df_column. split.
  - intros H row Hrow. apply not_true_iff_false. intros Hn.
    apply not_true_iff_false in H. apply H. apply existsb_exists.
    exists (cell (columns df) row c). split; [|done].
    apply in_map_iff. exists row. split; [done|]. by apply list_elem_of_In.
  - intros H. apply not_true_iff_false. intros (v & Hin & Hv)%existsb_exists.
    apply in_map_iff in Hin as (row & <- & Hrow%list_elem_of_In).
    by rewrite H in Hv.
Qed.

(** A plain table with a blank annotation under it is plain. *)
Lemma plain_concat_blank (df : DataFrame) :
  plain_table df = true ->
  plain_table
    {| columns := fold_left add_label core_columns (columns df);
       rows := rows (df_project df (fold_left add_label core_columns (columns df)))
               ++ [cell core_columns blank_row
                     <$> fold_left add_label core_columns (columns df)] |} = true.
Proof.
  intros Hplain. destruct (plain_table_inv df Hplain) as [Hnd Hnum].
  set (cols := fold_left add_label core_columns (columns df)).
  apply plain_table_intro; cbn [columns rows].
  - by apply fold_add_label_NoDup.
  - intros c Hc. apply holds_number_false. cbn [columns rows]. intros row Hrow.
    destruct (decide (c ∈ cols)) as [Hin|Hout]; [|by rewrite cell_absent].
    apply elem_of_app in Hrow as [Hrow|Hrow%list_elem_of_singleton].
    + unfold df_project in Hrow. cbn [rows] in Hrow.
      apply list_elem_of_fmap in Hrow as (row0 & -> & Hrow0).
      rewrite cell_reread by done.
      by apply (proj1 (holds_number_false df c) (Hnum c Hc)).
    + subst row. rewrite cell_reread by done. by rewrite cell_absent.
Qed.

Lemma plain_delete (df : DataFrame) (i : nat) :
  plain_table df = true ->
  plain_table {| columns := columns df; rows := delete i (rows df) |} = true.
Proof.
  intros Hplain. destruct (plain_table_inv df Hplain) as [Hnd Hnum].
  apply plain_table_intro; cbn [columns rows]; [done|].
  intros c Hc. apply holds_number_false. cbn [columns rows]. intros row Hrow.
  apply (proj1 (holds_number_false df c) (Hnum c Hc)).
  by eapply list_elem_of_delete_inv.
Qed.

Lemma plain_lookup (an : list (key * DataFrame)) (k : key) (df : DataFrame) :
  Forall (fun kd => plain_table kd.2 = true) an ->
  dict_get an k = Some df -> plain_table df = true.
Proof.
  intros Han Hdf. apply dict_get_elem in Hdf.
  by apply (proj1 (Forall_forall _ _) Han (k, df)).
Qed.

Lemma reindex_fold_Forall (P : key * DataFrame -> Prop) (index : Z)
    (old : list (key * DataFrame)) (zs : list Z) (acc : list (key * DataFrame)) :
  (forall k, P (k, blank_frame)) ->
  (forall k k' df, P (k, df) -> P (k', df)) ->
  Forall P old -> Forall P acc ->
  Forall P (fold_left (reindex_step index old) zs acc).
Proof.
  intros Hblank Hkey Hold. revert acc.
  induction zs as [|z zs IH]; intros acc Hacc; [done|].
  cbn [fold_left]. apply IH. rewrite reindex_step_set.
  apply Forall_dict_set; [done|]. intros k'. unfold reindexed.
  destruct (dict_get old _) as [df|] eqn:E; cbn [default from_option id]; [|done].
  apply dict_get_elem in E.
  eapply Hkey, (proj1 (Forall_forall _ _) Hold _ E).
Qed.

Lemma editable_add_text_passage (st : State) :
  editable st ->
  exists st', add_text_passage st = (Ok tt, st') /\ editable st'.
Proof.
  intros [Hal Hplain]. eexists. split; [apply add_text_passage_run|]. split.
  - unfold aligned. cbn [text_passages annotations].
    rewrite dict_set_fresh by (by apply aligned_fresh).
    rewrite fmap_app, Hal, length_app. cbn [length fmap list_fmap fst].
    replace (length (text_passages st) + 1)%nat
      with (S (length (text_passages st))) by lia.
    by rewrite seqZ_S, fmap_app.
  - cbn [annotations]. by apply Forall_dict_set.
Qed.

Lemma editable_remove_text_passage (index : Z) (st : State) :
  editable st ->
  exists r st',
    remove_text_passage index st = (r, st') /\ r <> Unmodelled /\ editable st'.
Proof.
  intros [Hal Hplain].
  destruct (remove_text_passage_cases index st)
    as [[_ Hrun]|[(_ & _ & Hrun)|(_ & ps' & _ & _ & Hrun)]];
    rewrite Hrun; do 2 eexists; (split; [done|]); (split; [done|]);
    [done|done|].
  split.
  - unfold aligned. cbn [text_passages annotations].
    apply annotations_without_keys.
  - cbn [annotations]. unfold annotations_without.
    apply reindex_fold_Forall; [done|done| |done].
    destruct (dict_mem (annotations st) (KInt index)); [|done].
    by apply Forall_dict_del.
Qed.

Lemma editable_add_annotation_row (p : key) (st : State) :
  editable st ->
  exists r st',
    add_annotation_row p st = (r, st') /\ r <> Unmodelled /\ editable st'.
Proof.
  intros [Hal Hplain]. unfold add_annotation_row, bind, get_state, lift.
  destruct (dict_get (annotations st) p) as [df|] eqn:Hdf.
  - pose proof (plain_lookup _ _ _ Hplain Hdf) as Hdfp.
    rewrite pd_concat_blank by done. unfold modify.
    do 2 eexists. split; [done|]. split; [done|]. split.
    + unfold aligned. cbn [set_annotations text_passages annotations].
      rewrite dict_set_keys_present; [done|].
      apply dict_get_is_Some. by rewrite Hdf.
    + cbn [set_annotations annotations]. apply Forall_dict_set; [done|].
      intros ?. cbn [snd]. by apply plain_concat_blank.
  - do 2 eexists. split; [done|]. by split.
Qed.

Lemma editable_remove_annotation_row (p : key) (row : Z) (st : State) :
  editable st ->
  exists r st',
    remove_annotation_row p row st = (r, st') /\ r <> Unmodelled /\ editable st'.
Proof.
  intros [Hal Hplain].
  destruct (dict_get (annotations st) p) as [df|] eqn:Hdf.
  - destruct (Z.lt_ge_cases row 0) as [Hneg|Hpos].
    { rewrite (remove_annotation_row_negative st p df row) by done.
      do 2 eexists. split; [done|]. by split. }
    destruct (Z.lt_ge_cases row (df_len df)) as [Hin|Hout].
    + rewrite (remove_annotation_row_in_bounds st p df row) by done.
      do 2 eexists. split; [done|]. split; [done|]. split.
      * unfold aligned. cbn [set_annotations text_passages annotations].
        rewrite dict_set_keys_present; [done|].
        apply dict_get_is_Some. by rewrite Hdf.
      * cbn [set_annotations annotations]. apply Forall_dict_set; [done|].
        intros ?. cbn [snd]. apply plain_delete.
        by eapply plain_lookup.
    + rewrite (remove_annotation_row_beyond st p df row) by done.
      do 2 eexists. split; [done|]. by split.
  - unfold remove_annotation_row, bind, get_state, lift. rewrite Hdf.
    do 2 eexists. split; [done|]. by split.
Qed.

(** X6.  A corpus whose tables are keyed by the passage positions, in
    their order, and are plain stays such a corpus under every series of
    edits (adding and removing passages and annotations, with any
    arguments, the ones that raise included), and every edit of the
    series is modelled. *)
Theorem edits_keep_alignment (es : list edit) (st : State) :
  editable st ->
  exists st', run_edits es st = Some st' /\ editable st'.
Proof.
  revert st. induction es as [|e es IH]; intros st Hst.
  - by exists st.
  - assert (exists r st1, run_edit e st = (r, st1)
                          /\ r <> Unmodelled /\ editable st1)
      as (r & st1 & Hrun & Hr & Hst1).
    { destruct e; cbn [run_edit].
      - destruct (editable_add_text_passage st Hst) as (st1 & Hrun & Hst1).
        by exists (Ok tt), st1.
      - by apply editable_remove_text_passage.
      - by apply editable_add_annotation_row.
      - by apply editable_remove_annotation_row. }
    cbn [run_edits]. rewrite Hrun.
    destruct (IH st1 Hst1) as (st' & Hes & Hst').
    exists st'. split; [|done]. by destruct r.
Qed.

(** The theorem on three passages and a series of edits of which the
    second and the last raise. *)
Lemma edits_keep_alignment_witness :
  exists st',
    run_edits [AddPassage; RemovePassage 7; AddAnnotation 1; RemovePassage (-2);
               RemoveAnnotation 0 (-1)] three_passages = Some st'
    /\ editable st'.
Proof.
  refine (edits_keep_alignment _ three_passages _).
  split; [reflexivity|]. repeat constructor.
Defined.

(** ** The derived column *)

Lemma fmap_zip_with_fst {A B C D} (f : A -> B -> C) (g : C -> D) (h : A -> D)
    (l : list A) (k : list B) :
  (forall x y, g (f x y) = h x) -> (length l <= length k)%nat ->
  g <$> zip_with f l k = h <$> l.
Proof.
  intros Hgf. revert k. induction l as [|x l IH]; intros [|y k] Hlen; try done.
  - cbn in Hlen. lia.
  - cbn [zip_with]. rewrite !fmap_cons, Hgf. f_equal. apply IH. cbn in Hlen. lia.
Qed.

Lemma fmap_zip_with_snd {A B C D} (f : A -> B -> C) (g : C -> D) (h : B -> D)
    (l : list A) (k : list B) :
  (forall x y, g (f x y) = h y) -> (length k <= length l)%nat ->
  g <$> zip_with f l k = h <$> k.
Proof.
  intros Hgf. revert k. induction l as [|x l IH]; intros [|y k] Hlen; try done.
  - cbn in Hlen. lia.
  - cbn [zip_with]. rewrite !fmap_cons, Hgf. f_equal. apply IH. cbn in Hlen. lia.
Qed.

Lemma column_index_app_r (cols : list key) (c : key) :
  c ∉ cols -> column_index (cols ++ [c]) c = Some (length cols).
Proof.
  induction cols as [|c0 cols IH]; cbn [app column_index length].
  - intros _. by rewrite decide_True.
  - intros [Hne Hc]%not_elem_of_cons. rewrite decide_False by done.
    by rewrite IH.
Qed.

Lemma column_index_app_l (cols : list key) (c c' : key) :
  c' <> c -> column_index (cols ++ [c]) c' = column_index cols c'.
Proof.
  intros Hne. induction cols as [|c0 cols IH]; cbn [app column_index].
  - by rewrite decide_False.
  - destruct (decide (c0 = c')); [done|]. by rewrite IH.
Qed.

Lemma cell_assign_new (cols : list key) (row : list value) (c : key) (v : value)
    (c' : key) :
  c ∉ cols ->
  cell (cols ++ [c]) ((cell cols row <$> cols) ++ [v]) c'
  = if decide (c' = c) then v else cell cols row c'.
Proof.
  intros Hc. unfold cell at 1. destruct (decide (c' = c)) as [->|Hne].
  - rewrite column_index_app_r by done.
    rewrite lookup_app_r by (by rewrite length_fmap).
    by rewrite length_fmap, Nat.sub_diag.
  - rewrite column_index_app_l by done.
    destruct (column_index cols c') as [j|] eqn:E.
    + apply column_index_lookup in E.
      rewrite lookup_app_l by (rewrite length_fmap; by eapply lookup_lt_Some).
      by rewrite list_lookup_fmap, E.
    + symmetry. apply cell_absent. by apply column_index_None.
Qed.

Lemma cell_assign_old (cols : list key) (row : list value) (c : key) (i : nat)
    (v : value) (c' : key) :
  column_index cols c = Some i ->
  cell cols (<[i := v]> (cell cols row <$> cols)) c'
  = if decide (c' = c) then v else cell cols row c'.
Proof.
  intros Hi. pose proof (column_index_lookup _ _ _ Hi) as Hci.
  unfold cell at 1. destruct (decide (c' = c)) as [->|Hne].
  - rewrite Hi. rewrite list_lookup_insert_eq; [done|].
    rewrite length_fmap. by eapply lookup_lt_Some.
  - destruct (column_index cols c') as [j|] eqn:E.
    + apply column_index_lookup in E.
      rewrite list_lookup_insert_ne by (intros ->; congruence).
      by rewrite list_lookup_fmap, E.
    + symmetry. apply cell_absent. by apply column_index_None.
Qed.

(** What [df[c] = cells] builds: the rows with [cells] under [c] and
    the other cells as they were. *)
Lemma df_assign_spec (df : DataFrame) (c : key) (cells : list value) :
  NoDup (columns df) ->
  exists (cols' : list key) (mk : list value -> value -> list value),
    df_assign df c cells = {| columns := cols'; rows := zip_with mk (rows df) cells |}
    /\ NoDup cols'
    /\ (forall c', c' ∈ cols' <-> c' ∈ columns df \/ c' = c)
    /\ forall row v c',
         cell cols' (mk row v) c'
         = if decide (c' = c) then v else cell (columns df) row c'.
Proof.
  intros Hnd. unfold df_assign.
  destruct (column_index (columns df) c) as [i|] eqn:E.
  - eexists _, _. split; [reflexivity|]. split; [done|]. split.
    + intros c'. split; [by left|]. intros [?| ->]; [done|].
      apply column_index_lookup in E. by eapply list_elem_of_lookup_2.
    + intros row v c'. by apply cell_assign_old.
  - apply column_index_None in E.
    eexists _, _. split; [reflexivity|]. split; [|split].
    + apply NoDup_app. split; [done|]. split; [|apply NoDup_singleton].
      by intros x Hx ->%list_elem_of_singleton.
    + intros c'. by rewrite elem_of_app, list_elem_of_singleton.
    + intros row v c'. by apply cell_assign_new.
Qed.

Lemma series_apply_length {A B} (f : A -> result B) (l : list A) (ys : list B) :
  series_apply f l = Ok ys -> length ys = length l.
Proof.
  revert ys. induction l as [|x l IH]; intros ys; cbn [series_apply].
  - by intros [= <-].
  - destruct (f x); [|done..]. destruct (series_apply f l); [|done..].
    intros [= <-]. cbn [length]. by rewrite (IH _ eq_refl).
Qed.

Lemma series_apply_Ok {A B} (f : A -> result B) (g : A -> B) (l : list A) :
  (forall x, x ∈ l -> f x = Ok (g x)) -> series_apply f l = Ok (g <$> l).
Proof.
  induction l as [|x l IH]; intros Hf; [done|]. cbn [series_apply].
  rewrite Hf by left. rewrite IH; [done|]. intros y Hy. apply Hf. by right.
Qed.

(** The derived column of a table laid out by [df_assign]. *)
Lemma df_assign_columns (df : DataFrame) (c : key) (cells : list value) :
  NoDup (columns df) ->
  length cells = length (rows df) ->
  df_column (df_assign df c cells) c = cells
  /\ (forall c', c' <> c -> df_column (df_assign df c cells) c' = df_column df c')
  /\ (forall cs, c ∉ cs ->
        rows (df_project (df_assign df c cells) cs) = rows (df_project df cs))
  /\ (forall c', c' ∈ columns (df_assign df c cells) <-> c' ∈ columns df \/ c' = c)
  /\ NoDup (columns (df_assign df c cells))
  /\ df_len (df_assign df c cells) = df_len df.
Proof.
  intros Hnd Hlen.
  destruct (df_assign_spec df c cells Hnd) as (cols' & mk & -> & Hnd' & Hcols & Hcell).
  unfold df_column, df_project, df_len. cbn [columns rows].
  split; [|split; [|split; [|split; [done|split; [done|]]]]].
  - rewrite <- (list_fmap_id cells) at 2.
    apply fmap_zip_with_snd; [|lia]. intros row v. rewrite Hcell.
    by rewrite decide_True.
  - intros c' Hne. apply fmap_zip_with_fst; [|lia]. intros row v.
    rewrite Hcell. by rewrite decide_False.
  - intros cs Hcs. apply fmap_zip_with_fst; [|lia]. intros row v.
    apply list_fmap_ext. intros i c' Hc'. rewrite Hcell.
    rewrite decide_False; [done|]. intros ->. apply Hcs.
    by eapply list_elem_of_lookup_2.
  - rewrite length_zip_with_l_eq by lia. done.
Qed.

Section DerivedColumn.
Context {U : Unicode}.

Lemma check_citation_in_text_value_text (c t : str) :
  check_citation_in_text_value (VStr c) (VStr t) = Ok (check_citation_in_text c t).
Proof.
  unfold check_citation_in_text_value, check_citation_in_text.
  cbn [value_truthy]. by destruct (negb (truthy c) || negb (truthy t)).
Qed.

Lemma found_mark_text (c t : str) :
  found_mark (VStr t) (VStr c) = Ok (found_text t c).
Proof. unfold found_mark. by rewrite check_citation_in_text_value_text. Qed.

Lemma add_found_in_text_column_run (df : DataFrame) (text : value)
    (cells : list value) :
  NoDup (columns df) -> has_column df Citation = true ->
  series_apply (found_mark text) (df_column df Citation) = Ok cells ->
  add_found_in_text_column df text = Ok (df_assign df Found_in_Text cells)
  /\ length cells = length (rows df).
Proof.
  intros Hnd Hcit Hcells. unfold add_found_in_text_column.
  rewrite bool_decide_eq_true_2 by done. rewrite Hcit, Hcells. split; [done|].
  apply series_apply_length in Hcells. unfold df_column in Hcells.
  by rewrite length_fmap in Hcells.
Qed.

Lemma series_apply_found_text (citations : list str) (text : str) :
  series_apply (found_mark (VStr text)) (VStr <$> citations)
  = Ok (found_text text <$> citations).
Proof.
  rewrite (series_apply_Ok _ (fun v => match v with
                                       | VStr c => found_text text c
                                       | _ => VNone
                                       end)).
  - by rewrite <- list_fmap_compose.
  - intros v (c & -> & _)%list_elem_of_fmap. apply found_mark_text.
Qed.
End DerivedColumn.

(** X7.  On a table with distinct labels whose citations are strings,
    [add_found_in_text_column] returns the table with one more column,
    "Found in Text" (overwritten if it was there), that reads "Yes" with
    the check mark exactly in the rows whose citation
    [check_citation_in_text] finds in the passage and "No" with the
    cross in the others; every other column and the number of rows are
    as they were. *)
Theorem add_found_in_text_column_spec {U : Unicode} (df : DataFrame)
    (citations : list str) (text : str) :
  NoDup (columns df) ->
  has_column df Citation = true ->
  df_column df Citation = VStr <$> citations ->
  exists out,
    add_found_in_text_column df (VStr text) = Ok out
    /\ df_column out Found_in_Text
       = (fun c => VStr (if check_citation_in_text c text
                         then found_yes else found_no)) <$> citations
    /\ (forall c, c <> Found_in_Text -> df_column out c = df_column df c)
    /\ (forall c, c ∈ columns out <-> c ∈ columns df \/ c = Found_in_Text)
    /\ df_len out = df_len df.
Proof.
  intros Hnd Hcit Hcells.
  pose proof (series_apply_found_text citations text) as Happly.
  rewrite <- Hcells in Happly.
  destruct (add_found_in_text_column_run df (VStr text) _ Hnd Hcit Happly)
    as [Hrun Hlen].
  destruct (df_assign_columns df Found_in_Text _ Hnd Hlen)
    as (Hnew & Hold & _ & Hcols & _ & Hrows).
  eexists. split; [exact Hrun|].
  split; [exact Hnew|split; [exact Hold|split; [exact Hcols|exact Hrows]]].
Qed.

(** The theorem on the first table of the specification's scenario. *)
Lemma add_found_in_text_column_spec_witness :
  exists out,
    @add_found_in_text_column latin1
      {| columns := core_columns;
         rows := [[VStr (lit "Fuchs"); VStr []; VStr []]] |}
      (VStr (lit "Der Fuchs springt.")) = Ok out
    /\ df_column out Found_in_Text
       = (fun c => VStr (if @check_citation_in_text latin1 c (lit "Der Fuchs springt.")
                         then found_yes else found_no)) <$> [lit "Fuchs"]
    /\ (forall c, c <> Found_in_Text ->
          df_column out c
          = df_column {| columns := core_columns;
                         rows := [[VStr (lit "Fuchs"); VStr []; VStr []]] |} c)
    /\ (forall c, c ∈ columns out <-> c ∈ core_columns \/ c = Found_in_Text)
    /\ df_len out = 1%Z.
Proof.
  refine (@add_found_in_text_column_spec latin1
            {| columns := core_columns;
               rows := [[VStr (lit "Fuchs"); VStr []; VStr []]] |}
            [lit "Fuchs"] (lit "Der Fuchs springt.") _ _ _);
    [apply NoDup_core_columns|reflexivity|reflexivity].
Defined.

Lemma has_core_columns (df : DataFrame) :
  forallb (has_column df) core_columns = true <->
  forall c, c ∈ core_columns -> c ∈ columns df.
Proof.
  rewrite forallb_forall. split.
  - intros H c Hc. apply has_column_elem, H. by apply list_elem_of_In.
  - intros H c Hc. apply has_column_elem, H. by apply list_elem_of_In.
Qed.

(** X8.  The derived column is for display only.  When the table that
    [add_found_in_text_column] returns comes back from the editor
    unchanged, the statement of [main] that stores it keeps the core
    columns of the table that was displayed, so [export_data] exports
    the same records with and without the derived column, and a table
    with exactly the core columns is stored as it was. *)
Theorem display_then_store {U : Unicode} (st : State) (p : key) (df : DataFrame)
    (citations : list str) (text : str) :
  dict_get (annotations st) p = Some df ->
  NoDup (columns df) ->
  forallb (has_column df) core_columns = true ->
  df_column df Citation = VStr <$> citations ->
  exists out,
    add_found_in_text_column df (VStr text) = Ok out
    /\ store_edited p out st
       = (Ok tt, set_annotations
                   (dict_set (annotations st) p (df_project df core_columns)) st)
    /\ export_frame out = export_frame df
    /\ (columns df = core_columns -> rectangular df = true ->
        store_edited p out st = (Ok tt, st)).
Proof.
  intros Hdf Hnd Hcore Hcells.
  assert (has_column df Citation = true) as Hcit.
  { apply has_column_elem, (proj1 (has_core_columns df) Hcore).
    apply core_columns_elem. by left. }
  pose proof (series_apply_found_text citations text) as Happly.
  rewrite <- Hcells in Happly.
  destruct (add_found_in_text_column_run df (VStr text) _ Hnd Hcit Happly)
    as [Hrun Hlen].
  destruct (df_assign_columns df Found_in_Text _ Hnd Hlen)
    as (_ & _ & Hproj & Hcols & Hnd' & _).
  set (out := df_assign df Found_in_Text (found_text text <$> citations)) in *.
  assert (forallb (has_column out) core_columns = true) as Hcore'.
  { apply has_core_columns. intros c Hc. apply Hcols. left.
    by apply (proj1 (has_core_columns df) Hcore). }
  assert (df_project out core_columns = df_project df core_columns) as Heq.
  { pose proof (Hproj core_columns Found_in_Text_not_core) as H.
    unfold df_project in *. cbn [rows] in H. by rewrite H. }
  assert (store_edited p out st
          = (Ok tt, set_annotations
                      (dict_set (annotations st) p (df_project df core_columns)) st))
    as Hstore.
  { unfold store_edited. rewrite Hcore'.
    rewrite bool_decide_eq_true_2 by done. unfold modify. by rewrite Heq. }
  exists out. split; [exact Hrun|]. split; [exact Hstore|]. split.
  - unfold export_frame. by rewrite Hcore', Hcore, Heq.
  - intros Hcols3 Hrect. rewrite Hstore.
    assert (df_project df core_columns = df) as ->.
    { pose proof (rows_project_self df Hnd Hrect) as H. rewrite Hcols3 in H.
      unfold df_project in *. cbn [rows] in H. rewrite H, <- Hcols3.
      by destruct df. }
    rewrite dict_set_same by done. by destruct st.
Qed.

(** The theorem on the first passage of the specification's scenario. *)
Lemma display_then_store_witness :
  exists out,
    @add_found_in_text_column latin1
      {| columns := core_columns;
         rows := [[VStr (lit "Fuchs"); VStr []; VStr []]] |}
      (VStr (lit "Der Fuchs springt.")) = Ok out
    /\ store_edited (KInt 0) out fuchs_corpus
       = (Ok tt, set_annotations
                   (dict_set (annotations fuchs_corpus) (KInt 0)
                      (df_project
                         {| columns := core_columns;
                            rows := [[VStr (lit "Fuchs"); VStr []; VStr []]] |}
                         core_columns)) fuchs_corpus)
    /\ export_frame out
       = export_frame {| columns := core_columns;
                         rows := [[VStr (lit "Fuchs"); VStr []; VStr []]] |}
    /\ (core_columns = core_columns ->
        rectangular {| columns := core_columns;
                       rows := [[VStr (lit "Fuchs"); VStr []; VStr []]] |} = true ->
        store_edited (KInt 0) out fuchs_corpus = (Ok tt, fuchs_corpus)).
Proof.
  refine (@display_then_store latin1 fuchs_corpus (KInt 0)
            {| columns := core_columns;
               rows := [[VStr (lit "Fuchs"); VStr []; VStr []]] |}
            [lit "Fuchs"] (lit "Der Fuchs springt.") _ _ _ _);
    [reflexivity|apply NoDup_core_columns|reflexivity|reflexivity].
Defined.

Lemma series_apply_Raise {A B} (f : A -> result B) (e : exn) (l : list A) :
  (forall x, x ∈ l -> f x = Raise e \/ exists y, f x = Ok y) ->
  Exists (fun x => f x = Raise e) l ->
  series_apply f l = Raise e.
Proof.
  intros Hf Hex. induction Hex as [x l Hx|x l Hex IH]; cbn [series_apply].
  - by rewrite Hx.
  - destruct (Hf x ltac:(left)) as [->|[y ->]]; [done|].
    rewrite IH; [done|]. intros z Hz. apply Hf. by right.
Qed.

Section DerivedColumnErrors.
Context {U : Unicode}.

Lemma found_mark_cases (text : str) (v : value) :
  text <> [] ->
  if value_truthy v && negb (is_text v)
  then found_mark (VStr text) v = Raise AttributeError
  else exists y, found_mark (VStr text) v = Ok y.
Proof.
  intros Ht. unfold found_mark, check_citation_in_text_value.
  assert (value_truthy (VStr text) = true) as -> by (by destruct text).
  cbn [negb]. rewrite orb_false_r.
  destruct (value_truthy v) eqn:Hv; cbn [negb andb]; [|by eexists].
  destruct v; cbn [is_text negb]; try done. by eexists.
Qed.

Lemma found_mark_empty (v : value) :
  found_mark (VStr []) v = Ok (VStr found_no).
Proof.
  unfold found_mark, check_citation_in_text_value. cbn [value_truthy truthy negb].
  by rewrite orb_true_r.
Qed.
End DerivedColumnErrors.

(** X9.  A citation cell that is true but no string (the [NaN] of an
    empty spreadsheet cell, a number) makes [add_found_in_text_column]
    raise [AttributeError] as soon as the passage is not empty; with an
    empty passage every row reads "No", whatever the cells hold. *)
Theorem add_found_in_text_column_not_text {U : Unicode} (df : DataFrame) (text : str) :
  NoDup (columns df) ->
  has_column df Citation = true ->
  (text = [] ->
   add_found_in_text_column df (VStr text)
   = Ok (df_assign df Found_in_Text ((fun _ => VStr found_no) <$> rows df)))
  /\ (text <> [] ->
      Exists (fun v => value_truthy v = true /\ is_text v = false)
        (df_column df Citation) ->
      add_found_in_text_column df (VStr text) = Raise AttributeError).
Proof.
  intros Hnd Hcit. unfold add_found_in_text_column.
  rewrite bool_decide_eq_true_2 by done. rewrite Hcit. cbn [negb].
  split.
  - intros ->.
    rewrite (series_apply_Ok _ (fun _ => VStr found_no))
      by (intros v _; apply found_mark_empty).
    unfold df_column. by rewrite <- list_fmap_compose.
  - intros Ht Hex. rewrite (series_apply_Raise _ AttributeError); [done| |].
    + intros v _. pose proof (found_mark_cases text v Ht) as H.
      destruct (value_truthy v && negb (is_text v)); [by left|by right].
    + eapply Exists_impl; [exact Hex|]. intros v [Hv Hnt].
      pose proof (found_mark_cases text v Ht) as H.
      by rewrite Hv, Hnt in H.
Qed.

(** The theorem on a table whose second citation cell is empty in the
    spreadsheet it came from. *)
Lemma add_found_in_text_column_not_text_witness :
  @add_found_in_text_column latin1
    {| columns := core_columns;
       rows := [[VStr (lit "Fuchs"); VStr []; VStr []]; [NaN; VStr []; VStr []]] |}
    (VStr (lit "Der Fuchs springt.")) = Raise AttributeError.
Proof.
  refine (proj2 (@add_found_in_text_column_not_text latin1
                   {| columns := core_columns;
                      rows := [[VStr (lit "Fuchs"); VStr []; VStr []];
                               [NaN; VStr []; VStr []]] |}
                   (lit "Der Fuchs springt.") _ _) _ _);
    [apply NoDup_core_columns|reflexivity|discriminate|].
  apply Exists_cons_tl, Exists_cons_hd. split; reflexivity.
Defined.

Section Counter.
Context {U : Unicode}.

Lemma series_apply_found_mark (text : value) (l : list value) :
  series_apply (found_mark text) l
  = match series_apply (fun citation => check_citation_in_text_value citation text) l with
    | Ok found => Ok ((fun b : bool => VStr (if b then found_yes else found_no)) <$> found)
    | Raise e => Raise e
    | Unmodelled => Unmodelled
    end.
Proof.
  induction l as [|v l IH]; [done|]. cbn [series_apply]. unfold found_mark at 1.
  destruct (check_citation_in_text_value v text); [|done..].
  rewrite IH. clear IH. destruct (series_apply _ l); [|done..].
  by rewrite fmap_cons.
Qed.

Lemma filter_says_found (found : list bool) :
  List.filter says_found
    ((fun b : bool => VStr (if b then found_yes else found_no)) <$> found)
  = (fun b : bool => VStr (if b then found_yes else found_no))
      <$> List.filter id found.
Proof.
  induction found as [|[|] found IH]; [done|..]; rewrite fmap_cons; cbn [List.filter].
  - change (says_found (VStr found_yes)) with true. cbn [id].
    by rewrite fmap_cons, IH.
  - change (says_found (VStr found_no)) with false. by cbn [id].
Qed.
End Counter.

(** X10.  The counter under a table and the derived column agree: for
    the same table and passage, [found_count] is the number of rows that
    [add_found_in_text_column] marks "Yes", and it raises what that
    function raises.  The count is never more than the number of rows. *)
Theorem found_count_matches_column {U : Unicode} (df : DataFrame) (text : value) :
  found_count df text
  = match add_found_in_text_column df text with
    | Ok out => Ok (marked_found out)
    | Raise e => Raise e
    | Unmodelled => Unmodelled
    end
  /\ forall n, found_count df text = Ok n -> (Z.of_nat n <= df_len df)%Z.
Proof.
  unfold found_count, add_found_in_text_column.
  destruct (bool_decide (NoDup (columns df))) eqn:Hnd; cbn [negb]; [|done].
  apply bool_decide_eq_true in Hnd.
  destruct (has_column df Citation); cbn [negb]; [|done].
  rewrite series_apply_found_mark.
  destruct (series_apply _ (df_column df Citation)) as [found| |] eqn:E; [|done..].
  pose proof (series_apply_length _ _ _ E) as Hlen.
  unfold df_column in Hlen. rewrite length_fmap in Hlen.
  split.
  - f_equal. unfold marked_found.
    destruct (df_assign_columns df Found_in_Text
                ((fun b : bool => VStr (if b then found_yes else found_no)) <$> found)
                Hnd) as [-> _]; [by rewrite length_fmap|].
    by rewrite filter_says_found, length_fmap.
  - intros n [= <-]. unfold df_len. rewrite <- Hlen.
    pose proof (filter_length_le id found). lia.
Qed.

(** ** The renderers *)

Lemma insert_by_len_perm (c : str) (l : list str) : insert_by_len c l ≡ₚ c :: l.
Proof.
  induction l as [|d l IH]; cbn [insert_by_len]; [done|].
  destruct (len d <=? len c); [done|]. rewrite IH. apply Permutation_swap.
Qed.

Lemma sorted_by_len_desc_perm (l : list str) : sorted_by_len_desc l ≡ₚ l.
Proof.
  unfold sorted_by_len_desc. induction l as [|c l IH]; cbn [foldr]; [done|].
  by rewrite insert_by_len_perm, IH.
Qed.

Lemma insert_by_len_sorted (c : str) (l : list str) :
  StronglySorted not_shorter l -> StronglySorted not_shorter (insert_by_len c l).
Proof.
  induction 1 as [|d l Hl IH Hd]; cbn [insert_by_len].
  - by repeat constructor.
  - destruct (len d <=? len c) eqn:E.
    + apply N.leb_le in E. constructor; [by constructor|].
      constructor; [done|]. eapply Forall_impl; [exact Hd|].
      intros x Hx. unfold not_shorter in *. lia.
    + apply N.leb_gt in E. constructor; [done|].
      rewrite insert_by_len_perm. constructor; [|done].
      unfold not_shorter. lia.
Qed.

Lemma sorted_by_len_desc_sorted (l : list str) :
  StronglySorted not_shorter (sorted_by_len_desc l).
Proof.
  unfold sorted_by_len_desc. induction l as [|c l IH]; cbn [foldr].
  - constructor.
  - by apply insert_by_len_sorted.
Qed.

(** Citations that can be told apart by their length are sorted the
    same way whatever order they come in. *)
Lemma sorted_by_len_desc_unique (cs1 cs2 : list str) :
  cs1 ≡ₚ cs2 -> lengths_tell_apart cs1 ->
  sorted_by_len_desc cs1 = sorted_by_len_desc cs2.
Proof.
  intros Hperm Hlen.
  apply (StronglySorted_unique_strong not_shorter).
  - intros a b Ha Hb Hab Hba. apply Hlen.
    + by rewrite sorted_by_len_desc_perm in Ha.
    + by rewrite sorted_by_len_desc_perm, <- Hperm in Hb.
    + unfold not_shorter, len in *. lia.
  - apply sorted_by_len_desc_sorted.
  - apply sorted_by_len_desc_sorted.
  - by rewrite !sorted_by_len_desc_perm.
Qed.

Lemma highlight_with_absent (wrap : str -> str) (text : str) (citations : list str) :
  Forall (fun c => c = [] \/ contains c text = false) citations ->
  highlight_with wrap text citations = text.
Proof.
  intros Habs. unfold highlight_with.
  rewrite <- sorted_by_len_desc_perm in Habs.
  induction Habs as [|c l Hc Hl IH]; [done|]. cbn [fold_left].
  destruct Hc as [->|Hc]; [done|]. by rewrite Hc, andb_false_r.
Qed.


(** X11.  Citations that are empty or do not occur in the text, letter
    for letter, leave it as it is: in the page ([highlight_citations]),
    in the document export ([highlight_citations_for_export]) and in the
    marking loop of the spreadsheet export. *)
Theorem highlight_absent_citations (text : str) (citations : list str) :
  Forall (fun c => c = [] \/ contains c text = false) citations ->
  highlight_citations text citations = text
  /\ highlight_citations_for_export text citations = text
  /\ export_excel_highlight text citations = text.
Proof.
  intros Habs. split; [|split].
  - exact (highlight_with_absent mark text citations Habs).
  - exact (highlight_with_absent green_span text citations Habs).
  - exact (highlight_with_absent (fun c => lit "**" ++ c ++ lit "**")
             text citations Habs).
Qed.

(** The theorem on a citation in the wrong case and an empty one. *)
Lemma highlight_absent_citations_witness :
  highlight_citations (lit "Der Fuchs springt.") [lit "fuchs"; []]
  = lit "Der Fuchs springt."
  /\ highlight_citations_for_export (lit "Der Fuchs springt.") [lit "fuchs"; []]
     = lit "Der Fuchs springt."
  /\ export_excel_highlight (lit "Der Fuchs springt.") [lit "fuchs"; []]
     = lit "Der Fuchs springt.".
Proof.
  refine (highlight_absent_citations (lit "Der Fuchs springt.") [lit "fuchs"; []] _).
  constructor; [by right|]. constructor; [by left|]. constructor.
Defined.

(** X12.  When no two different citations have the same length, the
    three renderers give the same text whatever the order of the
    citations. *)
Theorem highlight_order_independent (text : str) (cs1 cs2 : list str) :
  cs1 ≡ₚ cs2 ->
  lengths_tell_apart cs1 ->
  highlight_citations text cs1 = highlight_citations text cs2
  /\ highlight_citations_for_export text cs1
     = highlight_citations_for_export text cs2
  /\ export_excel_highlight text cs1 = export_excel_highlight text cs2.
Proof.
  intros Hperm Hlen.
  unfold highlight_citations, highlight_citations_for_export, export_excel_highlight.
  by rewrite (sorted_by_len_desc_unique cs1 cs2 Hperm Hlen).
Qed.

(** The theorem on the two citations of C2, in both orders. *)
Lemma highlight_order_independent_witness :
  highlight_citations ergaenzende_Details [Details; ergaenzende_Details]
  = highlight_citations ergaenzende_Details [ergaenzende_Details; Details]
  /\ highlight_citations_for_export ergaenzende_Details [Details; ergaenzende_Details]
     = highlight_citations_for_export ergaenzende_Details [ergaenzende_Details; Details]
  /\ export_excel_highlight ergaenzende_Details [Details; ergaenzende_Details]
     = export_excel_highlight ergaenzende_Details [ergaenzende_Details; Details].
Proof.
  refine (highlight_order_independent ergaenzende_Details
            [Details; ergaenzende_Details] [ergaenzende_Details; Details] _ _).
  - apply Permutation_swap.
  - intros a b Ha Hb Hab.
    apply elem_of_cons in Ha as [->|Ha%list_elem_of_singleton];
      apply elem_of_cons in Hb as [->|Hb%list_elem_of_singleton];
      subst; first [reflexivity | vm_compute in Hab; discriminate Hab].
Defined.




(** ** Drawing a passage *)

Section Drawing.
Context {U : Unicode}.

Lemma kept_citation_text (s : str) : kept_citation (VStr s) = truthy (strip s).
Proof. unfold kept_citation. by destruct s. Qed.

Lemma as_texts_kept (citations : list str) :
  as_texts (List.filter kept_citation (VStr <$> citations))
  = Some (List.filter (fun c => truthy (strip c)) citations).
Proof.
  induction citations as [|c cs IH]; [done|].
  rewrite fmap_cons. cbn [List.filter]. rewrite kept_citation_text.
  destruct (truthy (strip c)); [|done]. cbn [as_texts]. by rewrite IH.
Qed.

Lemma as_texts_None (citations : list value) :
  Exists (fun v => is_text v = false) citations -> as_texts citations = None.
Proof.
  induction 1 as [v l Hv|v l Hex IH].
  - by destruct v.
  - destruct v; try done. cbn [as_texts]. by rewrite IH.
Qed.

Lemma kept_not_text (cells : list value) :
  Exists (fun v => value_truthy v = true /\ is_text v = false) cells ->
  Exists (fun v => is_text v = false) (List.filter kept_citation cells).
Proof.
  intros (v & Hin & Hv & Hnt)%Exists_exists. apply Exists_exists.
  exists v. split; [|done]. apply list_elem_of_In, filter_In.
  split; [by apply list_elem_of_In|].
  unfold kept_citation. rewrite Hv. by destruct v.
Qed.
End Drawing.

(** X14.  What the page shows for a passage.  When the citation cells
    of its table are strings, it is [highlight_citations] of the passage
    and the citations that are not blank (empty or white space only).
    A cell that is true but no string (the [NaN] of an empty spreadsheet
    cell, a number) makes the drawing raise [TypeError]. *)
Theorem highlighted_text_passage_spec {U : Unicode} (text : str) (df : DataFrame) :
  NoDup (columns df) ->
  has_column df Citation = true ->
  (forall citations,
     df_column df Citation = VStr <$> citations ->
     highlighted_text_passage text (Some df)
     = Ok (highlight_citations text
             (List.filter (fun c => truthy (strip c)) citations)))
  /\ (Exists (fun v => value_truthy v = true /\ is_text v = false)
        (df_column df Citation) ->
      highlighted_text_passage text (Some df) = Raise TypeError).
Proof.
  intros Hnd Hcit. unfold highlighted_text_passage, passage_citations.
  rewrite bool_decide_eq_true_2 by done. rewrite Hcit. cbn [negb]. split.
  - intros citations ->. by rewrite as_texts_kept.
  - intros Hex. by rewrite as_texts_None by (by apply kept_not_text).
Qed.

(** The theorem on a table with a citation, a blank one and, for the
    second part, an empty spreadsheet cell. *)
Lemma highlighted_text_passage_spec_witness :
  @highlighted_text_passage latin1 (lit "Der Fuchs springt.")
    (Some {| columns := core_columns;
             rows := [[VStr (lit "Fuchs"); VStr []; VStr []];
                      [VStr (lit "  "); VStr []; VStr []]] |})
  = Ok (highlight_citations (lit "Der Fuchs springt.")
          (List.filter (fun c => truthy (@strip latin1 c)) [lit "Fuchs"; lit "  "]))
  /\ @highlighted_text_passage latin1 (lit "Der Fuchs springt.")
       (Some {| columns := core_columns;
                rows := [[VStr (lit "Fuchs"); VStr []; VStr []];
                         [NaN; VStr []; VStr []]] |})
     = Raise TypeError.
Proof.
  split.
  - refine (proj1 (@highlighted_text_passage_spec latin1 (lit "Der Fuchs springt.")
                     {| columns := core_columns;
                        rows := [[VStr (lit "Fuchs"); VStr []; VStr []];
                                 [VStr (lit "  "); VStr []; VStr []]] |} _ _)
              [lit "Fuchs"; lit "  "] _);
      [apply NoDup_core_columns|reflexivity|reflexivity].
  - refine (proj2 (@highlighted_text_passage_spec latin1 (lit "Der Fuchs springt.")
                     {| columns := core_columns;
                        rows := [[VStr (lit "Fuchs"); VStr []; VStr []];
                                 [NaN; VStr []; VStr []]] |} _ _) _);
      [apply NoDup_core_columns|reflexivity|].
    apply Exists_cons_tl, Exists_cons_hd. split; reflexivity.
Defined.

(** ** What the imports store *)

Lemma set_last_records (records : list (list (key * value))) (field : key) (v : str) :
  field = Metadata \/ field = Annotation_Text ->
  Forall is_annotation_record records ->
  Forall is_annotation_record (set_last records field (VStr v)).
Proof.
  intros Hfield. induction 1 as [|rec rest Hrec Hrest IH]; [done|].
  cbn [set_last]. destruct rest as [|rec' rest].
  - constructor; [|done]. destruct Hrec as (c & m & a & ->).
    destruct Hfield as [-> | ->].
    + by exists c, v, a.
    + by exists c, m, v.
  - by constructor.
Qed.

Lemma records_triples (records : list (list (key * value))) :
  Forall is_annotation_record records ->
  exists triples, records = record_of_triple <$> triples.
Proof.
  induction 1 as [|rec rest (c & m & a & ->) _ [triples ->]].
  - by exists [].
  - by exists ((c, m, a) :: triples).
Qed.

Lemma is_text_table_of (triples : list (str * str * str)) :
  is_text_table (table_of triples) = true.
Proof.
  unfold is_text_table, table_of. cbn [columns rows].
  rewrite bool_decide_eq_true_2 by done. cbn [andb].
  induction triples as [|[[c m] a] ts IH]; [done|].
  rewrite fmap_cons. cbn [forallb]. by rewrite IH.
Qed.

Lemma reloaded_table_of (triples : list (str * str * str)) :
  triples <> [] -> reloaded triples = table_of triples.
Proof.
  intros Hne. unfold reloaded, frame_of_records, table_of.
  rewrite record_labels_text. destruct triples as [|t ts]; [done|]. f_equal.
  rewrite <- !list_fmap_compose. apply list_fmap_ext. by intros ? [[c m] a] ?.
Qed.

Lemma collected_frame_filled (k : key) (records : list (list (key * value))) :
  Forall is_annotation_record records ->
  filled_text_table (k, collected_frame records).
Proof.
  intros Hrecs. destruct (records_triples _ Hrecs) as [triples ->].
  unfold filled_text_table, collected_frame. cbn [snd].
  destruct triples as [|t ts]; [done|]. rewrite fmap_cons.
  change (frame_of_records (record_of_triple t :: (record_of_triple <$> ts)))
    with (reloaded (t :: ts)).
  rewrite reloaded_table_of by done. split; [apply is_text_table_of|done].
Qed.

(** Storing the table of the last passage keeps the tables keyed by
    position. *)
Lemma store_collected_ok (passages : list str) (annotations : list (key * DataFrame))
    (records : list (list (key * value))) :
  passages <> [] ->
  annotations.*1 = KInt <$> seqZ 0 (Z.of_nat (length passages) - 1) ->
  Forall filled_text_table annotations ->
  Forall is_annotation_record records ->
  (store_collected passages annotations records).*1
  = KInt <$> seqZ 0 (Z.of_nat (length passages))
  /\ Forall filled_text_table (store_collected passages annotations records).
Proof.
  intros Hne Hkeys Htabs Hrecs. unfold store_collected. split.
  - destruct passages as [|p ps]; [done|]. cbn [length] in *.
    replace (Z.of_nat (S (length ps)) - 1)%Z with (Z.of_nat (length ps)) in * by lia.
    rewrite dict_set_fresh.
    + rewrite fmap_app, Hkeys. cbn [fmap list_fmap fst].
      by rewrite seqZ_S, fmap_app.
    + rewrite Hkeys. intros (z & [= <-] & Hz%elem_of_seqZ)%list_elem_of_fmap. lia.
  - apply Forall_dict_set; [done|]. intros k'. by apply collected_frame_filled.
Qed.

Section WordScanFacts.
Context {U : Unicode}.

Lemma word_step_ok (ws : WordScan) (para : Paragraph) :
  word_scan_ok ws -> word_scan_ok (word_step ws para).
Proof.
  intros (Hrecs & Htabs & Hps & Hkeys). unfold word_step.
  destruct (truthy (strip (para_text para))) eqn:Htext; cbn [negb]; [|done].
  destruct (startswith (style_name para) (lit "List")); cbn [negb].
  - split; [|done]. cbn [ws_current_annots].
    destruct (startswith _ (lit "Citation:")).
    { apply Forall_app. split; [done|]. constructor; [|done]. by eexists _, _, _. }
    destruct (startswith _ (lit "Metadata:")).
    { apply set_last_records; [by left|done]. }
    destruct (startswith _ (lit "Annotation:")); [|done].
    apply set_last_records; [by right|done].
  - assert (strip (para_text para) <> []) as Hp by (by apply truthy_true).
    unfold word_scan_ok.
    cbn [ws_current_annots ws_annotations ws_passages ws_current_passage].
    destruct (ws_current_passage ws) as [cur|].
    + destruct Hkeys as [Hne Hkeys].
      destruct (store_collected_ok _ _ _ Hne Hkeys Htabs Hrecs) as [Hkeys' Htabs'].
      split; [done|]. split; [done|]. split.
      { apply Forall_app. split; [done|]. by constructor. }
      split; [by destruct (ws_passages ws)|].
      rewrite Hkeys', length_app. cbn [length]. do 2 f_equal. lia.
    + destruct Hkeys as [Hnil ->]. rewrite Hnil.
      split; [done|]. split; [done|]. split; [by constructor|]. by split.
Qed.

Lemma word_scan_ok_fold (doc : list Paragraph) (ws : WordScan) :
  word_scan_ok ws -> word_scan_ok (fold_left word_step doc ws).
Proof.
  revert ws. induction doc as [|para doc IH]; intros ws Hok; [done|].
  cbn [fold_left]. by apply IH, word_step_ok.
Qed.

(** What [import_word] returns, for every document. *)
Lemma import_word_ok (doc : list Paragraph) :
  (import_word doc).2.*1 = KInt <$> seqZ 0 (Z.of_nat (length (import_word doc).1))
  /\ Forall filled_text_table (import_word doc).2
  /\ Forall (fun p : str => p <> []) (import_word doc).1.
Proof.
  rewrite import_word_fallback_unused.
  set (ws := fold_left word_step doc _).
  assert (word_scan_ok ws) as (Hrecs & Htabs & Hps & Hkeys).
  { apply word_scan_ok_fold. repeat split; by constructor. }
  cbn [fst snd]. destruct (ws_current_passage ws) as [cur|].
  - destruct Hkeys as [Hne Hkeys].
    destruct (store_collected_ok _ _ _ Hne Hkeys Htabs Hrecs) as [Hkeys' Htabs'].
    by repeat split.
  - destruct Hkeys as [Hnil Hnone]. rewrite Hnil, Hnone. by repeat split.
Qed.
End WordScanFacts.

(** X15.  Whatever the document, loading it from [import_word] leaves a
    corpus of the data model: the passages are non-empty strings, the
    tables are keyed by the passage positions, in their order, and every
    table has exactly the three core columns, a string in every cell and
    at least one row. *)
Theorem load_word_gives_text_corpus {U : Unicode} (doc : list Paragraph) (st : State) :
  exists st',
    load_word doc st = (Ok tt, st')
    /\ errors st' = errors st
    /\ text_corpus st' = true
    /\ aligned st'
    /\ Forall (fun p => p <> VStr []) (text_passages st')
    /\ Forall (fun kd => rows kd.2 <> []) (annotations st').
Proof.
  destruct (import_word_ok doc) as (Hkeys & Htabs & Hps).
  unfold load_word. destruct (import_word doc) as [ps an].
  cbn [fst snd] in *.
  exists {| text_passages := VStr <$> ps; annotations := an; errors := errors st |}.
  split; [reflexivity|].
  split; [done|]. split; [|split; [|split]].
  - unfold text_corpus. cbn [text_passages annotations].
    apply andb_true_intro. split; [apply andb_true_intro; split|].
    + apply forallb_forall. intros v Hv.
      by apply in_map_iff in Hv as (p & <- & _).
    + apply bool_decide_eq_true_2. rewrite Hkeys.
      apply NoDup_fmap_2; [|apply NoDup_seqZ]. by intros ?? [= ->].
    + apply forallb_forall. intros [k df] Hin%list_elem_of_In.
      apply andb_true_intro. split.
      * assert (k ∈ an.*1) as Hk.
        { apply list_elem_of_fmap. by exists (k, df). }
        rewrite Hkeys in Hk. by apply list_elem_of_fmap in Hk as (z & -> & _).
      * by apply (proj1 (Forall_forall _ _) Htabs (k, df) Hin).
  - unfold aligned. cbn [text_passages annotations]. by rewrite length_fmap.
  - apply Forall_fmap. eapply Forall_impl; [exact Hps|].
    intros p Hp [= ->]. done.
  - eapply Forall_impl; [exact Htabs|]. by intros kd [_ ?].
Qed.




(** ** Loading a document of any shape *)

Section LoadAny.
Context {U : Unicode} {J : Json}.

End LoadAny.



(** ** The document round trip *)

(** *** The run splitter *)

Lemma span_open_cons : span_open = 60 :: span_open_inner ++ [62].
Proof. reflexivity. Qed.

Lemma span_close_cons : span_close = 60 :: span_close_inner ++ [62].
Proof. reflexivity. Qed.

Lemma startswith_other_head (x y : N) (s p : str) :
  x <> y -> startswith (x :: s) (y :: p) = false.
Proof.
  intros Hxy. cbn [startswith].
  by rewrite (proj2 (N.eqb_neq y x)) by done.
Qed.

Lemma startswith_span_open_head (x : N) (s : str) :
  x <> 60 -> startswith (x :: s) span_open = false.
Proof. intros Hx. rewrite span_open_cons. by apply startswith_other_head. Qed.

Lemma startswith_span_close_head (x : N) (s : str) :
  x <> 60 -> startswith (x :: s) span_close = false.
Proof. intros Hx. rewrite span_close_cons. by apply startswith_other_head. Qed.

Lemma export_runs_skip (l : str) (plain r : str) :
  export_runs (length l) plain (l ++ r) = export_runs O plain r.
Proof. induction l as [|c l IH]; [done|]. exact IH. Qed.

Lemma span_group_found (g r : str) :
  Forall (fun x => x <> 60 /\ x <> 10) g ->
  span_group (g ++ span_close ++ r) = Some g.
Proof.
  induction 1 as [|x g [Hlt Hnl] Hg IH].
  - cbn [app]. destruct (span_close ++ r) eqn:E; cbn [span_group];
      rewrite <- E; by rewrite startswith_app.
  - cbn [app span_group]. rewrite startswith_span_close_head by done.
    rewrite (proj2 (N.eqb_neq x 10)) by done. by rewrite IH.
Qed.

Lemma concat_plain_run (text : str) :
  concat (run_text <$> plain_run text) = text.
Proof. unfold plain_run. destruct text; [done|]. cbn. by rewrite app_nil_r. Qed.

(** At a wrapped stretch the splitter makes a green run of it and goes
    on behind the closing tag. *)
Lemma export_runs_match (plain g r : str) :
  Forall (fun x => x <> 60 /\ x <> 10) g ->
  export_runs O plain (green_span g ++ r)
  = plain_run plain
    ++ {| run_text := g; run_green := true |} :: export_runs O [] r.
Proof.
  intros Hg. unfold green_span. rewrite <- !app_assoc.
  set (s := span_open ++ g ++ span_close ++ r).
  assert (s = 60 :: (span_open_inner ++ [62]) ++ g ++ span_close ++ r) as Hs
    by (unfold s; by rewrite span_open_cons).
  rewrite Hs. cbn [export_runs]. rewrite <- Hs. unfold s at 1 2.
  rewrite startswith_app, drop_app_length, span_group_found by done.
  do 2 f_equal.
  replace (Nat.pred (length span_open + length g + length span_close))
    with (length ((span_open_inner ++ [62]) ++ g ++ span_close)).
  - rewrite <- export_runs_skip with (l := (span_open_inner ++ [62]) ++ g ++ span_close).
    by rewrite <- !app_assoc.
  - rewrite span_open_cons. cbn [length]. rewrite !length_app. cbn [length]. lia.
Qed.

Lemma export_runs_char (plain : str) (c : N) (s : str) :
  c <> 60 -> export_runs O plain (c :: s) = export_runs O (plain ++ [c]) s.
Proof.
  intros Hc. cbn [export_runs]. by rewrite startswith_span_open_head.
Qed.

(** The runs of a marked text spell the text that was marked. *)
Lemma export_runs_marked (G : str -> Prop) (p h : str) :
  Marked G p h ->
  forall plain, concat (run_text <$> export_runs O plain h) = plain ++ p.
Proof.
  induction 1 as [|c p h Hc Hm IH|g p h HG Hg Hm IH]; intros plain.
  - cbn [export_runs]. by rewrite concat_plain_run, app_nil_r.
  - rewrite export_runs_char by done. rewrite IH. by rewrite <- app_assoc.
  - rewrite export_runs_match by done. rewrite fmap_app, concat_app.
    rewrite concat_plain_run, fmap_cons. cbn [concat run_text].
    rewrite IH. by rewrite app_nil_l.
Qed.

(** The green runs of a marked text are the stretches that were
    wrapped. *)
Lemma export_runs_green (G : str -> Prop) (p h : str) :
  Marked G p h ->
  forall plain,
    Forall (fun r => run_green r = true -> G (run_text r)) (export_runs O plain h).
Proof.
  assert (forall plain,
            Forall (fun r => run_green r = true -> G (run_text r)) (plain_run plain))
    as Hplain.
  { intros plain. unfold plain_run. destruct (truthy plain); [|done].
    by constructor. }
  induction 1 as [|c p h Hc Hm IH|g p h HG Hg Hm IH]; intros plain.
  - apply Hplain.
  - rewrite export_runs_char by done. apply IH.
  - rewrite export_runs_match by done. apply Forall_app. split; [apply Hplain|].
    constructor; [done|apply IH].
Qed.

Lemma marked_plain (G : str -> Prop) (p : str) :
  Forall (fun x => x <> 60) p -> Marked G p p.
Proof. induction 1; by constructor. Qed.

Lemma marked_weaken (G G' : str -> Prop) (p h : str) :
  (forall g, G g -> G' g) -> Marked G p h -> Marked G' p h.
Proof. intros HG. induction 1; constructor; auto. Qed.

Lemma docx_safe_app (a b : str) :
  docx_safe (a ++ b) = docx_safe a && docx_safe b.
Proof. apply forallb_app. Qed.

Lemma marked_docx_safe (G : str -> Prop) (p h : str) :
  Marked G p h -> docx_safe p = true -> docx_safe h = true.
Proof.
  induction 1 as [|c p h Hc Hm IH|g p h HG Hg Hm IH]; [done|..].
  - unfold docx_safe. cbn [forallb]. intros [Hx Hp]%andb_prop.
    rewrite Hx. by apply IH.
  - rewrite docx_safe_app. intros [Hsg Hp]%andb_prop.
    unfold green_span. rewrite !docx_safe_app, Hsg, (IH Hp). done.
Qed.

(** *** Wrapping a citation in a marked text *)

Lemma startswith_before (u w c : str) (d : N) :
  d ∉ c -> startswith (u ++ d :: w) c = true -> startswith u c = true.
Proof.
  revert c. induction u as [|x u IH]; intros c Hd H.
  - destruct c as [|y c]; [done|]. cbn [app startswith] in H.
    apply andb_prop in H as [Hy%N.eqb_eq _]. subst. exfalso. apply Hd. left.
  - destruct c as [|y c]; [done|]. cbn [app startswith] in *.
    apply andb_prop in H as [Hy Hrest]. rewrite Hy. cbn [andb].
    apply (IH c); [|done]. intros Hin. apply Hd. by right.
Qed.

Lemma replace_copy_delimiter (c new : str) (d : N) (r : str) :
  c <> [] -> d ∉ c ->
  replace_from c new O (d :: r) = d :: replace_from c new O r.
Proof.
  intros Hc Hd. apply replace_from_copy. destruct c as [|y c]; [done|].
  apply startswith_other_head. intros ->. apply Hd. left.
Qed.

Lemma replace_copy_piece (c new X : str) (d : N) (r : str) :
  contains c X = false -> d ∉ c ->
  replace_from c new O (X ++ d :: r) = X ++ replace_from c new O (d :: r).
Proof.
  intros Hcon Hd. induction X as [|x X IH]; [done|].
  cbn [contains] in Hcon. apply orb_false_elim in Hcon as [Hst Hcon].
  cbn [app]. rewrite replace_from_copy.
  - by rewrite IH.
  - apply not_true_iff_false. intros H.
    apply (startswith_before (x :: X)) in H; [|done]. congruence.
Qed.

Lemma taggable_inv (c : str) :
  taggable c ->
  c <> [] /\ (60 ∉ c) /\ (62 ∉ c)
  /\ Forall (fun x => x <> 60 /\ x <> 10) c
  /\ contains c span_open_inner = false
  /\ contains c span_close_inner = false.
Proof.
  intros (Hall & Hopen & Hclose). split; [|split; [|split; [|split; [|split]]]].
  - intros ->. by destruct span_open.
  - intros Hin. apply (proj1 (Forall_forall _ _) Hall) in Hin. by destruct Hin.
  - intros Hin. apply (proj1 (Forall_forall _ _) Hall) in Hin.
    by destruct Hin as (_ & ? & _).
  - eapply Forall_impl; [exact Hall|]. by intros x (? & _ & ?).
  - apply not_true_iff_false. intros H.
    assert (contains c span_open = true); [|congruence].
    eapply contains_trans; [exact H|]. apply contains_spec.
    by exists [60], [62].
  - apply not_true_iff_false. intros H.
    assert (contains c span_close = true); [|congruence].
    eapply contains_trans; [exact H|]. apply contains_spec.
    by exists [60], [62].
Qed.

(** A citation that is no part of a wrapped stretch nor of its tags does
    not occur in them: [replace] copies them. *)
Lemma replace_copy_span (c new g r : str) :
  taggable c -> contains c g = false ->
  replace_from c new O (green_span g ++ r)
  = green_span g ++ replace_from c new O r.
Proof.
  intros (Hc & H60 & H62 & _ & Hopen & Hclose)%taggable_inv Hg.
  unfold green_span. rewrite span_open_cons, span_close_cons.
  rewrite <- !app_assoc. cbn [app]. rewrite <- !app_assoc. cbn [app].
  rewrite replace_copy_delimiter by done.
  rewrite replace_copy_piece by done.
  rewrite replace_copy_delimiter by done.
  rewrite replace_copy_piece by done.
  rewrite replace_copy_delimiter by done.
  rewrite replace_copy_piece by done.
  by rewrite replace_copy_delimiter by done.
Qed.

(** A stretch without [<] at the head of a marked text is a stretch of
    the text itself. *)
Lemma marked_prefix (G : str -> Prop) (c r p : str) :
  Forall (fun x => x <> 60) c -> Marked G p (c ++ r) ->
  exists p', p = c ++ p' /\ Marked G p' r.
Proof.
  intros Hc. revert p. induction Hc as [|x c Hx Hc IH]; intros p Hm.
  - by exists p.
  - cbn [app] in Hm. remember (x :: c ++ r) as h eqn:Eh.
    destruct Hm as [|x' p0 h0 Hx' Hm0|g p0 h0 HG Hg Hm0]; [done|..].
    + injection Eh as -> ->. destruct (IH _ Hm0) as (p' & -> & Hp').
      by exists p'.
    + exfalso. unfold green_span in Eh. rewrite span_open_cons in Eh.
      cbn [app] in Eh. injection Eh as Eh _. by subst.
Qed.

Lemma replace_marked (G : str -> Prop) (c : str) :
  taggable c ->
  (forall g, G g -> contains c g = false) ->
  forall (n : nat) (p h : str),
    (length h < n)%nat -> Marked G p h ->
    Marked (fun g => G g \/ g = c) p (replace_from c (green_span c) O h).
Proof.
  intros Htag HG.
  destruct (taggable_inv c Htag) as (Hc & H60 & H62 & Hcg & _ & _).
  assert (Forall (fun x => x <> 60) c) as Hc60.
  { eapply Forall_impl; [exact Hcg|]. by intros x [? _]. }
  induction n as [|n IH]; intros p h Hlen Hm; [lia|].
  destruct Hm as [|x p h Hx Hm|g p h Hg Hfg Hm].
  - constructor.
  - destruct (startswith (x :: h) c) eqn:Hst.
    + apply startswith_spec in Hst as [r Hr].
      assert (Marked G (x :: p) (c ++ r)) as Hm'
        by (rewrite <- Hr; by constructor).
      destruct (marked_prefix G c r _ Hc60 Hm') as (p' & Hp & Hp').
      rewrite Hp, Hr, replace_from_match by done.
      apply marked_span; [by right|done|]. apply IH; [|done].
      apply (f_equal length) in Hr. rewrite length_app in Hr.
      cbn [length] in *. destruct c; [done|]. cbn [length] in Hr. lia.
    + rewrite replace_from_copy by done. constructor; [done|].
      apply IH; [cbn [length] in Hlen; lia|done].
  - rewrite replace_copy_span by auto.
    apply marked_span; [by left|done|]. apply IH; [|done].
    unfold green_span in Hlen. rewrite span_open_cons in Hlen.
    cbn [app length] in Hlen. rewrite !length_app in Hlen. lia.
Qed.

Lemma export_highlight_marked (l : list str) :
  forall (G : str -> Prop) (p h : str),
    Forall taggable l -> apart l ->
    (forall c g, c ∈ l -> G g -> contains c g = false) ->
    Marked G p h ->
    exists G', (forall g, G' g -> G g \/ g ∈ l)
               /\ Marked G' p (fold_left export_highlight_step l h).
Proof.
  induction l as [|c l IH]; intros G p h Htag Hap HG Hm.
  - exists G. split; [by left|done].
  - cbn [fold_left]. apply Forall_cons_1 in Htag as [Hc Htag].
    destruct Hap as [Hcl Hap]. unfold export_highlight_step at 2.
    destruct (truthy c && contains c h) eqn:E.
    + destruct (IH (fun g => G g \/ g = c) p (str_replace h c (green_span c)))
        as (G' & HG' & Hm'); [done|done| | |].
      * intros c' g Hc' [Hg | ->].
        -- apply HG; [by right|done].
        -- by apply (proj1 (Forall_forall _ _) Hcl c' Hc').
      * destruct c as [|x c]; [done|].
        apply (replace_marked G (x :: c) Hc) with (n := S (length h)); [|lia|done].
        intros g Hg. apply HG; [left|done].
      * exists G'. split; [|done]. intros g Hg.
        destruct (HG' g Hg) as [[HGg | ->] | Hl].
        -- by left.
        -- right. left.
        -- right. by right.
    + destruct (IH G p h) as (G' & HG' & Hm'); [done|done| |done|].
      * intros c' g Hc'. apply HG. by right.
      * exists G'. split; [|done]. intros g Hg.
        destruct (HG' g Hg) as [HGg | Hl]; [by left|]. right. by right.
Qed.

Lemma apart_perm (l l' : list str) : l ≡ₚ l' -> apart l -> apart l'.
Proof.
  induction 1 as [|x l l' Hperm IH|x y l|l l' l'' _ IH1 _ IH2].
  - done.
  - intros [Hx Hl]. split; [by rewrite <- Hperm|by apply IH].
  - intros (Hy & Hx & Hl). apply Forall_cons_1 in Hy as [[Hyx Hxy] Hy].
    split; [|by split]. by constructor.
  - intros H. by apply IH2, IH1.
Qed.

(** The run splitter undoes the marking of citations that it can find
    again and that are no part of one another, and its green runs are
    citations. *)
Lemma export_highlight_undone (p : str) (cs : list str) :
  Forall (fun x => x <> 60) p -> Forall taggable cs -> apart cs ->
  concat (run_text <$> export_runs O [] (highlight_citations_for_export p cs)) = p
  /\ Forall (fun r => run_green r = true -> run_text r ∈ cs)
       (export_runs O [] (highlight_citations_for_export p cs))
  /\ (docx_safe p = true ->
      docx_safe (highlight_citations_for_export p cs) = true).
Proof.
  intros Hp Htag Hap. unfold highlight_citations_for_export.
  destruct (export_highlight_marked (sorted_by_len_desc cs) (fun _ => False) p p)
    as (G' & HG' & Hm).
  - by rewrite sorted_by_len_desc_perm.
  - eapply apart_perm; [|exact Hap]. symmetry. apply sorted_by_len_desc_perm.
  - done.
  - by apply marked_plain.
  - split; [|split].
    + by rewrite (export_runs_marked G' p _ Hm).
    + eapply Forall_impl; [apply (export_runs_green G' p _ Hm)|].
      intros r Hr Hgreen. destruct (HG' _ (Hr Hgreen)) as [[]|Hin].
      by rewrite sorted_by_len_desc_perm in Hin.
    + by apply (marked_docx_safe G' p).
Qed.

(** *** The bullets, written and read *)

Section BulletFacts.
Context {U : Unicode} (W : WordLaws U).

Lemma lstrip_length (s : str) : (length (lstrip isspace s) <= length s)%nat.
Proof.
  induction s as [|c s IH]; [done|]. cbn [lstrip].
  destruct (isspace c); cbn [length]; lia.
Qed.

Lemma lstrip_fixed (s : str) :
  length (lstrip isspace s) = length s -> lstrip isspace s = s.
Proof.
  destruct s as [|c s]; [done|]. cbn [lstrip].
  destruct (isspace c); [|done]. pose proof (lstrip_length s). cbn [length]. lia.
Qed.

Lemma lstrip_head_inv (c : N) (s : str) :
  lstrip isspace (c :: s) = c :: s -> isspace c = false.
Proof.
  cbn [lstrip]. destruct (isspace c); [|done]. intros H.
  apply (f_equal length) in H. pose proof (lstrip_length s).
  cbn [length] in H. lia.
Qed.

Lemma strip_fixed (s : str) :
  strip s = s -> lstrip isspace s = s /\ lstrip isspace (rev s) = rev s.
Proof.
  unfold strip, strip_with. intros H.
  assert (lstrip isspace s = s) as Hl.
  { apply lstrip_fixed. apply (f_equal length) in H. rewrite length_rev in H.
    pose proof (lstrip_length (rev (lstrip isspace s))) as H1.
    pose proof (lstrip_length s) as H2. rewrite length_rev in H1. lia. }
  split; [done|]. rewrite Hl in H.
  apply (f_equal (@rev N)) in H. by rewrite rev_involutive in H.
Qed.

(** A stripped text that is not empty ends with a character that is no
    white space. *)
Lemma strip_last (s : str) :
  strip s = s -> s <> [] -> exists s' d, s = s' ++ [d] /\ isspace d = false.
Proof.
  intros [_ Hr]%strip_fixed Hne.
  destruct (rev s) as [|d r] eqn:E.
  - apply (f_equal (@rev N)) in E. rewrite rev_involutive in E. by subst.
  - exists (rev r), d. split.
    + apply (f_equal (@rev N)) in E. by rewrite rev_involutive in E.
    + by apply (lstrip_head_inv d r).
Qed.

Lemma strip_space (s : str) : strip (32 :: s) = strip s.
Proof.
  unfold strip, strip_with. cbn [lstrip]. by rewrite (space_is_space U W).
Qed.

Lemma strip_behind_colon (s : str) : strip s = s -> strip (behind_colon s) = s.
Proof.
  intros Hs. destruct s as [|c s]; [done|]. cbn [behind_colon].
  by rewrite strip_space.
Qed.

(** The text of a bullet, stripped. *)
Lemma strip_bullet_text (l0 : N) (lr s : str) :
  isspace l0 = false -> strip s = s ->
  strip (lit "  " ++ (l0 :: lr) ++ lit ": " ++ s)
  = (l0 :: lr) ++ [58] ++ behind_colon s.
Proof.
  intros Hl0 Hs. change (lit "  ") with [32; 32]. change (lit ": ") with [58; 32].
  cbn [app]. rewrite !strip_space.
  destruct (decide (s = [])) as [->|Hne].
  - cbn [behind_colon]. unfold strip, strip_with.
    rewrite lstrip_head by done.
    change (l0 :: lr ++ [58; 32]) with ((l0 :: lr) ++ [58; 32]).
    rewrite rev_app_distr. cbn [rev app lstrip].
    rewrite (space_is_space U W), (colon_no_space U W).
    change (58 :: (rev lr ++ [l0])) with ([58] ++ rev (l0 :: lr)).
    by rewrite rev_app_distr, rev_involutive.
  - assert (behind_colon s = 32 :: s) as -> by (by destruct s).
    destruct (strip_last s Hs Hne) as (s' & d & -> & Hd). cbn [app].
    assert (l0 :: lr ++ 58 :: 32 :: s' ++ [d]
            = (l0 :: (lr ++ 58 :: 32 :: s')) ++ [d]) as ->
      by (cbn [app]; by rewrite <- app_assoc).
    by apply strip_id.
Qed.
End BulletFacts.

(** *** Reading the exported paragraphs *)

Lemma set_last_snoc (records : list (list (key * value))) (rec : list (key * value))
    (field : key) (v : value) :
  set_last (records ++ [rec]) field v = records ++ [dict_set rec field v].
Proof.
  induction records as [|r rs IH]; [done|].
  destruct rs as [|r' rs]; [done|].
  change (set_last ((r :: r' :: rs) ++ [rec]) field v)
    with (r :: set_last ((r' :: rs) ++ [rec]) field v).
  by rewrite IH.
Qed.

Lemma truthy_cons_app (c : N) (s r : str) : truthy ((c :: s) ++ r) = true.
Proof. done. Qed.

Section ReadBack.
Context {U : Unicode} (W : WordLaws U).

Lemma word_step_citation (ws : WordScan) (c : str) :
  strip c = c ->
  word_step ws (bullet_paragraph (lit "Citation") c)
  = {| ws_passages := ws_passages ws;
       ws_annotations := ws_annotations ws;
       ws_current_passage := ws_current_passage ws;
       ws_current_annots := ws_current_annots ws ++ [annotation_record c [] []] |}.
Proof.
  intros Hc. unfold word_step, bullet_paragraph. cbn [para_text style_name].
  change (lit "Citation") with (67 :: lit "itation").
  rewrite (strip_bullet_text W 67 (lit "itation") c (letter_C_no_space U W) Hc).
  rewrite truthy_cons_app.
  change (startswith (lit "List Bullet") (lit "List")) with true. cbn [negb].
  change ((67 :: lit "itation") ++ [58] ++ behind_colon c)
    with (lit "Citation:" ++ behind_colon c).
  rewrite startswith_app.
  change (drop 9 (lit "Citation:" ++ behind_colon c)) with (behind_colon c).
  by rewrite (strip_behind_colon W).
Qed.

Lemma word_step_metadata (ws : WordScan) (m : str) :
  strip m = m ->
  word_step ws (bullet_paragraph (lit "Metadata") m)
  = {| ws_passages := ws_passages ws;
       ws_annotations := ws_annotations ws;
       ws_current_passage := ws_current_passage ws;
       ws_current_annots := set_last (ws_current_annots ws) Metadata (VStr m) |}.
Proof.
  intros Hm. unfold word_step, bullet_paragraph. cbn [para_text style_name].
  change (lit "Metadata") with (77 :: lit "etadata").
  rewrite (strip_bullet_text W 77 (lit "etadata") m (letter_M_no_space U W) Hm).
  rewrite truthy_cons_app.
  change (startswith (lit "List Bullet") (lit "List")) with true. cbn [negb].
  change ((77 :: lit "etadata") ++ [58] ++ behind_colon m)
    with (lit "Metadata:" ++ behind_colon m).
  change (startswith (lit "Metadata:" ++ behind_colon m) (lit "Citation:"))
    with false.
  rewrite startswith_app.
  change (drop 9 (lit "Metadata:" ++ behind_colon m)) with (behind_colon m).
  by rewrite (strip_behind_colon W).
Qed.

Lemma word_step_annotation (ws : WordScan) (a : str) :
  strip a = a ->
  word_step ws (bullet_paragraph (lit "Annotation") a)
  = {| ws_passages := ws_passages ws;
       ws_annotations := ws_annotations ws;
       ws_current_passage := ws_current_passage ws;
       ws_current_annots :=
         set_last (ws_current_annots ws) Annotation_Text (VStr a) |}.
Proof.
  intros Ha. unfold word_step, bullet_paragraph. cbn [para_text style_name].
  change (lit "Annotation") with (65 :: lit "nnotation").
  rewrite (strip_bullet_text W 65 (lit "nnotation") a (letter_A_no_space U W) Ha).
  rewrite truthy_cons_app.
  change (startswith (lit "List Bullet") (lit "List")) with true. cbn [negb].
  change ((65 :: lit "nnotation") ++ [58] ++ behind_colon a)
    with (lit "Annotation:" ++ behind_colon a).
  change (startswith (lit "Annotation:" ++ behind_colon a) (lit "Citation:"))
    with false.
  change (startswith (lit "Annotation:" ++ behind_colon a) (lit "Metadata:"))
    with false.
  rewrite startswith_app.
  change (drop 11 (lit "Annotation:" ++ behind_colon a)) with (behind_colon a).
  by rewrite (strip_behind_colon W).
Qed.

(** The three bullets of an annotation add its record. *)
Lemma scan_annotation (ps : list str) (an : list (key * DataFrame))
    (cur : option str) (recs : list (list (key * value))) (t : str * str * str) :
  clean_annotation t ->
  fold_left word_step (annotation_paragraphs t)
    {| ws_passages := ps; ws_annotations := an;
       ws_current_passage := cur; ws_current_annots := recs |}
  = {| ws_passages := ps; ws_annotations := an;
       ws_current_passage := cur;
       ws_current_annots := recs ++ [record_of_triple t] |}.
Proof.
  destruct t as [[c m] a]. intros ([Hc _] & [Hm _] & [Ha _]).
  cbn [fst snd] in Hc, Hm, Ha.
  cbn [annotation_paragraphs fold_left fst snd].
  rewrite word_step_citation by done.
  rewrite word_step_metadata by done.
  rewrite word_step_annotation by done.
  cbn [ws_passages ws_annotations ws_current_passage ws_current_annots].
  by rewrite !set_last_snoc.
Qed.

Lemma scan_annotations (ts : list (str * str * str)) (ps : list str)
    (an : list (key * DataFrame)) (cur : option str)
    (recs : list (list (key * value))) :
  Forall clean_annotation ts ->
  fold_left word_step (flat_map annotation_paragraphs ts)
    {| ws_passages := ps; ws_annotations := an;
       ws_current_passage := cur; ws_current_annots := recs |}
  = {| ws_passages := ps; ws_annotations := an;
       ws_current_passage := cur;
       ws_current_annots := recs ++ (record_of_triple <$> ts) |}.
Proof.
  intros Hts. revert recs.
  induction Hts as [|t ts Ht _ IH]; intros recs.
  - by rewrite app_nil_r.
  - cbn [flat_map]. rewrite fold_left_app, scan_annotation by done.
    rewrite IH, fmap_cons. by rewrite <- app_assoc.
Qed.

(** The paragraphs of a passage with its annotations: the table of the
    passage before is stored, the passage is added and its records are
    collected. *)
Lemma scan_block (ws : WordScan) (p : str) (ts : list (str * str * str)) :
  clean_passage p -> Forall clean_annotation ts ->
  fold_left word_step (passage_block p ts) ws
  = {| ws_passages := ws_passages ws ++ [p];
       ws_annotations :=
         match ws_current_passage ws with
         | Some _ => store_collected (ws_passages ws) (ws_annotations ws)
                       (ws_current_annots ws)
         | None => ws_annotations ws
         end;
       ws_current_passage := Some p;
       ws_current_annots :=
         match ws_current_passage ws with
         | Some _ => []
         | None => ws_current_annots ws
         end ++ (record_of_triple <$> ts) |}.
Proof.
  intros (Hne & [Hp _] & _) Hts. unfold passage_block.
  cbn [fold_left]. rewrite fold_left_app.
  assert (word_step ws {| para_text := p; style_name := lit "Normal" |}
          = {| ws_passages := ws_passages ws ++ [p];
               ws_annotations :=
                 match ws_current_passage ws with
                 | Some _ => store_collected (ws_passages ws) (ws_annotations ws)
                               (ws_current_annots ws)
                 | None => ws_annotations ws
                 end;
               ws_current_passage := Some p;
               ws_current_annots :=
                 match ws_current_passage ws with
                 | Some _ => []
                 | None => ws_current_annots ws
                 end |}) as ->.
  { unfold word_step. cbn [para_text style_name]. rewrite Hp.
    destruct p as [|c p]; [done|]. cbn [truthy negb].
    by change (startswith (lit "Normal") (lit "List")) with false. }
  rewrite scan_annotations by done.
  cbn [fold_left]. unfold word_step at 1. cbn [para_text].
  by change (strip []) with (@nil N).
Qed.

Lemma store_collected_next (texts : list str) (p : str)
    (tables : list (list (str * str * str))) (ts : list (str * str * str)) :
  length texts = length tables ->
  store_collected (texts ++ [p])
    (imap (fun i ts => (KInt (Z.of_nat i), collected_frame (record_of_triple <$> ts)))
       tables)
    (record_of_triple <$> ts)
  = imap (fun i ts => (KInt (Z.of_nat i), collected_frame (record_of_triple <$> ts)))
      (tables ++ [ts]).
Proof.
  intros Hlen. unfold store_collected. rewrite length_app. cbn [length].
  replace (Z.of_nat (length texts + 1) - 1)%Z with (Z.of_nat (length tables)) by lia.
  rewrite dict_set_fresh.
  - rewrite imap_app. cbn [imap]. do 4 f_equal. lia.
  - intros ([k df] & Hk & Hin)%list_elem_of_fmap. cbn [fst] in Hk.
    apply list_elem_of_lookup in Hin as [i Hi].
    rewrite list_lookup_imap in Hi.
    destruct (tables !! i) as [x|] eqn:E; [|done].
    apply lookup_lt_Some in E. cbn [fmap option_fmap option_map] in Hi.
    injection Hi as <- _. injection Hk as Hk. lia.
Qed.

(** The first loop of [import_word] over the blocks of a corpus. *)
Lemma scan_blocks (texts : list str) :
  forall (tables : list (list (str * str * str))) (p : str)
         (ts : list (str * str * str)),
  length texts = length tables ->
  Forall clean_passage (texts ++ [p]) ->
  Forall (Forall clean_annotation) (tables ++ [ts]) ->
  fold_left word_step
    (concat (zip_with passage_block (texts ++ [p]) (tables ++ [ts])))
    {| ws_passages := []; ws_annotations := [];
       ws_current_passage := None; ws_current_annots := [] |}
  = scanned texts tables p ts.
Proof.
  induction texts as [|p' texts IH] using rev_ind; intros tables p ts Hlen Hps Hts.
  - destruct tables; [|done]. cbn [app zip_with concat]. rewrite app_nil_r.
    apply Forall_app in Hps as [_ [Hp _]%Forall_cons].
    apply Forall_app in Hts as [_ [Ht _]%Forall_cons].
    by rewrite scan_block.
  - destruct (decide (tables = [])) as [->|Hne].
    { rewrite length_app in Hlen. cbn [length] in Hlen. lia. }
    destruct (exists_last Hne) as (tables' & ts' & ->).
    rewrite !length_app in Hlen. cbn [length] in Hlen.
    assert (length texts = length tables') as Hlen' by lia.
    apply Forall_app in Hps as [Hps [Hp _]%Forall_cons].
    apply Forall_app in Hts as [Hts [Ht _]%Forall_cons].
    rewrite zip_with_app by (rewrite !length_app; cbn [length]; lia).
    rewrite concat_app, fold_left_app, IH by done.
    cbn [zip_with concat]. rewrite app_nil_r, scan_block by done.
    unfold scanned.
    cbn [ws_passages ws_annotations ws_current_passage ws_current_annots app].
    by rewrite store_collected_next.
Qed.

(** [import_word] on the blocks of a corpus. *)
Lemma import_blocks (texts : list str) (tables : list (list (str * str * str))) :
  length texts = length tables ->
  Forall clean_passage texts ->
  Forall (Forall clean_annotation) tables ->
  import_word (concat (zip_with passage_block texts tables))
  = (texts,
     imap (fun i ts => (KInt (Z.of_nat i), collected_frame (record_of_triple <$> ts)))
       tables).
Proof.
  intros Hlen Hps Hts.
  destruct (decide (texts = [])) as [->|Hne].
  { by destruct tables. }
  destruct (exists_last Hne) as (texts' & p & ->).
  destruct (decide (tables = [])) as [->|Hne'].
  { rewrite length_app in Hlen. cbn [length] in Hlen. lia. }
  destruct (exists_last Hne') as (tables' & ts & ->).
  rewrite !length_app in Hlen. cbn [length] in Hlen.
  assert (length texts' = length tables') as Hlen' by lia.
  rewrite import_word_fallback_unused. cbv zeta.
  rewrite scan_blocks by done. unfold scanned.
  cbn [ws_passages ws_annotations ws_current_passage ws_current_annots].
  by rewrite store_collected_next.
Qed.
End ReadBack.

(** *** Writing the paragraphs *)

Lemma all_paragraphs_read (rs : list (result (list DocParagraph)))
    (blocks : list (list Paragraph)) :
  Forall2 (fun r block =>
             exists pars, r = Ok pars /\ read_paragraph <$> pars = block)
    rs blocks ->
  exists doc, all_paragraphs rs = Ok doc /\ read_paragraph <$> doc = concat blocks.
Proof.
  induction 1 as [|r block rs blocks (pars & -> & Hpars) _ (doc & Hdoc & Hread)].
  - by exists [].
  - exists (pars ++ doc). cbn [all_paragraphs]. rewrite Hdoc. split; [done|].
    by rewrite fmap_app, Hpars, Hread.
Qed.

Lemma bullet_read (label s : str) :
  docx_safe label = true -> docx_safe s = true ->
  exists par, bullet label (VStr s) = Ok par
              /\ read_paragraph par = bullet_paragraph label s.
Proof.
  intros Hl Hs. unfold bullet. cbn [bullet_str].
  assert (docx_safe (lit "  " ++ label ++ lit ": " ++ s) = true) as ->.
  { by rewrite !docx_safe_app, Hl, Hs. }
  eexists. split; [done|]. unfold read_paragraph, bullet_paragraph.
  cbn [doc_runs doc_style]. by rewrite concat_plain_run.
Qed.

Lemma row_bullets_read (ts : list (str * str * str)) (t : str * str * str) :
  docx_safe t.1.1 = true -> docx_safe t.1.2 = true -> docx_safe t.2 = true ->
  exists pars, row_bullets (table_of ts) (row_of t) = Ok pars
               /\ read_paragraph <$> pars = annotation_paragraphs t.
Proof.
  destruct t as [[c m] a]. cbn [fst snd]. intros Hc Hm Ha. unfold row_bullets.
  change (row_get (table_of ts) (row_of (c, m, a)) Citation) with (VStr c).
  change (row_get (table_of ts) (row_of (c, m, a)) Metadata) with (VStr m).
  change (row_get (table_of ts) (row_of (c, m, a)) Annotation_Text) with (VStr a).
  destruct (bullet_read (lit "Citation") c) as (pc & -> & Hpc); [done|done|].
  destruct (bullet_read (lit "Metadata") m) as (pm & -> & Hpm); [done|done|].
  destruct (bullet_read (lit "Annotation") a) as (pa & -> & Hpa); [done|done|].
  eexists. split; [done|]. cbn [fmap list_fmap annotation_paragraphs fst snd].
  by rewrite Hpc, Hpm, Hpa.
Qed.

Lemma table_bullets_read (ts0 ts : list (str * str * str)) :
  Forall (fun t => docx_safe t.1.1 = true /\ docx_safe t.1.2 = true
                   /\ docx_safe t.2 = true) ts ->
  exists bullets,
    all_paragraphs (row_bullets (table_of ts0) <$> (row_of <$> ts)) = Ok bullets
    /\ read_paragraph <$> bullets = flat_map annotation_paragraphs ts.
Proof.
  induction 1 as [|t ts (Hc & Hm & Ha) _ (bullets & Hb & Hread)].
  - by exists [].
  - destruct (row_bullets_read ts0 t Hc Hm Ha) as (pars & Hpars & Hr).
    exists (pars ++ bullets). rewrite !fmap_cons. cbn [all_paragraphs].
    rewrite Hpars, Hb. split; [done|].
    rewrite fmap_app, Hr, Hread. done.
Qed.

Lemma df_column_table_of (ts : list (str * str * str)) :
  df_column (table_of ts) Citation = VStr <$> ((fun t => t.1.1) <$> ts).
Proof.
  unfold df_column, table_of. cbn [rows columns].
  rewrite <- !list_fmap_compose. apply list_fmap_ext. by intros ? [[c m] a] ?.
Qed.

Section WriteOut.
Context {U : Unicode}.

(** The paragraphs [export_word] writes for a clean passage and its
    table, as they are read from the document. *)
Lemma export_word_passage_read (p : str) (ts : list (str * str * str)) :
  clean_passage p -> clean_table ts ->
  exists pars,
    export_word_passage (VStr p) (table_of ts) = Ok pars
    /\ read_paragraph <$> pars = passage_block p ts.
Proof.
  intros (Hne & [Hstrip Hsafe] & Hlt) (Hts & Htag & Hap).
  unfold export_word_passage, passage_citations.
  change (columns (table_of ts)) with core_columns.
  rewrite bool_decide_eq_true_2 by apply NoDup_core_columns. cbn [negb].
  change (has_column (table_of ts) Citation) with true. cbv iota.
  rewrite df_column_table_of, as_texts_kept. fold (kept_citations ts).
  destruct (export_highlight_undone p (kept_citations ts) Hlt Htag Hap)
    as (Hruns & _ & Hsafe').
  rewrite (Hsafe' Hsafe).
  destruct (table_bullets_read ts ts) as (bullets & Hb & Hread).
  { eapply Forall_impl; [exact Hts|].
    intros t ([_ Hc] & [_ Hm] & [_ Ha]). by repeat split. }
  change (rows (table_of ts)) with (row_of <$> ts). rewrite Hb.
  eexists. split; [done|]. unfold passage_block.
  rewrite fmap_cons, fmap_app, Hread. unfold read_paragraph at 1.
  cbn [doc_runs doc_style]. by rewrite Hruns.
Qed.

Lemma export_word_read (texts : list str) (tables : list (list (str * str * str))) :
  length texts = length tables ->
  Forall clean_passage texts -> Forall clean_table tables ->
  exists doc,
    export_word (VStr <$> texts)
      (imap (fun i ts => (KInt (Z.of_nat i), table_of ts)) tables) = Ok doc
    /\ read_paragraph <$> doc = concat (zip_with passage_block texts tables).
Proof.
  intros Hlen Hps Hts. unfold export_word. apply all_paragraphs_read.
  apply Forall2_same_length_lookup_2.
  { rewrite length_imap, length_fmap, length_zip_with. lia. }
  intros i r block Hr Hblock.
  rewrite list_lookup_imap, list_lookup_fmap in Hr.
  rewrite lookup_zip_with in Hblock.
  destruct (texts !! i) as [p|] eqn:Hp; [|done].
  destruct (tables !! i) as [ts|] eqn:Ht; [|done].
  cbn in Hr, Hblock. injection Hr as <-. injection Hblock as <-.
  assert (imap (fun i ts => (KInt (Z.of_nat i), table_of ts)) tables
          = imap (fun j v => (KInt (Z.of_nat (0 + j)), v)) (table_of <$> tables))
    as -> by (by rewrite imap_fmap).
  change (Z.of_nat i) with (Z.of_nat (0 + i)).
  rewrite dict_get_positions, list_lookup_fmap, Ht. cbn [fmap option_fmap option_map default].
  apply export_word_passage_read.
  - by apply (proj1 (Forall_lookup _ _) Hps i p).
  - by apply (proj1 (Forall_lookup _ _) Hts i ts).
Qed.
End WriteOut.

Lemma collected_read_back (ts : list (str * str * str)) :
  collected_frame (record_of_triple <$> ts) = read_back ts.
Proof.
  destruct ts as [|t ts]; [done|].
  change (collected_frame (record_of_triple <$> t :: ts)) with (reloaded (t :: ts)).
  by rewrite reloaded_table_of.
Qed.

Lemma latin1_word_laws : WordLaws latin1.
Proof. by constructor. Qed.

(** X18.  For a passage without [<] and citations without angle
    brackets and newlines that are no part of the two tags or of one
    another, the runs that [export_word] makes of the marked passage
    spell the passage, nothing more, and every green run is one of the
    citations. *)
Theorem export_runs_spell_passage {U : Unicode} (passage : str) (citations : list str) :
  Forall (fun x => x <> 60) passage ->
  Forall taggable citations -> apart citations ->
  let runs := export_runs O [] (highlight_citations_for_export passage citations) in
  concat (run_text <$> runs) = passage
  /\ Forall (fun r => run_green r = true -> run_text r ∈ citations) runs.
Proof.
  intros Hp Htag Hap runs.
  destruct (export_highlight_undone passage citations Hp Htag Hap) as (H1 & H2 & _).
  by split.
Qed.

(** The theorem with [latin1] on the first passage of the study and two
    citations. *)
Lemma export_runs_spell_passage_witness :
  let passage := lit "Habe nun, ach! Philosophie, Juristerei und Medizin studiert." in
  let citations := [lit "Medizin"; lit "Philosophie"] in
  let runs := export_runs O [] (highlight_citations_for_export passage citations) in
  concat (run_text <$> runs) = passage
  /\ Forall (fun r => run_green r = true -> run_text r ∈ citations) runs.
Proof.
  refine (export_runs_spell_passage (U := latin1)
            (lit "Habe nun, ach! Philosophie, Juristerei und Medizin studiert.")
            [lit "Medizin"; lit "Philosophie"] _ _ _).
  - repeat constructor; discriminate.
  - repeat constructor; discriminate.
  - repeat constructor.
Defined.

(** X19.  A corpus of clean passages and clean tables, one for each
    passage under its position, that [export_word] has written comes
    back from [import_word] as it was: the passages are the same, and
    every passage has its annotations again, or one blank annotation if
    it had none. *)
Theorem export_then_import_word {U : Unicode} (texts : list str)
    (tables : list (list (str * str * str))) :
  WordLaws U ->
  length texts = length tables ->
  Forall clean_passage texts -> Forall clean_table tables ->
  exists doc,
    export_word (VStr <$> texts)
      (imap (fun i ts => (KInt (Z.of_nat i), table_of ts)) tables) = Ok doc
    /\ import_word (read_paragraph <$> doc)
       = (texts, imap (fun i ts => (KInt (Z.of_nat i), read_back ts)) tables).
Proof.
  intros W Hlen Hps Hts.
  destruct (export_word_read texts tables Hlen Hps Hts) as (doc & Hdoc & Hread).
  exists doc. split; [done|]. rewrite Hread, (import_blocks W) by
    (done || (eapply Forall_impl; [exact Hts|]; by intros ts [H _])).
  f_equal. apply imap_ext. intros i ts _. by rewrite collected_read_back.
Qed.

(** The theorem with [latin1] on the two passages of the study. *)
Lemma export_then_import_word_witness :
  exists doc,
    export_word (U := latin1) (VStr <$> study_texts)
      (imap (fun i ts => (KInt (Z.of_nat i), table_of ts)) study_tables) = Ok doc
    /\ import_word (U := latin1) (read_paragraph <$> doc)
       = (study_texts,
          imap (fun i ts => (KInt (Z.of_nat i), read_back ts)) study_tables).
Proof.
  refine (export_then_import_word (U := latin1) study_texts study_tables
            latin1_word_laws _ _ _).
  - reflexivity.
  - repeat constructor; discriminate.
  - repeat constructor; discriminate.
Defined.
